(** * vtkImageReslice: a shallow embedding of the resampling engine

    The definitions below follow [Imaging/Core/vtkImageReslice.cxx].
    C++ [int] values are modelled as [Z] (signed overflow is undefined
    behaviour in the source, so no wrap-around is written out for them;
    a statement that ranges over every input of an [int] computation says
    that the values stay within [int]), [vtkMTimeType] as [N], and the
    floating-point type [F] / [double] as exact rationals [Q]: every
    statement about a computed value is a statement about the exact
    arithmetic the source writes down, and a statement about a quotient says
    that the divisor is not zero.  A value stored into a [float] is narrowed
    as IEEE 754 arithmetic does it, to the nearest [float] or to an
    infinity. *)

From Stdlib Require Import ZArith QArith Qround Qabs List Bool String Lia Lqa.
From stdpp Require Import base list.
Import ListNotations.

Local Open Scope Z_scope.

(** ** Modification time of the filter *)

Module MTime.

Definition vtkMTimeType := N.

(** The two kinds of reslice transform [GetMTime] tells apart through
    [IsA("vtkHomogeneousTransform")]: a homogeneous one owns a 4x4 matrix
    with a modification time of its own. *)
Inductive vtkAbstractTransform :=
| HomogeneousTransform (mtime : vtkMTimeType) (matrixMTime : vtkMTimeType)
| NonlinearTransform (mtime : vtkMTimeType).

Definition TransformMTime (t : vtkAbstractTransform) : vtkMTimeType :=
  match t with
  | HomogeneousTransform m _ => m
  | NonlinearTransform m => m
  end.

(** The members of the filter that carry a modification time; [None] is
    the null pointer. *)
Record vtkImageReslice := {
  SuperclassMTime : vtkMTimeType;
  ResliceTransform : option vtkAbstractTransform;
  ResliceAxes : option vtkMTimeType;
  Interpolator : option vtkMTimeType;
  InformationInput : option vtkMTimeType
}.

(** [mTime = (time > mTime ? time : mTime)] *)
Definition later (time mTime : vtkMTimeType) : vtkMTimeType :=
  if (mTime <? time)%N then time else mTime.

Definition GetMTime (self : vtkImageReslice) : vtkMTimeType :=
  let mTime := SuperclassMTime self in
  let mTime :=
    match ResliceTransform self with
    | Some t =>
        let mTime := later (TransformMTime t) mTime in
        match t with
        | HomogeneousTransform _ mm => later mm mTime
        | NonlinearTransform _ => mTime
        end
    | None => mTime
    end in
  let mTime :=
    match ResliceAxes self with
    | Some time => later time mTime
    | None => mTime
    end in
  let mTime :=
    match Interpolator self with
    | Some time => later time mTime
    | None => mTime
    end in
  mTime.

(** The modification times of the collaborators that are set, in the
    order the source consults them. *)
Definition transform_mtimes (o : option vtkAbstractTransform) : list vtkMTimeType :=
  match o with
  | Some (HomogeneousTransform m mm) => [m; mm]
  | Some (NonlinearTransform m) => [m]
  | None => []
  end.

Definition set_mtime (o : option vtkMTimeType) : list vtkMTimeType :=
  match o with
  | Some m => [m]
  | None => []
  end.

Definition consulted_mtimes (self : vtkImageReslice) : list vtkMTimeType :=
  transform_mtimes (ResliceTransform self)
    ++ set_mtime (ResliceAxes self)
    ++ set_mtime (Interpolator self).

Definition max_mtime (own : vtkMTimeType) (l : list vtkMTimeType) : vtkMTimeType :=
  fold_left N.max l own.

(** The effective modification time as the specification words it: the
    filter's own time joined with the times of the reslice transform (and
    its matrix), the reslice axes, the interpolator and the information
    input. *)
Definition spec_effective_mtime (self : vtkImageReslice) : vtkMTimeType :=
  max_mtime (SuperclassMTime self)
    (consulted_mtimes self ++ set_mtime (InformationInput self)).

(** A filter whose information input was modified after everything else. *)
Definition info_input_newer : vtkImageReslice :=
  {| SuperclassMTime := 1%N;
     ResliceTransform := None;
     ResliceAxes := None;
     Interpolator := None;
     InformationInput := Some 10%N |}.

Lemma later_max (time mTime : vtkMTimeType) : later time mTime = N.max mTime time.
Proof.
  unfold later.
  destruct (N.ltb_spec mTime time) as [Hlt | Hge].
  - symmetry. apply N.max_r. lia.
  - symmetry. apply N.max_l. exact Hge.
Qed.

(** C8 (as amended): [GetMTime] is the maximum of the filter's own time
    and the times of the reslice transform (with its matrix when it is
    homogeneous), the reslice axes and the interpolator, whichever are
    set; the information input is not consulted. *)
Theorem GetMTime_is_max_of_consulted (self : vtkImageReslice) :
  GetMTime self = max_mtime (SuperclassMTime self) (consulted_mtimes self).
Proof.
  destruct self as [own tr ax ip info].
  unfold GetMTime, consulted_mtimes, max_mtime; cbn [SuperclassMTime
    ResliceTransform ResliceAxes Interpolator].
  rewrite !fold_left_app.
  destruct tr as [[m mm | m] | ]; destruct ax as [a | ]; destruct ip as [i | ];
    cbn [transform_mtimes set_mtime fold_left TransformMTime];
    rewrite ?later_max; reflexivity.
Qed.

(** C8 (counterexample): with an information input newer than the filter
    and no other collaborator, [GetMTime] returns the filter's own time 1,
    while the maximum that includes the information input is 10. *)
Lemma GetMTime_ignores_information_input :
  GetMTime info_input_newer = 1%N /\ spec_effective_mtime info_input_newer = 10%N.
Proof. split; reflexivity. Qed.

End MTime.

(** ** RequestData: the guard on thread splitting *)

Module Split.

(** [vtkThreadedImageAlgorithm::SplitMode] *)
Inductive SplitModeType := SLAB | BEAM | BLOCK.

Definition SplitModeType_eqb (a b : SplitModeType) : bool :=
  match a, b with
  | SLAB, SLAB | BEAM, BEAM | BLOCK, BLOCK => true
  | _, _ => false
  end.

(** The members [RequestData] reads and writes. *)
Record vtkImageReslice := {
  GenerateStencilOutput : bool;
  SplitPathLength : Z;
  SplitMode : SplitModeType
}.

(** What [RequestData] does, in program order.  The superclass call is
    the point where the worker threads are spawned; the event records the
    split path length the threads are spawned with. *)
Inductive Event :=
| Warning (msg : string)
| InterpolatorInitialize
| SuperclassRequestData (splitPathLength : Z)
| InterpolatorReleaseData.

Definition x_split_warning : string :=
  "RequestData: SetSplitModeToBlock() is incompatible with GenerateStencilOutputOn().  Denying any splits along x-axis in order to avoid corrupt stencil!".

(** A computation over the filter state that logs events. *)
Definition Cmd (A : Type) : Type := vtkImageReslice -> A * vtkImageReslice * list Event.

#[local] Instance Cmd_ret : MRet Cmd := fun A a s => (a, s, []).

#[local] Instance Cmd_bind : MBind Cmd := fun A B k c s =>
  let '(a, s1, l1) := c s in
  let '(b, s2, l2) := k a s1 in
  (b, s2, l1 ++ l2).

Definition get : Cmd vtkImageReslice := fun s => (s, s, []).
Definition emit (e : Event) : Cmd unit := fun s => (tt, s, [e]).
Definition when (b : bool) (c : Cmd unit) : Cmd unit := if b then c else mret tt.

Definition SetSplitPathLength (n : Z) : Cmd unit :=
  fun s =>
    (tt,
     {| GenerateStencilOutput := GenerateStencilOutput s;
        SplitPathLength := n;
        SplitMode := SplitMode s |},
     []).

Definition RequestData : Cmd Z :=
  self ← get;
  when (GenerateStencilOutput self && (SplitPathLength self =? 3))
    (when (SplitModeType_eqb (SplitMode self) BLOCK) (emit (Warning x_split_warning));;
     SetSplitPathLength 2);;
  emit InterpolatorInitialize;;
  self ← get;
  emit (SuperclassRequestData (SplitPathLength self));;
  emit InterpolatorReleaseData;;
  mret 1.

(** The events logged before the threads are spawned. *)
Fixpoint before_spawn (l : list Event) : list Event :=
  match l with
  | [] => []
  | SuperclassRequestData _ :: _ => []
  | e :: l' => e :: before_spawn l'
  end.

(** The split path lengths the threads were spawned with. *)
Fixpoint spawned_with (l : list Event) : list Z :=
  match l with
  | [] => []
  | SuperclassRequestData n :: l' => n :: spawned_with l'
  | _ :: l' => spawned_with l'
  end.

Definition stencil_block_filter : vtkImageReslice :=
  {| GenerateStencilOutput := true; SplitPathLength := 3; SplitMode := BLOCK |}.

(** C9: when the stencil output is generated and the split path length is
    3 on entry, the threads are spawned with split path length 2 (so only
    the two outer axes of the split path remain), the member keeps that
    value, and under block splitting the warning is logged before the
    threads are spawned. *)
Theorem RequestData_denies_x_split (self : vtkImageReslice) :
  GenerateStencilOutput self = true ->
  SplitPathLength self = 3 ->
  let '(_, self', log) := RequestData self in
  SplitPathLength self' = 2 /\
  spawned_with log = [2] /\
  (SplitMode self = BLOCK -> In (Warning x_split_warning) (before_spawn log)).
Proof.
  intros Hgen Hlen.
  destruct self as [g n m]; cbn in Hgen, Hlen; subst g n.
  destruct m; cbn; repeat split; intros Hm; try discriminate Hm.
  left; reflexivity.
Qed.

(** The theorem at a filter that generates the stencil under block
    splitting. *)
Lemma RequestData_denies_x_split_witness :
  let '(_, self', log) := RequestData stencil_block_filter in
  SplitPathLength self' = 2 /\
  spawned_with log = [2] /\
  (SplitMode stencil_block_filter = BLOCK -> In (Warning x_split_warning) (before_spawn log)).
Proof.
  apply (RequestData_denies_x_split stencil_block_filter); reflexivity.
Defined.

End Split.

(** ** Numeric helpers shared by the passes *)

Module Numeric.

(** [double] comparisons against a constant. *)
Definition Qnonzero (x : Q) : bool := negb (Qeq_bool x 0).
Definition Qltb (x y : Q) : bool := negb (Qle_bool y x).
Definition Qgtb (x y : Q) : bool := Qltb y x.

(** Modelled from the spec: the rounding helpers [vtkInterpolationMath::Floor]
    and [vtkInterpolationMath::Round] live in a header outside the sources at
    hand; the specification names them [floor_with_fraction] and a
    round-to-nearest.  [Floor_with_fraction] returns the integer floor and the
    fractional part, [Round_half_up] the floor of [x + 1/2].  The general
    theorems below take the helpers as parameters; these two instances are
    used to evaluate the code on concrete inputs, which are chosen away from
    ties. *)
Definition Floor_with_fraction (x : Q) : Z * Q :=
  (Qfloor x, (x - inject_Z (Qfloor x))%Q).

Definition Round_half_up (x : Q) : Z := Qfloor (x + (1 # 2))%Q.

(** [vtkMatrix4x4] as its rows; [GetElement(i, j)] is row [i], column [j]. *)
Definition vtkMatrix4x4 := list (list Q).

Definition GetElement (matrix : vtkMatrix4x4) (i j : nat) : Q :=
  nth j (nth i matrix []) 0%Q.

Definition VTK_INT_MAX : Z := 2147483647.
Definition VTK_INT_MIN : Z := -2147483648.

End Numeric.

(** ** Selection of the permute fast path *)

Module Permute.
Import Numeric.

(** [vtkIsPermutationMatrix]: the bottom row is inspected first, then each
    column [j] counts its non-zero entries over the rows [i]. *)
Definition column_count (matrix : vtkMatrix4x4) (j : nat) : Z :=
  fold_left (fun k i => if Qnonzero (GetElement matrix i j) then k + 1 else k)
    [0; 1; 2]%nat 0.

Definition vtkIsPermutationMatrix (matrix : vtkMatrix4x4) : bool :=
  if existsb (fun i => Qnonzero (GetElement matrix 3 i)) [0; 1; 2]%nat then false
  else if negb (Qeq_bool (GetElement matrix 3 3) 1) then false
  else if existsb (fun j => negb (column_count matrix j =? 1)) [0; 1; 2]%nat then false
  else true.

(** The outcome of a function that may run into [assert(0)]. *)
Inductive Outcome :=
| Returned (r : bool)
| AssertionFailed.

(** [vtkCanUseNearestNeighbor]: for each row [i] the first column [j] with a
    non-zero entry is looked up; a row without one hits [assert(0)]. *)
Definition first_nonzero_column (matrix : vtkMatrix4x4) (i : nat) : nat :=
  if Qnonzero (GetElement matrix i 0) then 0
  else if Qnonzero (GetElement matrix i 1) then 1
  else if Qnonzero (GetElement matrix i 2) then 2
  else 3.

Definition nearest_row_ok (Floor : Q -> Z * Q) (matrix : vtkMatrix4x4)
    (outExt : list Z) (i j : nat) : bool :=
  let x := GetElement matrix i j in
  let y := GetElement matrix i 3 in
  let '(x, y) :=
    if (outExt !!! (2 * j)%nat =? outExt !!! (2 * j + 1)%nat)%Z
    then (0%Q, (y + x * inject_Z (outExt !!! (2 * i)%nat))%Q)
    else (x, y) in
  let fx := snd (Floor x) in
  let fy := snd (Floor y) in
  negb (Qnonzero fx || Qnonzero fy).

Fixpoint nearest_rows (Floor : Q -> Z * Q) (matrix : vtkMatrix4x4)
    (outExt : list Z) (rows : list nat) : Outcome :=
  match rows with
  | [] => Returned true
  | i :: rest =>
      let j := first_nonzero_column matrix i in
      if (3 <=? j)%nat then AssertionFailed
      else if nearest_row_ok Floor matrix outExt i j
           then nearest_rows Floor matrix outExt rest
           else Returned false
  end.

Definition vtkCanUseNearestNeighbor (Floor : Q -> Z * Q) (matrix : vtkMatrix4x4)
    (outExt : list Z) : Outcome :=
  nearest_rows Floor matrix outExt [0; 1; 2]%nat.

(** The part of [RequestInformationBase] that sets [UsePermuteExecute].
    [OptimizedTransform] is [None] when the whole transform was folded into
    the index matrix. *)
Record Settings := {
  Optimization : bool;
  OptimizedTransform : option unit;
  SlabSliceSpacingFraction : Q;
  IsSeparable : bool;
  IndexMatrix : vtkMatrix4x4
}.

Definition UsePermuteExecute (self : Settings) : bool :=
  if Optimization self then
    if match OptimizedTransform self with None => true | Some _ => false end
       && Qeq_bool (SlabSliceSpacingFraction self) 1
       && IsSeparable self
       && vtkIsPermutationMatrix (IndexMatrix self)
    then true else false
  else false.

(** The classification as the specification words it: bottom row
    [(0,0,0,1)], and in the upper-left 3x3 exactly one non-zero entry in
    every row and in every column. *)
Definition row_count (matrix : vtkMatrix4x4) (i : nat) : Z :=
  fold_left (fun k j => if Qnonzero (GetElement matrix i j) then k + 1 else k)
    [0; 1; 2]%nat 0.

Definition spec_permutation_scale_translation (matrix : vtkMatrix4x4) : bool :=
  forallb (fun i => negb (Qnonzero (GetElement matrix 3 i))) [0; 1; 2]%nat
  && Qeq_bool (GetElement matrix 3 3) 1
  && forallb (fun i => row_count matrix i =? 1) [0; 1; 2]%nat
  && forallb (fun j => column_count matrix j =? 1) [0; 1; 2]%nat.

Definition spec_UsePermuteExecute (self : Settings) : bool :=
  Optimization self
  && match OptimizedTransform self with None => true | Some _ => false end
  && Qeq_bool (SlabSliceSpacingFraction self) 1
  && IsSeparable self
  && spec_permutation_scale_translation (IndexMatrix self).

(** An index matrix whose three non-zero entries share the first row: every
    column holds exactly one of them, rows 1 and 2 hold none. *)
Definition one_row_matrix : vtkMatrix4x4 :=
  [ [1; 1; 1; 0];
    [0; 0; 0; 0];
    [0; 0; 0; 0];
    [0; 0; 0; 1] ]%Q.

Definition one_row_settings : Settings :=
  {| Optimization := true;
     OptimizedTransform := None;
     SlabSliceSpacingFraction := 1;
     IsSeparable := true;
     IndexMatrix := one_row_matrix |}.

(** What [vtkIsPermutationMatrix] checks: the bottom row and the columns. *)
Lemma vtkIsPermutationMatrix_columns (matrix : vtkMatrix4x4) :
  vtkIsPermutationMatrix matrix =
  forallb (fun i => negb (Qnonzero (GetElement matrix 3 i))) [0; 1; 2]%nat
  && Qeq_bool (GetElement matrix 3 3) 1
  && forallb (fun j => column_count matrix j =? 1) [0; 1; 2]%nat.
Proof.
  unfold vtkIsPermutationMatrix; cbn [existsb forallb].
  destruct (Qnonzero (GetElement matrix 3 0)); [reflexivity |].
  destruct (Qnonzero (GetElement matrix 3 1)); [reflexivity |].
  destruct (Qnonzero (GetElement matrix 3 2)); [reflexivity |].
  cbn [orb negb andb].
  destruct (Qeq_bool (GetElement matrix 3 3) 1); [| reflexivity].
  cbn [negb andb].
  destruct (column_count matrix 0 =? 1); [| reflexivity].
  destruct (column_count matrix 1 =? 1); [| reflexivity].
  destruct (column_count matrix 2 =? 1); reflexivity.
Qed.

(** C4 (the code at the failing input): for the matrix whose non-zero
    entries all sit in row 0, [vtkIsPermutationMatrix] answers 1 and the fast
    path is selected, although rows 1 and 2 hold no non-zero entry, so the
    matrix is not permutation+scale+translation; the nearest-neighbour check
    that runs next reaches its [assert(0)] on the empty row. *)
Lemma UsePermuteExecute_accepts_one_row_matrix :
  vtkIsPermutationMatrix one_row_matrix = true /\
  UsePermuteExecute one_row_settings = true /\
  map (row_count one_row_matrix) [0; 1; 2]%nat = [3; 0; 0] /\
  spec_permutation_scale_translation one_row_matrix = false /\
  spec_UsePermuteExecute one_row_settings = false /\
  vtkCanUseNearestNeighbor Floor_with_fraction one_row_matrix [0; 3; 0; 3; 0; 3]
    = AssertionFailed.
Proof. repeat split; vm_compute; reflexivity. Qed.

End Permute.

(** ** The update-extent pre-pass *)

Module UpdateExtent.
Import Numeric.

Section Prepass.

(** [vtkInterpolationMath::Round] and [vtkInterpolationMath::Floor]. *)
Variable Round : Q -> Z.
Variable Floor : Q -> Z * Q.

(** The output index of corner [jj] of the request extent. *)
Definition corner_index (outExt : list Z) (jj : nat) : Z * Z * Z :=
  (outExt !!! (jj mod 2)%nat,
   outExt !!! (2 + (jj / 2) mod 2)%nat,
   outExt !!! (4 + (jj / 4) mod 2)%nat).

(** The corner mapped through the index matrix, with the incremental sums
    of the source and the perspective divide. *)
Definition corner_point (matrix : vtkMatrix4x4) (outExt : list Z) (jj : nat) : list Q :=
  let '(idX, idY, idZ) := corner_index outExt jj in
  let xAxis i := GetElement matrix i 0 in
  let yAxis i := GetElement matrix i 1 in
  let zAxis i := GetElement matrix i 2 in
  let origin i := GetElement matrix i 3 in
  let inPoint0 i := (origin i + inject_Z idZ * zAxis i)%Q in
  let inPoint1 i := (inPoint0 i + inject_Z idY * yAxis i)%Q in
  let point i := (inPoint1 i + inject_Z idX * xAxis i)%Q in
  if negb (Qeq_bool (point 3%nat) 1) then
    let f := (1 / point 3%nat)%Q in
    [(point 0%nat * f)%Q; (point 1%nat * f)%Q; (point 2%nat * f)%Q; point 3%nat]
  else
    [point 0%nat; point 1%nat; point 2%nat; point 3%nat].

(** The body of the loop over the axes [j]: one corner coordinate widens
    the interval [inExt[2j], inExt[2j+1]].  The sums and differences of the
    source are those of [int]; they are written here without a wrap-around,
    which is what the source computes as long as no value leaves the range
    of [int].  The statements about every index matrix carry that as a
    hypothesis ([ExtentFacts.no_overflow]). *)
Definition widen_axis (kernelSize : Z) (pj : Q) (j : nat) (inExt : list Z) : list Z :=
  let extra := Z.quot (kernelSize + 1) 2 - 1 in
  if Z.land kernelSize 1 =? 0 then
    let '(k, f) := Floor pj in
    let inExt :=
      if k - extra <? inExt !!! (2 * j)%nat
      then <[(2 * j)%nat := k - extra]> inExt else inExt in
    let k := k + (if Qnonzero f then 1 else 0) in
    if inExt !!! (2 * j + 1)%nat <? k + extra
    then <[(2 * j + 1)%nat := k + extra]> inExt else inExt
  else
    let k := Round pj in
    let inExt :=
      if k <? inExt !!! (2 * j)%nat
      then <[(2 * j)%nat := k - extra]> inExt else inExt in
    if inExt !!! (2 * j + 1)%nat <? k
    then <[(2 * j + 1)%nat := k + extra]> inExt else inExt.

Definition widen_corner (matrix : vtkMatrix4x4) (supportSize : list Z)
    (outExt : list Z) (inExt : list Z) (jj : nat) : list Z :=
  let point := corner_point matrix outExt jj in
  fold_left
    (fun inExt j => widen_axis (supportSize !!! j) (nth j point 0%Q) j inExt)
    [0; 1; 2]%nat inExt.

(** The slab margin added to the request extent along Z. *)
Definition slab_extent (SlabNumberOfSlices : Z) (outExt : list Z) : list Z :=
  if 1 <? SlabNumberOfSlices then
    let outExt :=
      <[4%nat := outExt !!! 4%nat - Z.quot (SlabNumberOfSlices + 1) 2]> outExt in
    <[5%nat := outExt !!! 5%nat + Z.quot (SlabNumberOfSlices + 1) 2]> outExt
  else outExt.

(** The input extent after the loop over the eight corners, before it is
    clipped. *)
Definition corners_extent (matrix : vtkMatrix4x4) (supportSize : list Z)
    (SlabNumberOfSlices : Z) (outExt : list Z) : list Z :=
  let inExt :=
    [VTK_INT_MAX; VTK_INT_MIN; VTK_INT_MAX; VTK_INT_MIN; VTK_INT_MAX; VTK_INT_MIN] in
  let outExt := slab_extent SlabNumberOfSlices outExt in
  fold_left (widen_corner matrix supportSize outExt) (seq 0 8) inExt.

(** The body of the clipping loop for axis [k]; the state is the extent
    and [HitInputExtent]. *)
Definition clip_axis (wrap : bool) (wholeExtent : list Z)
    (st : list Z * bool) (k : nat) : list Z * bool :=
  let '(inExt, hit) := st in
  let '(inExt, hit) :=
    if inExt !!! (2 * k)%nat <? wholeExtent !!! (2 * k)%nat then
      let inExt := <[(2 * k)%nat := wholeExtent !!! (2 * k)%nat]> inExt in
      if wrap then
        (<[(2 * k + 1)%nat := wholeExtent !!! (2 * k + 1)%nat]> inExt, hit)
      else if inExt !!! (2 * k + 1)%nat <? wholeExtent !!! (2 * k)%nat then
        (<[(2 * k + 1)%nat := wholeExtent !!! (2 * k)%nat]> inExt, false)
      else (inExt, hit)
    else (inExt, hit) in
  if wholeExtent !!! (2 * k + 1)%nat <? inExt !!! (2 * k + 1)%nat then
    let inExt := <[(2 * k + 1)%nat := wholeExtent !!! (2 * k + 1)%nat]> inExt in
    if wrap then
      (<[(2 * k)%nat := wholeExtent !!! (2 * k)%nat]> inExt, hit)
    else if wholeExtent !!! (2 * k + 1)%nat <? inExt !!! (2 * k)%nat then
      let inExt := <[(2 * k)%nat := wholeExtent !!! (2 * k + 1)%nat]> inExt in
      let inExt :=
        if inExt !!! (2 * k)%nat <? wholeExtent !!! (2 * k)%nat
        then <[(2 * k)%nat := wholeExtent !!! (2 * k)%nat]> inExt else inExt in
      (inExt, false)
    else (inExt, hit)
  else (inExt, hit).

Definition clip_to_whole_extent (wrap : bool) (wholeExtent : list Z)
    (inExt : list Z) (hit : bool) : list Z * bool :=
  fold_left (clip_axis wrap wholeExtent) [0; 1; 2]%nat (inExt, hit).

(** The reslice transform as [RequestUpdateExtent] sees it. *)
Inductive TransformKind := Homogeneous | Nonlinear.

Record Request := {
  ResliceTransform : option TransformKind;
  Wrap : bool;
  Mirror : bool;
  SlabNumberOfSlices : Z;
  IndexMatrix : vtkMatrix4x4;
  supportSize : list Z;
  outUpdateExtent : list Z;
  inWholeExtent : list Z
}.

(** [RequestUpdateExtent]: the input update extent and [HitInputExtent]. *)
Definition RequestUpdateExtent (r : Request) : list Z * bool :=
  match ResliceTransform r with
  | Some Nonlinear => (inWholeExtent r, true)
  | _ =>
      let wrap := Wrap r || Mirror r in
      let inExt :=
        corners_extent (IndexMatrix r) (supportSize r) (SlabNumberOfSlices r)
          (outUpdateExtent r) in
      clip_to_whole_extent wrap (inWholeExtent r) inExt true
  end.

(** The interval the specification gives for an odd kernel size [k_j] at
    one corner, and the union of these over the eight corners. *)
Definition spec_odd_interval (kernelSize : Z) (pj : Q) : Z * Z :=
  (Round pj - (kernelSize - 1) / 2, Round pj + (kernelSize - 1) / 2).

Definition interval_union (a b : Z * Z) : Z * Z :=
  (Z.min (fst a) (fst b), Z.max (snd a) (snd b)).

Definition spec_odd_union (matrix : vtkMatrix4x4) (kernelSize : Z)
    (outExt : list Z) (j : nat) : Z * Z :=
  fold_left
    (fun acc jj =>
       interval_union acc
         (spec_odd_interval kernelSize (nth j (corner_point matrix outExt jj) 0%Q)))
    (seq 0 8) (VTK_INT_MAX, VTK_INT_MIN).

(** For kernel size 1 a corner coordinate widens its interval to include
    its rounded value: the lower bound becomes the minimum, the upper bound
    the maximum. *)
Lemma widen_axis_size_one (pj : Q) (a0 a1 a2 a3 a4 a5 : Z) :
  let k := Round pj in
  widen_axis 1 pj 0 [a0; a1; a2; a3; a4; a5]
    = [Z.min a0 k; Z.max a1 k; a2; a3; a4; a5] /\
  widen_axis 1 pj 1 [a0; a1; a2; a3; a4; a5]
    = [a0; a1; Z.min a2 k; Z.max a3 k; a4; a5] /\
  widen_axis 1 pj 2 [a0; a1; a2; a3; a4; a5]
    = [a0; a1; a2; a3; Z.min a4 k; Z.max a5 k].
Proof.
  intros k. unfold widen_axis. fold k. clearbody k.
  change (Z.land 1 1 =? 0) with false.
  change (Z.quot (1 + 1) 2 - 1) with 0.
  cbv iota. cbn.
  repeat split;
    repeat (match goal with
            | |- context [if ?a <? ?b then _ else _] => destruct (Z.ltb_spec a b)
            end; cbn in *);
    repeat (f_equal; try lia).
Qed.

Lemma widen_corner_size_one (matrix : vtkMatrix4x4) (outExt : list Z)
    (a0 a1 a2 a3 a4 a5 : Z) (jj : nat) :
  let k j := Round (nth j (corner_point matrix outExt jj) 0%Q) in
  widen_corner matrix [1; 1; 1] outExt [a0; a1; a2; a3; a4; a5] jj
  = [Z.min a0 (k 0%nat); Z.max a1 (k 0%nat); Z.min a2 (k 1%nat); Z.max a3 (k 1%nat);
     Z.min a4 (k 2%nat); Z.max a5 (k 2%nat)].
Proof.
  intros k. subst k. unfold widen_corner.
  generalize (corner_point matrix outExt jj); intros point.
  cbn [fold_left].
  change ([1; 1; 1] !!! 0%nat) with 1.
  change ([1; 1; 1] !!! 1%nat) with 1.
  change ([1; 1; 1] !!! 2%nat) with 1.
  destruct (widen_axis_size_one (nth 0 point 0%Q) a0 a1 a2 a3 a4 a5) as [E _].
  cbv zeta in E. rewrite E. clear E.
  match goal with
  | |- context [widen_axis 1 ?p 1 [?b0; ?b1; ?b2; ?b3; ?b4; ?b5]] =>
      destruct (widen_axis_size_one p b0 b1 b2 b3 b4 b5) as [_ [E _]]
  end.
  cbv zeta in E. rewrite E. clear E.
  match goal with
  | |- context [widen_axis 1 ?p 2 [?b0; ?b1; ?b2; ?b3; ?b4; ?b5]] =>
      destruct (widen_axis_size_one p b0 b1 b2 b3 b4 b5) as [_ [_ E]]
  end.
  cbv zeta in E. rewrite E. reflexivity.
Qed.

Lemma corners_fold_size_one (matrix : vtkMatrix4x4) (outExt : list Z) (corners : list nat) :
  forall a0 a1 a2 a3 a4 a5 : Z,
  let union j lo hi :=
    fold_left
      (fun acc jj =>
         interval_union acc
           (spec_odd_interval 1 (nth j (corner_point matrix outExt jj) 0%Q)))
      corners (lo, hi) in
  fold_left (widen_corner matrix [1; 1; 1] outExt) corners [a0; a1; a2; a3; a4; a5]
  = [fst (union 0%nat a0 a1); snd (union 0%nat a0 a1);
     fst (union 1%nat a2 a3); snd (union 1%nat a2 a3);
     fst (union 2%nat a4 a5); snd (union 2%nat a4 a5)].
Proof.
  induction corners as [| jj corners IH]; intros a0 a1 a2 a3 a4 a5; cbn zeta.
  - reflexivity.
  - cbn [fold_left]. rewrite widen_corner_size_one. cbv zeta. rewrite IH.
    unfold interval_union, spec_odd_interval. cbn [fst snd].
    change ((1 - 1) / 2) with 0. rewrite !Z.sub_0_r, !Z.add_0_r. reflexivity.
Qed.

(** X4: with kernel size 1 on every axis the pass does compute the union
    of the corner intervals. *)
Lemma corners_extent_size_one (matrix : vtkMatrix4x4) (SlabNumberOfSlices : Z)
    (outExt : list Z) :
  corners_extent matrix [1; 1; 1] SlabNumberOfSlices outExt
  = flat_map
      (fun j =>
         let '(lo, hi) :=
           spec_odd_union matrix 1 (slab_extent SlabNumberOfSlices outExt) j in
         [lo; hi])
      [0; 1; 2]%nat.
Proof.
  unfold corners_extent, spec_odd_union.
  rewrite corners_fold_size_one. cbn [flat_map app].
  repeat match goal with
         | |- context [let '(lo, hi) := ?p in _] => destruct p
         end.
  reflexivity.
Qed.

End Prepass.

Definition identity_matrix : vtkMatrix4x4 :=
  [ [1; 0; 0; 0];
    [0; 1; 0; 0];
    [0; 0; 1; 0];
    [0; 0; 0; 1] ]%Q.

(** C5 (the code at the failing input): identity index matrix, kernel
    support 3 on every axis, request extent [0,1] along X.  The corners map
    to x = 0 and x = 1; the union of [x-1, x+1] is [-1, 2], but the source
    compares the centre [k] (not [k + extra]) with the running upper bound,
    so the second corner does not raise it and the pass keeps [-1, 1]. *)
Lemma corners_extent_odd_kernel_misses_union :
  corners_extent Round_half_up Floor_with_fraction identity_matrix [3; 3; 3] 1
    [0; 1; 0; 0; 0; 0] = [-1; 1; -1; 1; -1; 1] /\
  spec_odd_union Round_half_up identity_matrix 3 [0; 1; 0; 0; 0; 0] 0 = (-1, 2).
Proof. split; vm_compute; reflexivity. Qed.

End UpdateExtent.

(** ** Conversion from the floating-point work type to the output type *)

Module Convert.
Import Numeric.

(** The scalar kinds of the data model. *)
Inductive ScalarType :=
| TypeInt8 | TypeUInt8 | TypeInt16 | TypeUInt16
| TypeInt32 | TypeUInt32 | TypeFloat32 | TypeFloat64.

Definition ScalarType_eqb (a b : ScalarType) : bool :=
  match a, b with
  | TypeInt8, TypeInt8 | TypeUInt8, TypeUInt8 | TypeInt16, TypeInt16
  | TypeUInt16, TypeUInt16 | TypeInt32, TypeInt32 | TypeUInt32, TypeUInt32
  | TypeFloat32, TypeFloat32 | TypeFloat64, TypeFloat64 => true
  | _, _ => false
  end.

(** [dataType == VTK_FLOAT || dataType == VTK_DOUBLE] *)
Definition is_floating (T : ScalarType) : bool :=
  match T with
  | TypeFloat32 | TypeFloat64 => true
  | _ => false
  end.

(** A stored scalar: an integer of an integer kind, a finite
    floating-point value, or an infinity of a floating-point kind. *)
Inductive Scalar :=
| IntVal (z : Z)
| FloatVal (q : Q)
| FloatInf (negative : bool).

(** Storing an [int] into an integer kind keeps the low bits. *)
Definition wrap_signed (bits : Z) (z : Z) : Z :=
  (z + 2 ^ (bits - 1)) mod 2 ^ bits - 2 ^ (bits - 1).

Definition wrap_unsigned (bits : Z) (z : Z) : Z := z mod 2 ^ bits.

Definition store_int (T : ScalarType) (z : Z) : Z :=
  match T with
  | TypeInt8 => wrap_signed 8 z
  | TypeUInt8 => wrap_unsigned 8 z
  | TypeInt16 => wrap_signed 16 z
  | TypeUInt16 => wrap_unsigned 16 z
  | TypeInt32 => wrap_signed 32 z
  | TypeUInt32 => wrap_unsigned 32 z
  | TypeFloat32 | TypeFloat64 => z
  end.

(** Storing a [double] into a [float]: the conversion of the language,
    as IEEE 754 arithmetic does it.  The value is rounded to the nearest
    number with a significand of 24 bits (of fewer bits below [2 ^ -126]),
    a tie to the one with an even significand, and a result of [2 ^ 128] or
    more is an infinity. *)
Definition pow2 (e : Z) : Q :=
  if 0 <=? e then inject_Z (2 ^ e) else (/ inject_Z (2 ^ (- e)))%Q.

(** The exponent [e] with [2 ^ e <= |x| < 2 ^ (e + 1)], for [x] not zero. *)
Definition binade (x : Q) : Z :=
  let e := Z.log2 (Z.abs (Qnum x)) - Z.log2 (Zpos (Qden x)) in
  if Qle_bool (pow2 e) (Qabs x) then e else e - 1.

Definition round_half_even (x : Q) : Z :=
  let f := Qfloor x in
  let r := (x - inject_Z f)%Q in
  if Qltb r (1 # 2) then f
  else if Qltb (1 # 2) r then f + 1
  else if Z.even f then f else f + 1.

Definition float32 (val : Q) : Scalar :=
  if Qeq_bool val 0 then FloatVal 0
  else
    let ulp := pow2 (Z.max (binade val) (-126) - 23) in
    let r := Qred (inject_Z (round_half_even (val / ulp)) * ulp) in
    if Qle_bool (pow2 128) (Qabs r) then FloatInf (Qltb val 0) else FloatVal r.

(** [rnd = val] and [clamp = val] for the two floating-point kinds: a
    [double] is stored as it is, a [float] takes the nearest [float]. *)
Definition store_float (T : ScalarType) (val : Q) : Scalar :=
  match T with
  | TypeFloat32 => float32 val
  | _ => FloatVal val
  end.

(** The static [minval] / [maxval] of the [vtkResliceClamp] overloads. *)
Definition clamp_limits (T : ScalarType) : option (Q * Q) :=
  match T with
  | TypeInt8 => Some (-128, 127)%Q
  | TypeUInt8 => Some (0, 255)%Q
  | TypeInt16 => Some (-32768, 32767)%Q
  | TypeUInt16 => Some (0, 65535)%Q
  | TypeInt32 => Some (-2147483648, 2147483647)%Q
  | TypeUInt32 => Some (0, 4294967295)%Q
  | TypeFloat32 | TypeFloat64 => None
  end.

(** [background[j] = 0] *)
Definition zero (T : ScalarType) : Scalar :=
  if is_floating T then FloatVal 0 else IntVal 0.

(** [vtkResliceClamp(x, xmin, xmax)] *)
Definition vtkResliceClamp3 (x xmin xmax : Q) : Q :=
  let x := if Qgtb x xmin then x else xmin in
  if Qltb x xmax then x else xmax.

(** [VTK_RESLICE_LINEAR] and the slab modes.  Modelled from the spec: the
    constants are declared in a header outside the sources at hand; the
    interpolation modes are ordered nearest < linear < cubic. *)
Definition VTK_RESLICE_NEAREST : Z := 0.
Definition VTK_RESLICE_LINEAR : Z := 1.
Definition VTK_RESLICE_CUBIC : Z := 3.

Inductive SlabMode :=
| VTK_IMAGE_SLAB_MIN | VTK_IMAGE_SLAB_MAX | VTK_IMAGE_SLAB_MEAN | VTK_IMAGE_SLAB_SUM.

Definition is_slab_sum (m : SlabMode) : bool :=
  match m with VTK_IMAGE_SLAB_SUM => true | _ => false end.

(** The conversion function [vtkGetConversionFunc] hands back. *)
Inductive ConversionFunc :=
| ConvertFunc (T : ScalarType)
| ClampFunc (T : ScalarType).


Lemma Qltb_lt (x y : Q) : Qltb x y = true <-> (x < y)%Q.
Proof.
  unfold Qltb. rewrite negb_true_iff.
  split; intros H.
  - apply Qnot_le_lt. intros Hle. apply Qle_bool_iff in Hle. congruence.
  - destruct (Qle_bool y x) eqn:E; [| reflexivity].
    apply Qle_bool_iff in E. exfalso. exact (Qlt_not_le _ _ H E).
Qed.

Lemma Qltb_ge (x y : Q) : Qltb x y = false <-> (y <= x)%Q.
Proof.
  unfold Qltb. rewrite negb_false_iff. apply Qle_bool_iff.
Qed.

Section WithHelpers.

Variable Round : Q -> Z.

(** [vtkDataArray::GetDataTypeMin] and [GetDataTypeMax]. *)
Variable GetDataTypeMin : ScalarType -> Q.
Variable GetDataTypeMax : ScalarType -> Q.

(** [vtkInterpolateRound(val, rnd)] *)
Definition vtkInterpolateRound (T : ScalarType) (val : Q) : Scalar :=
  if is_floating T then store_float T val else IntVal (store_int T (Round val)).

(** [vtkResliceClamp(val, clamp)] *)
Definition vtkResliceClamp (T : ScalarType) (val : Q) : Scalar :=
  match clamp_limits T with
  | Some (minval, maxval) => vtkInterpolateRound T (vtkResliceClamp3 val minval maxval)
  | None => store_float T val
  end.

(** [vtkImageResliceConversion<F, T>::Convert] and [::Clamp]: the
    [n * numscalars] leading values of [inPtr], converted one by one and
    appended at [outPtr]. *)
Definition Convert (T : ScalarType) (inPtr : list Q) (numscalars n : Z) : list Scalar :=
  if 0 <? n then map (vtkInterpolateRound T) (take (Z.to_nat (n * numscalars)) inPtr)
  else [].

Definition Clamp (T : ScalarType) (inPtr : list Q) (numscalars n : Z) : list Scalar :=
  map (vtkResliceClamp T) (take (Z.to_nat (n * numscalars)) inPtr).

Definition apply_conversion (c : ConversionFunc) (inPtr : list Q) (numscalars n : Z)
    : list Scalar :=
  match c with
  | ConvertFunc T => Convert T inPtr numscalars n
  | ClampFunc T => Clamp T inPtr numscalars n
  end.

(** [vtkGetConversionFunc] *)
Definition vtkGetConversionFunc (inputType dataType : ScalarType)
    (scalarShift scalarScale : Q) (forceClamping : bool) : ConversionFunc :=
  let forceClamping :=
    if negb (is_floating dataType) && negb forceClamping then
      let shift := scalarShift in
      let scale := scalarScale in
      let checkMin := ((GetDataTypeMin inputType + shift) * scale)%Q in
      let checkMax := ((GetDataTypeMax inputType + shift) * scale)%Q in
      let outputMin := GetDataTypeMin dataType in
      let outputMax := GetDataTypeMax dataType in
      let '(checkMin, checkMax) :=
        if Qgtb checkMin checkMax then (checkMax, checkMin) else (checkMin, checkMax) in
      Qltb checkMin outputMin || Qgtb checkMax outputMax
    else forceClamping in
  if forceClamping && negb (is_floating dataType)
  then ClampFunc dataType
  else ConvertFunc dataType.

(** [forceClamping] as both execute functions compute it before the call. *)
Definition forceClamping (interpolationMode nsamples : Z) (slabMode : SlabMode) : bool :=
  (VTK_RESLICE_LINEAR <? interpolationMode)
  || ((1 <? nsamples) && is_slab_sum slabMode).

(** The shifted and scaled range of the input type fits the output type:
    both of its end points lie within the output type's limits. *)
Definition range_fits (inputType dataType : ScalarType) (scalarShift scalarScale : Q) : Prop :=
  let a := ((GetDataTypeMin inputType + scalarShift) * scalarScale)%Q in
  let b := ((GetDataTypeMax inputType + scalarShift) * scalarScale)%Q in
  (GetDataTypeMin dataType <= a /\ a <= GetDataTypeMax dataType)%Q /\
  (GetDataTypeMin dataType <= b /\ b <= GetDataTypeMax dataType)%Q.

(** [vtkCopyBackgroundColor]: the two loops over the components write into
    the freshly allocated pixel [background]. *)
Definition vtkCopyBackgroundColor (T : ScalarType) (dcolor : list Q)
    (background : list Scalar) (numComponents : Z) : list Scalar :=
  let c := if numComponents <? 4 then numComponents else 4 in
  let background :=
    fold_left (fun bg i => <[i := vtkResliceClamp T (nth i dcolor 0%Q)]> bg)
      (seq 0 (Z.to_nat c)) background in
  fold_left (fun bg j => <[j := zero T]> bg)
    (seq (Z.to_nat c) (Z.to_nat numComponents - Z.to_nat c)) background.

(** [vtkAllocBackgroundPixel]: [fresh] is the content of the new
    allocation, of which the first [numComponents] scalars are the pixel. *)
Definition vtkAllocBackgroundPixel (fresh : list Scalar) (dcolor : list Q)
    (scalarType : ScalarType) (numComponents : Z) : list Scalar :=
  vtkCopyBackgroundColor scalarType dcolor fresh numComponents.

(** C6: the conversion handed back clamps exactly when the output type is
    not floating point and the interpolation mode is above linear, or more
    than one slab sample is summed, or the shifted and scaled input range
    does not fit the output type; otherwise it is the unclamped rounding
    conversion. *)
Theorem clamp_selected_iff (inputType dataType : ScalarType)
    (scalarShift scalarScale : Q) (interpolationMode nsamples : Z) (slabMode : SlabMode) :
  let conversion :=
    vtkGetConversionFunc inputType dataType scalarShift scalarScale
      (forceClamping interpolationMode nsamples slabMode) in
  (conversion = ClampFunc dataType <->
     is_floating dataType = false /\
     (VTK_RESLICE_LINEAR < interpolationMode \/
      (1 < nsamples /\ slabMode = VTK_IMAGE_SLAB_SUM) \/
      ~ range_fits inputType dataType scalarShift scalarScale)) /\
  (conversion = ClampFunc dataType \/ conversion = ConvertFunc dataType).
Proof.
  cbv zeta.
  assert (Hforce : forceClamping interpolationMode nsamples slabMode = true <->
            (VTK_RESLICE_LINEAR < interpolationMode \/
             (1 < nsamples /\ slabMode = VTK_IMAGE_SLAB_SUM))).
  { unfold forceClamping. rewrite orb_true_iff, andb_true_iff, !Z.ltb_lt.
    assert (Hs : is_slab_sum slabMode = true <-> slabMode = VTK_IMAGE_SLAB_SUM)
      by (destruct slabMode; cbn; split; congruence).
    rewrite Hs. reflexivity. }
  unfold vtkGetConversionFunc, range_fits.
  set (a := ((GetDataTypeMin inputType + scalarShift) * scalarScale)%Q).
  set (b := ((GetDataTypeMax inputType + scalarShift) * scalarScale)%Q).
  set (lo := GetDataTypeMin dataType).
  set (hi := GetDataTypeMax dataType).
  destruct (is_floating dataType) eqn:Hfl; cbn [negb andb].
  - rewrite andb_false_r. split; [| right; reflexivity].
    split; [discriminate | intros [Hc _]; discriminate].
  - destruct (forceClamping interpolationMode nsamples slabMode) eqn:Hfc; cbn [negb andb].
    + split; [| left; reflexivity].
      split; [intros _ | reflexivity].
      split; [reflexivity |].
      destruct (proj1 Hforce eq_refl) as [H | H]; [left | right; left]; exact H.
    + assert (Hno : ~ (VTK_RESLICE_LINEAR < interpolationMode \/
                       (1 < nsamples /\ slabMode = VTK_IMAGE_SLAB_SUM)))
        by (intros H; apply Hforce in H; discriminate).
      unfold Qgtb.
      destruct (Qltb b a) eqn:Hswap;
        [apply Qltb_lt in Hswap | apply Qltb_ge in Hswap];
        (destruct (Qltb _ lo) eqn:H1; [apply Qltb_lt in H1 | apply Qltb_ge in H1]);
        (destruct (Qltb hi _) eqn:H2; [apply Qltb_lt in H2 | apply Qltb_ge in H2]);
        cbn [orb andb];
        (split; [| first [left; reflexivity | right; reflexivity]]);
        (split;
          [ first [ discriminate
                  | intros _; split; [reflexivity |]; right; right;
                    intros [[? ?] [? ?]]; lra ]
          | first [ reflexivity
                  | intros [_ [H | [H | H]]];
                    [ exfalso; apply Hno; left; exact H
                    | exfalso; apply Hno; right; exact H
                    | exfalso; apply H; repeat split; lra ] ] ]).
Qed.

(** The component the code stores for a value: clamped to the static
    limits of an integer type and rounded, or stored into a floating-point
    type. *)
Definition clamped_and_rounded (T : ScalarType) (val : Q) : Scalar :=
  match clamp_limits T with
  | Some (minval, maxval) => IntVal (Round (vtkResliceClamp3 val minval maxval))
  | None => store_float T val
  end.

(** The range of an output type as the data model has it: an integer of
    [type_bits] binary digits, in two's complement when signed; for a
    floating-point type, from the negative of its largest finite value to
    that value. *)
Definition type_bits (T : ScalarType) : Z :=
  match T with
  | TypeInt8 | TypeUInt8 => 8
  | TypeInt16 | TypeUInt16 => 16
  | TypeInt32 | TypeUInt32 | TypeFloat32 => 32
  | TypeFloat64 => 64
  end.

Definition is_signed (T : ScalarType) : bool :=
  match T with
  | TypeUInt8 | TypeUInt16 | TypeUInt32 => false
  | _ => true
  end.

Definition float32_max : Q := inject_Z ((2 ^ 24 - 1) * 2 ^ 104).
Definition float64_max : Q := inject_Z ((2 ^ 53 - 1) * 2 ^ 971).

Definition type_range (T : ScalarType) : Q * Q :=
  match T with
  | TypeFloat32 => ((- float32_max)%Q, float32_max)
  | TypeFloat64 => ((- float64_max)%Q, float64_max)
  | _ =>
      if is_signed T
      then (inject_Z (- 2 ^ (type_bits T - 1)), inject_Z (2 ^ (type_bits T - 1) - 1))
      else (0%Q, inject_Z (2 ^ type_bits T - 1))
  end.

(** A value clamped to a range: the lower end when it is at or below it,
    the upper end when it is at or above it, and the value otherwise. *)
Definition clamp_to (range : Q * Q) (v : Q) : Q :=
  let '(lo, hi) := range in
  if Qle_bool v lo then lo else if Qle_bool hi v then hi else v.

(** A value rounded to an output type: to an integer for an integer type,
    to the nearest value of a floating-point type. *)
Definition rounded_to (T : ScalarType) (v : Q) : Scalar :=
  if is_floating T then store_float T v else IntVal (Round v).

(** The component as the specification words it: for every output type,
    the colour clamped to the range of the type and rounded to the type. *)
Definition spec_component (T : ScalarType) (v : Q) : Scalar :=
  rounded_to T (clamp_to (type_range T) v).

(** The component with the clamp left to the integer types. *)
Definition stored_component (T : ScalarType) (v : Q) : Scalar :=
  if is_floating T then rounded_to T v else spec_component T v.

Lemma vtkResliceClamp3_between (x xmin xmax : Q) :
  (xmin <= xmax)%Q ->
  (xmin <= vtkResliceClamp3 x xmin xmax <= xmax)%Q.
Proof.
  intros Hle. unfold vtkResliceClamp3, Qgtb.
  destruct (Qltb xmin x) eqn:H1; [apply Qltb_lt in H1 | apply Qltb_ge in H1];
    (destruct (Qltb _ xmax) eqn:H2; [apply Qltb_lt in H2 | apply Qltb_ge in H2]);
    split; lra.
Qed.



(** Within the range of the type the clamp changes nothing, and the
    component is the one the specification words. *)
Lemma spec_component_within_range (T : ScalarType) (v : Q) :
  (fst (type_range T) < v < snd (type_range T))%Q ->
  spec_component T v = stored_component T v.
Proof.
  intros [Hlo Hhi]. unfold stored_component, spec_component, clamp_to.
  destruct (is_floating T); [| reflexivity].
  destruct (type_range T) as [lo hi]. cbn [fst snd] in Hlo, Hhi.
  destruct (Qle_bool v lo) eqn:H1; [apply Qle_bool_iff in H1; lra |].
  destruct (Qle_bool hi v) eqn:H2; [apply Qle_bool_iff in H2; lra |].
  reflexivity.
Qed.

Section NoWrap.

(** Rounding a value that lies between two integers stays between them. *)
Hypothesis Round_between :
  forall (lo hi : Z) (x : Q), (inject_Z lo <= x <= inject_Z hi)%Q -> lo <= Round x <= hi.

(** The clamped value fits the output type, so storing it keeps it. *)
Lemma vtkResliceClamp_no_wrap (T : ScalarType) (val : Q) :
  vtkResliceClamp T val = clamped_and_rounded T val.
Proof.
  unfold vtkResliceClamp, clamped_and_rounded, vtkInterpolateRound.
  destruct T; cbn [clamp_limits is_floating]; try reflexivity; f_equal;
    match goal with
    | |- store_int _ (Round (vtkResliceClamp3 _ ?lo ?hi)) = _ =>
        pose proof (vtkResliceClamp3_between val lo hi ltac:(discriminate)) as Hc
    end;
    match type of Hc with
    | (?lo <= _ <= ?hi)%Q =>
        apply (Round_between (Qnum lo) (Qnum hi)) in Hc
    end;
    cbn [Qnum] in Hc; cbn [store_int]; unfold wrap_signed, wrap_unsigned;
    rewrite Z.mod_small by lia; lia.
Qed.



End NoWrap.

End WithHelpers.

Lemma Round_half_up_between (lo hi : Z) (x : Q) :
  (inject_Z lo <= x <= inject_Z hi)%Q -> lo <= Round_half_up x <= hi.
Proof.
  intros [Hlo Hhi]. unfold Round_half_up. split.
  - rewrite <- (Qfloor_Z lo). apply Qfloor_resp_le. lra.
  - assert (H : (inject_Z (Qfloor (x + (1 # 2))) < inject_Z (hi + 1))%Q).
    { apply Qle_lt_trans with (x + (1 # 2))%Q; [apply Qfloor_le |].
      rewrite inject_Z_plus. change (inject_Z 1) with 1%Q. lra. }
    rewrite <- Zlt_Qlt in H. lia.
Qed.


(** The pixel of the witness, evaluated: 42 is kept, 300 saturates at 255,
    -7 at 0, 3/4 rounds to 1, and components 5 and 6 are zero. *)
Example background_pixel_uint8 :
  vtkAllocBackgroundPixel Round_half_up
    [IntVal 91; IntVal 92; IntVal 93; IntVal 94; IntVal 95; IntVal 96]
    [42; 300; -7; 3 # 4]%Q TypeUInt8 6
  = [IntVal 42; IntVal 255; IntVal 0; IntVal 1; IntVal 0; IntVal 0].
Proof. vm_compute. reflexivity. Qed.


(** A [float] pixel of five components, evaluated: a third takes the
    nearest [float], the colours beyond the largest [float] become
    infinities, a quarter is kept, and component 5 is zero. *)
Example background_pixel_float32 :
  vtkAllocBackgroundPixel Round_half_up
    [IntVal 91; IntVal 92; IntVal 93; IntVal 94; IntVal 95]
    [1 # 3; inject_Z (10 ^ 39); (- inject_Z (10 ^ 39))%Q; 1 # 4]%Q TypeFloat32 5
  = [FloatVal (11184811 # 33554432); FloatInf false; FloatInf true; FloatVal (1 # 4);
     FloatVal 0].
Proof. vm_compute. reflexivity. Qed.

End Convert.

(** ** Slab compositors of the general path *)

Module Slab.
Import Numeric Convert.

(** The slab buffer holds the [n] samples of a voxel one after the other,
    [numscalars] components each; [p] is the position of [inPtr]. *)

(** [do { inPtr += numscalars; result = op(result, *inPtr); } while (--k)],
    entered with [k = S more]. *)
Fixpoint accumulate (op : Q -> Q -> Q) (inPtr : list Q) (numscalars : nat)
    (p : nat) (result : Q) (more : nat) : nat * Q :=
  let p := (p + numscalars)%nat in
  let result := op result (nth p inPtr 0%Q) in
  match more with
  | O => (p, result)
  | S more' => accumulate op inPtr numscalars p result more'
  end.

(** The outer [do ... while (--m)] of [vtkImageResliceSlabSum], entered
    with [m = S more]; [n] is the sample count already decremented. *)
Fixpoint slab_sum_loop (inPtr : list Q) (numscalars n : nat) (f : Q)
    (p : nat) (more : nat) : list Q :=
  let result := nth p inPtr 0%Q in
  let '(p1, result) := accumulate Qplus inPtr numscalars p result (n - 1) in
  let p2 := (p1 - n * numscalars)%nat in
  let inPtr := <[p2 := (result * f)%Q]> inPtr in
  let p3 := S p2 in
  match more with
  | O => inPtr
  | S more' => slab_sum_loop inPtr numscalars n f p3 more'
  end.

Definition vtkImageResliceSlabSum (inPtr : list Q) (numscalars n : Z) (f : Q) : list Q :=
  let m := numscalars in
  let n := n - 1 in
  slab_sum_loop inPtr (Z.to_nat numscalars) (Z.to_nat n) f 0 (Z.to_nat m - 1).

(** [for (k = n - 1; k != 0; --k) { inPtr += numscalars; result += *inPtr; }] *)
Fixpoint trap_middle (inPtr : list Q) (numscalars : nat) (p : nat) (result : Q)
    (k : nat) : nat * Q :=
  match k with
  | O => (p, result)
  | S k' =>
      let p := (p + numscalars)%nat in
      trap_middle inPtr numscalars p (result + nth p inPtr 0)%Q k'
  end.

Fixpoint slab_trap_loop (inPtr : list Q) (numscalars n : nat) (f : Q)
    (p : nat) (more : nat) : list Q :=
  let result := (nth p inPtr 0 * (1 # 2))%Q in
  let '(p1, result) := trap_middle inPtr numscalars p result (n - 1) in
  let p1 := (p1 + numscalars)%nat in
  let result := (result + nth p1 inPtr 0 * (1 # 2))%Q in
  let p2 := (p1 - n * numscalars)%nat in
  let inPtr := <[p2 := (result * f)%Q]> inPtr in
  let p3 := S p2 in
  match more with
  | O => inPtr
  | S more' => slab_trap_loop inPtr numscalars n f p3 more'
  end.

Definition vtkImageResliceSlabTrap (inPtr : list Q) (numscalars n : Z) (f : Q) : list Q :=
  slab_trap_loop inPtr (Z.to_nat numscalars) (Z.to_nat (n - 1)) f 0
    (Z.to_nat numscalars - 1).

(** The outer loop of [MinValue] and [MaxValue]. *)
Fixpoint slab_select_loop (op : Q -> Q -> Q) (inPtr : list Q) (numscalars n : nat)
    (p : nat) (more : nat) : list Q :=
  let result := nth p inPtr 0%Q in
  let '(p1, result) := accumulate op inPtr numscalars p result (n - 1) in
  let p2 := (p1 - n * numscalars)%nat in
  let inPtr := <[p2 := result]> inPtr in
  let p3 := S p2 in
  match more with
  | O => inPtr
  | S more' => slab_select_loop op inPtr numscalars n p3 more'
  end.

Definition smaller (result x : Q) : Q := if Qltb result x then result else x.
Definition larger (result x : Q) : Q := if Qgtb result x then result else x.

(** [vtkImageResliceComposite<F>] *)
Definition MeanValue (inPtr : list Q) (numscalars n : Z) : list Q :=
  let f := (1 / inject_Z n)%Q in
  vtkImageResliceSlabSum inPtr numscalars n f.

Definition MeanTrap (inPtr : list Q) (numscalars n : Z) : list Q :=
  let f := (1 / inject_Z (n - 1))%Q in
  vtkImageResliceSlabTrap inPtr numscalars n f.

Definition SumValues (inPtr : list Q) (numscalars n : Z) : list Q :=
  vtkImageResliceSlabSum inPtr numscalars n 1.

Definition SumTrap (inPtr : list Q) (numscalars n : Z) : list Q :=
  vtkImageResliceSlabTrap inPtr numscalars n 1.

Definition MinValue (inPtr : list Q) (numscalars n : Z) : list Q :=
  slab_select_loop smaller inPtr (Z.to_nat numscalars) (Z.to_nat (n - 1)) 0
    (Z.to_nat numscalars - 1).

Definition MaxValue (inPtr : list Q) (numscalars n : Z) : list Q :=
  slab_select_loop larger inPtr (Z.to_nat numscalars) (Z.to_nat (n - 1)) 0
    (Z.to_nat numscalars - 1).

(** [vtkGetCompositeFunc] *)
Definition vtkGetCompositeFunc (slabMode : SlabMode) (trpz : bool)
    : list Q -> Z -> Z -> list Q :=
  match slabMode with
  | VTK_IMAGE_SLAB_MIN => MinValue
  | VTK_IMAGE_SLAB_MAX => MaxValue
  | VTK_IMAGE_SLAB_MEAN => if trpz then MeanTrap else MeanValue
  | VTK_IMAGE_SLAB_SUM => if trpz then SumTrap else SumValues
  end.

(** The sum of the [S more] samples that follow position [p], added to
    [result]. *)
Definition strided_sum (inPtr : list Q) (numscalars p : nat) (result : Q) (count : nat) : Q :=
  fold_left Qplus
    (map (fun k => nth (p + k * numscalars) inPtr 0%Q) (seq 1 count)) result.

Lemma accumulate_strided (inPtr : list Q) (numscalars : nat) (more p : nat) (result : Q) :
  accumulate Qplus inPtr numscalars p result more
  = ((p + S more * numscalars)%nat, strided_sum inPtr numscalars p result (S more)).
Proof.
  revert p result; induction more as [| more IH]; intros p result.
  - cbn. unfold strided_sum. cbn. f_equal; [lia | do 2 f_equal; lia].
  - cbn [accumulate]. rewrite IH. f_equal; [lia |].
    unfold strided_sum.
    change (seq 1 (S (S more))) with (1%nat :: seq 2 (S more)).
    cbn [map fold_left].
    rewrite <- (seq_shift (S more) 1), map_map.
    f_equal.
    + apply map_ext; intros k. f_equal. lia.
    + do 2 f_equal. lia.
Qed.

Lemma strided_sum_ext (a b : list Q) (numscalars p : nat) (result : Q) (count : nat) :
  (forall i, (p < i)%nat -> nth i a 0%Q = nth i b 0%Q) ->
  (1 <= numscalars)%nat ->
  strided_sum a numscalars p result count = strided_sum b numscalars p result count.
Proof.
  intros Hagree Hns. unfold strided_sum. f_equal.
  apply map_ext_in; intros k Hk. apply in_seq in Hk.
  apply Hagree. nia.
Qed.

(** What the outer loop leaves in the buffer: the components from [p] to
    [p + more] hold their sample sum times [f], everything else is
    untouched. *)
Lemma slab_sum_loop_spec (numscalars n : nat) (f : Q) (more : nat) :
  (1 <= numscalars)%nat -> (1 <= n)%nat ->
  forall (inPtr : list Q) (p : nat),
  (p + more < length inPtr)%nat ->
  let out := slab_sum_loop inPtr numscalars n f p more in
  (forall c, (p <= c <= p + more)%nat ->
     nth c out 0%Q
     = (strided_sum inPtr numscalars c (nth c inPtr 0%Q) n * f)%Q) /\
  (forall i, (i < p \/ p + more < i)%nat -> nth i out 0%Q = nth i inPtr 0%Q).
Proof.
  intros Hns Hn.
  induction more as [| more IH]; intros inPtr p Hlen; cbn zeta;
    cbn [slab_sum_loop]; rewrite accumulate_strided;
    replace (S (n - 1)) with n by lia;
    replace (p + n * numscalars - n * numscalars)%nat with p by lia.
  - split.
    + intros c Hc. assert (c = p) by lia; subst c.
      rewrite nth_lookup, list_lookup_insert_eq by lia. reflexivity.
    + intros i Hi. rewrite !nth_lookup, list_lookup_insert_ne by lia. reflexivity.
  - set (buf := <[p := _]> inPtr).
    assert (Hbuf : forall i, i <> p -> nth i buf 0%Q = nth i inPtr 0%Q)
      by (intros i Hi; subst buf; rewrite !nth_lookup, list_lookup_insert_ne by lia;
          reflexivity).
    destruct (IH buf (S p)) as [IHin IHout];
      [subst buf; rewrite length_insert; lia |].
    split.
    + intros c Hc. destruct (Nat.eq_dec c p) as [-> | Hne].
      * rewrite IHout by lia. subst buf.
        rewrite nth_lookup, list_lookup_insert_eq by lia. reflexivity.
      * rewrite IHin by lia. rewrite Hbuf by lia. f_equal.
        apply strided_sum_ext; [| exact Hns].
        intros i Hi. apply Hbuf. lia.
    + intros i Hi. rewrite IHout by lia. apply Hbuf. lia.
Qed.

Section MeanAndSum.

Variable Round : Q -> Z.

(** [Round] is a function of the number, not of the fraction that
    denotes it. *)
Hypothesis Round_compat : forall x y : Q, (x == y)%Q -> Round x = Round y.

(** C7: for a slab of [n >= 2] composited samples and every component, the
    value the mean compositor leaves equals the value the sum compositor
    leaves divided by [n], and for an integer output type the unclamped
    conversion of the one equals the conversion of the other. *)
Theorem mean_is_sum_divided_by_n (T : ScalarType) (inPtr : list Q)
    (numscalars n : Z) (c : nat) :
  is_floating T = false ->
  2 <= n -> 1 <= numscalars ->
  (c < Z.to_nat numscalars)%nat ->
  (Z.to_nat (n * numscalars) <= length inPtr)%nat ->
  let mean := nth c (MeanValue inPtr numscalars n) 0%Q in
  let sum := nth c (SumValues inPtr numscalars n) 0%Q in
  (mean == sum / inject_Z n)%Q /\
  vtkInterpolateRound Round T mean = vtkInterpolateRound Round T (sum / inject_Z n)%Q.
Proof.
  intros HT Hn Hns Hc Hlen mean sum.
  assert (Hlen' : (0 + (Z.to_nat numscalars - 1) < length inPtr)%nat) by nia.
  assert (Heq : (mean == sum / inject_Z n)%Q).
  { subst mean sum. unfold MeanValue, SumValues, vtkImageResliceSlabSum.
    destruct (slab_sum_loop_spec (Z.to_nat numscalars) (Z.to_nat (n - 1))
                (1 / inject_Z n) (Z.to_nat numscalars - 1) ltac:(lia) ltac:(lia)
                inPtr 0%nat Hlen') as [Hmean _].
    destruct (slab_sum_loop_spec (Z.to_nat numscalars) (Z.to_nat (n - 1))
                1 (Z.to_nat numscalars - 1) ltac:(lia) ltac:(lia)
                inPtr 0%nat Hlen') as [Hsum _].
    rewrite Hmean, Hsum by lia.
    assert (Hnz : ~ (inject_Z n == 0)%Q)
      by (intros H0; change 0%Q with (inject_Z 0) in H0;
          apply (proj1 (inject_Z_injective n 0)) in H0; lia).
    field. exact Hnz. }
  split; [exact Heq |].
  unfold vtkInterpolateRound. rewrite HT. do 2 f_equal. apply Round_compat, Heq.
Qed.

End MeanAndSum.

Lemma Round_half_up_compat (x y : Q) : (x == y)%Q -> Round_half_up x = Round_half_up y.
Proof. intros H. unfold Round_half_up. rewrite H. reflexivity. Qed.

(** Three samples 100, 200, 100 of one component (scenario S4). *)
Lemma mean_is_sum_divided_by_n_witness :
  is_floating TypeUInt8 = false /\ 2 <= 3 /\ 1 <= 1 /\
  (0 < Z.to_nat 1)%nat /\
  (Z.to_nat (3 * 1) <= length [100; 200; 100]%Q)%nat /\
  let mean := nth 0 (MeanValue [100; 200; 100]%Q 1 3) 0%Q in
  let sum := nth 0 (SumValues [100; 200; 100]%Q 1 3) 0%Q in
  (mean == sum / inject_Z 3)%Q /\
  vtkInterpolateRound Round_half_up TypeUInt8 mean
  = vtkInterpolateRound Round_half_up TypeUInt8 (sum / inject_Z 3)%Q.
Proof.
  repeat (split; [first [reflexivity | lia | cbn; lia] |]).
  apply (mean_is_sum_divided_by_n Round_half_up Round_half_up_compat TypeUInt8
           [100; 200; 100]%Q 1 3 0);
    first [reflexivity | lia | cbn; lia].
Defined.

(** The slab of the witness, evaluated: the sum is 400, the mean converts
    to 133. *)
Example slab_mean_133 :
  map (vtkInterpolateRound Round_half_up TypeUInt16)
    (take 1 (SumValues [100; 200; 100]%Q 1 3)) = [IntVal 400] /\
  map (vtkInterpolateRound Round_half_up TypeUInt8)
    (take 1 (MeanValue [100; 200; 100]%Q 1 3)) = [IntVal 133].
Proof. split; vm_compute; reflexivity. Qed.

End Slab.

(** ** Geometry derivation: the output spacing *)

Module Geometry.
Import Numeric.

(** A 3x3 matrix as [double[9]], row after row. *)
Definition elem3 (m : list Q) (i j : nat) : Q := nth (3 * i + j) m 0%Q.

(** Modelled from the spec: [vtkMatrix3x3::Multiply3x3], [::Invert] and
    [::Identity] belong to the math primitives (3x3 multiply, invert,
    identity), which are outside the sources at hand.  [Multiply3x3 A B] is
    the product [A . B]; [Invert3x3] is the adjugate over the determinant. *)
Definition Multiply3x3 (A B : list Q) : list Q :=
  flat_map
    (fun i =>
       map (fun j =>
              (elem3 A i 0 * elem3 B 0 j + elem3 A i 1 * elem3 B 1 j
               + elem3 A i 2 * elem3 B 2 j)%Q)
         [0; 1; 2]%nat)
    [0; 1; 2]%nat.

Definition Identity3x3 : list Q := [1; 0; 0; 0; 1; 0; 0; 0; 1]%Q.

Definition Determinant3x3 (m : list Q) : Q :=
  (elem3 m 0 0 * (elem3 m 1 1 * elem3 m 2 2 - elem3 m 1 2 * elem3 m 2 1)
   - elem3 m 0 1 * (elem3 m 1 0 * elem3 m 2 2 - elem3 m 1 2 * elem3 m 2 0)
   + elem3 m 0 2 * (elem3 m 1 0 * elem3 m 2 1 - elem3 m 1 1 * elem3 m 2 0))%Q.

Definition Invert3x3 (m : list Q) : list Q :=
  let d := Determinant3x3 m in
  [ ((elem3 m 1 1 * elem3 m 2 2 - elem3 m 1 2 * elem3 m 2 1) / d)%Q;
    ((elem3 m 0 2 * elem3 m 2 1 - elem3 m 0 1 * elem3 m 2 2) / d)%Q;
    ((elem3 m 0 1 * elem3 m 1 2 - elem3 m 0 2 * elem3 m 1 1) / d)%Q;
    ((elem3 m 1 2 * elem3 m 2 0 - elem3 m 1 0 * elem3 m 2 2) / d)%Q;
    ((elem3 m 0 0 * elem3 m 2 2 - elem3 m 0 2 * elem3 m 2 0) / d)%Q;
    ((elem3 m 0 2 * elem3 m 1 0 - elem3 m 0 0 * elem3 m 1 2) / d)%Q;
    ((elem3 m 1 0 * elem3 m 2 1 - elem3 m 1 1 * elem3 m 2 0) / d)%Q;
    ((elem3 m 0 1 * elem3 m 2 0 - elem3 m 0 0 * elem3 m 2 1) / d)%Q;
    ((elem3 m 0 0 * elem3 m 1 1 - elem3 m 0 1 * elem3 m 1 0) / d)%Q ].

(** What [RequestInformation] reads to derive the output spacing.
    [ResliceAxes] is the 16 elements of the matrix ([GetData()]), [None] the
    null pointer. *)
Record Inputs := {
  inSpacing : list Q;
  inDirection : list Q;
  PassDirectionToOutput : bool;
  OutputDirection : list Q;
  TransformInputSampling : bool;
  ResliceAxes : option (list Q);
  ComputeOutputSpacing : bool;
  OutputSpacing : list Q
}.

Definition outDirection (self : Inputs) : list Q :=
  if PassDirectionToOutput self then inDirection self else OutputDirection self.

(** The rotation part of the reslice axes. *)
Definition resliceRotation (axesData : list Q) : list Q :=
  map (fun k => nth k axesData 0%Q) [0; 1; 2; 4; 5; 6; 8; 9; 10]%nat.

(** [rotation], as it stands when the loop over the output axes starts. *)
Definition rotation (self : Inputs) : list Q :=
  let rotation := outDirection self in
  let rotation :=
    match ResliceAxes self with
    | Some axesData => Multiply3x3 (resliceRotation axesData) rotation
    | None => rotation
    end in
  let inInvDirection := Invert3x3 (inDirection self) in
  Multiply3x3 inInvDirection rotation.

(** The inner loop over [j] for output axis [i]: the sums [s] and [r]. *)
Definition accumulate_axis (rotation inSpacing : list Q) (i : nat) : Q * Q :=
  fold_left
    (fun '(s, r) j =>
       let tmp := (nth (3 * j + i) rotation 0 * nth (3 * j + i) rotation 0)%Q in
       ((s + tmp * Qabs (nth j inSpacing 0))%Q, (r + tmp)%Q))
    [0; 1; 2]%nat (0%Q, 0%Q).

(** [outSpacing], as [RequestInformation] sets it in the output
    information. *)
Definition outSpacing (self : Inputs) : list Q :=
  let spacing :=
    if TransformInputSampling self then
      map (fun i =>
             let '(s, r) := accumulate_axis (rotation self) (inSpacing self) i in
             let s := (s / r)%Q in
             if negb (ComputeOutputSpacing self) then nth i (OutputSpacing self) 0%Q
             else s)
        [0; 1; 2]%nat
    else
      map (fun i => nth i (inSpacing self) 0%Q) [0; 1; 2]%nat in
  map (fun i =>
         if negb (ComputeOutputSpacing self) then nth i (OutputSpacing self) 0%Q
         else nth i spacing 0%Q)
    [0; 1; 2]%nat.

(** The spacing formula for a rotation [R]:
    [s_i = (sum_j r_j |spacing_j|) / (sum_j r_j)] with [r_j = R[j,i]^2]. *)
Definition weighted_spacing (R inSpacing : list Q) (i : nat) : Q :=
  let r j := (elem3 R j i * elem3 R j i)%Q in
  ((r 0%nat * Qabs (nth 0 inSpacing 0) + r 1%nat * Qabs (nth 1 inSpacing 0)
    + r 2%nat * Qabs (nth 2 inSpacing 0))
   / (r 0%nat + r 1%nat + r 2%nat))%Q.

(** The rotation as the specification words it:
    [inv(input_direction) . output_direction . reslice_rotation]. *)
Definition spec_rotation (self : Inputs) : list Q :=
  let reslice :=
    match ResliceAxes self with
    | Some axesData => resliceRotation axesData
    | None => Identity3x3
    end in
  Multiply3x3 (Multiply3x3 (Invert3x3 (inDirection self)) (outDirection self)) reslice.

(** The rotation the source forms:
    [inv(input_direction) . reslice_rotation . output_direction], the reslice
    rotation being left out when no reslice axes are set. *)
Definition source_rotation (self : Inputs) : list Q :=
  match ResliceAxes self with
  | Some axesData =>
      Multiply3x3 (Invert3x3 (inDirection self))
        (Multiply3x3 (resliceRotation axesData) (outDirection self))
  | None => Multiply3x3 (Invert3x3 (inDirection self)) (outDirection self)
  end.

(** Input spacing (1, 2, 3), identity input direction, output direction a
    quarter turn about Z, reslice axes a quarter turn about X. *)
Definition quarter_turns : Inputs :=
  {| inSpacing := [1; 2; 3]%Q;
     inDirection := Identity3x3;
     PassDirectionToOutput := false;
     OutputDirection := [0; -1; 0; 1; 0; 0; 0; 0; 1]%Q;
     TransformInputSampling := true;
     ResliceAxes := Some [1; 0; 0; 0; 0; 0; -1; 0; 0; 1; 0; 0; 0; 0; 0; 1]%Q;
     ComputeOutputSpacing := true;
     OutputSpacing := [1; 1; 1]%Q |}.

Definition Qeqs (a b : list Q) : Prop := Forall2 Qeq a b.

(** C3 (as amended): with [TransformInputSampling] on and the spacing not
    fixed by the user, the output spacing of axis [i] is
    [(sum_j r_j |spacing_j|) / (sum_j r_j)] with [r_j = R[j,i]^2], where [R]
    is [inv(input_direction) . reslice_rotation . output_direction]. *)
Theorem outSpacing_weighted_by_source_rotation (self : Inputs) :
  TransformInputSampling self = true ->
  ComputeOutputSpacing self = true ->
  Qeqs (outSpacing self)
    (map (weighted_spacing (source_rotation self) (inSpacing self)) [0; 1; 2]%nat).
Proof.
  intros Htis Hcos.
  assert (Hrot : rotation self = source_rotation self)
    by (unfold rotation, source_rotation; destruct (ResliceAxes self); reflexivity).
  unfold outSpacing. rewrite Htis, Hcos, Hrot. cbn [negb map nth].
  generalize (source_rotation self) (inSpacing self); intros R sp.
  unfold Qeqs, weighted_spacing, accumulate_axis, elem3; cbn [fold_left].
  repeat constructor;
    cbn [Nat.mul Nat.add];
    rewrite !Qplus_0_l; reflexivity.
Qed.

(** The theorem at the two quarter turns. *)
Lemma outSpacing_weighted_by_source_rotation_witness :
  TransformInputSampling quarter_turns = true /\
  ComputeOutputSpacing quarter_turns = true /\
  Qeqs (outSpacing quarter_turns)
    (map (weighted_spacing (source_rotation quarter_turns) (inSpacing quarter_turns))
       [0; 1; 2]%nat).
Proof.
  split; [reflexivity |]. split; [reflexivity |].
  apply (outSpacing_weighted_by_source_rotation quarter_turns); reflexivity.
Defined.

(** C3 (counterexample): for the two quarter turns the source derives the
    spacing (3, 1, 2), while the formula with the rotation
    [inv(input_direction) . output_direction . reslice_rotation] gives
    (2, 3, 1). *)
Lemma outSpacing_differs_from_spec_rotation :
  map Qred (outSpacing quarter_turns) = [3; 1; 2]%Q /\
  map Qred
    (map (weighted_spacing (spec_rotation quarter_turns) (inSpacing quarter_turns))
       [0; 1; 2]%nat) = [2; 3; 1]%Q.
Proof. split; vm_compute; reflexivity. Qed.

End Geometry.

(** ** The tile driver and the two execute paths *)

Module Execute.
Import Numeric Convert Slab.

Inductive BorderMode :=
| VTK_IMAGE_BORDER_CLAMP | VTK_IMAGE_BORDER_REPEAT | VTK_IMAGE_BORDER_MIRROR.

Definition is_border_clamp (b : BorderMode) : bool :=
  match b with VTK_IMAGE_BORDER_CLAMP => true | _ => false end.

(** Modelled from the spec: the interpolator is an external collaborator
    described by its interface (section 4.2 of the specification).  The
    members are the operations the two execute functions call; [Weights] is
    the table [vtkInterpolationWeights], of which the fast copy reads
    [Positions] and [Pointer].  [GetInterpolationMode] is [VTK_INT_MAX] for
    an interpolator that is not a [vtkImageInterpolator]. *)
Record vtkAbstractImageInterpolator := {
  Weights : Type;
  GetNumberOfComponents : Z;
  GetComponentOffset : Z;
  GetBorderMode : BorderMode;
  GetExtent : list Z;
  GetInterpolationMode : Z;
  CheckBoundsIJK : list Q -> bool;
  InterpolateIJK : list Q -> list Q;
  PrecomputeWeightsForExtent : vtkMatrix4x4 -> list Z -> list Z * Weights;
  InterpolateRow : Weights -> Z -> Z -> Z -> Z -> list Q;
  Positions : Weights -> nat -> Z -> Z;
  Pointer : Weights -> list Scalar
}.

(** The input scalar array. *)
Record vtkDataArray := {
  GetDataType : ScalarType;
  GetNumberOfArrayComponents : Z;
  GetNumberOfTuples : Z;
  GetVoidPointer : list Scalar
}.

(** The members of the filter the execute functions read.  The filter has
    no stencil input, generates no stencil output and has no
    [ConvertScalars] override ([HasConvertScalars] is 0). *)
Record vtkImageReslice := {
  SlabNumberOfSlices : Z;
  SlabSliceSpacingFraction : Q;
  GetSlabMode : SlabMode;
  SlabTrapezoidIntegration : bool;
  BackgroundColor : list Q;
  Border : Z;
  ScalarShift : Q;
  ScalarScale : Q;
  HitInputExtent : bool;
  UsePermuteExecute : bool;
  IndexMatrix : vtkMatrix4x4
}.

(** The output image: its scalar type and component count. *)
Record vtkImageData := {
  GetScalarType : ScalarType;
  GetNumberOfScalarComponents : Z
}.

(** What a new allocation holds before it is written. *)
Record Heap := {
  fresh_float : Q;
  fresh_scalar : Scalar
}.

Definition zrange (lo hi : Z) : list Z :=
  map (fun i => lo + Z.of_nat i) (seq 0 (Z.to_nat (hi - lo + 1))).

(** Modelled from the spec: [vtkImagePointDataIterator] over an extent
    without a stencil visits the rows in Z-outer, Y-middle order, one span
    per row, which covers the whole X range and is in the stencil.  A row is
    given by its [(idY, idZ)]. *)
Definition spans (ext : list Z) : list (Z * Z) :=
  if ext !!! 1%nat <? ext !!! 0%nat then []
  else
    flat_map (fun idZ => map (fun idY => (idY, idZ)) (zrange (ext !!! 2%nat) (ext !!! 3%nat)))
      (zrange (ext !!! 4%nat) (ext !!! 5%nat)).

(** [vtkImageResliceSetPixels<T, N>]: [n] copies of the pixel at [inPtr]
    are appended at [outPtr]. *)
Definition Set_ (inPtr : list Scalar) (numscalars n : Z) : list Scalar :=
  concat (replicate (Z.to_nat n) (take (Z.to_nat numscalars) inPtr)).

Definition Set1 (inPtr : list Scalar) (numscalars n : Z) : list Scalar :=
  concat (replicate (Z.to_nat n) (take 1 inPtr)).

Definition SetN (N : nat) (inPtr : list Scalar) (numscalars n : Z) : list Scalar :=
  concat (replicate (Z.to_nat n) (take N inPtr)).

Definition vtkGetSetPixelsFunc (numscalars : Z) : list Scalar -> Z -> Z -> list Scalar :=
  if numscalars =? 1 then Set1
  else if numscalars =? 2 then SetN 2
  else if numscalars =? 3 then SetN 3
  else if numscalars =? 4 then SetN 4
  else Set_.

(** [vtkImageResliceRescaleScalars] *)
Definition vtkImageResliceRescaleScalars (floatData : list Q) (components n : Z)
    (scalarShift scalarScale : Q) : list Q :=
  let m := Z.to_nat (n * components) in
  map (fun x => ((x + scalarShift) * scalarScale)%Q) (take m floatData) ++ drop m floatData.

Section Paths.

Variable Round : Q -> Z.
Variable GetDataTypeMin : ScalarType -> Q.
Variable GetDataTypeMax : ScalarType -> Q.
Variable heap : Heap.

Variable self : vtkImageReslice.
Variable scalars : vtkDataArray.
Variable interpolator : vtkAbstractImageInterpolator.
Variable outData : vtkImageData.

Definition background (scalarType : ScalarType) (numComponents : Z) : list Scalar :=
  vtkAllocBackgroundPixel Round
    (replicate (Z.to_nat numComponents) (fresh_scalar heap))
    (BackgroundColor self) scalarType numComponents.

(** [vtkImageResliceClearExecute] *)
Definition vtkImageResliceClearExecute (outExt : list Z) : list Scalar :=
  let scalarType := GetScalarType outData in
  let numscalars := GetNumberOfScalarComponents outData in
  let background := background scalarType numscalars in
  let setpixels := vtkGetSetPixelsFunc numscalars in
  flat_map
    (fun _ => setpixels background numscalars (outExt !!! 1%nat - outExt !!! 0%nat + 1))
    (spans outExt).

Definition rescaleScalars : bool :=
  Qnonzero (ScalarShift self) || negb (Qeq_bool (ScalarScale self) 1).

(** *** The general path, [vtkImageResliceExecute] *)

Section General.

Variable newmat : vtkMatrix4x4.
Variable outExt : list Z.

Definition nsamples : Z :=
  if 1 <? SlabNumberOfSlices self then SlabNumberOfSlices self else 1.

Definition perspective : bool :=
  Qnonzero (GetElement newmat 3 0) || Qnonzero (GetElement newmat 3 1)
  || Qnonzero (GetElement newmat 3 2) || negb (Qeq_bool (GetElement newmat 3 3) 1).

Definition inComponents : Z := GetNumberOfComponents interpolator.
Definition outComponents : Z := GetNumberOfScalarComponents outData.
Definition scalarType : ScalarType := GetScalarType outData.
Definition inputScalarType : ScalarType := GetDataType scalars.

Definition fullSize : Z :=
  let inExt := GetExtent interpolator in
  (inExt !!! 1%nat - inExt !!! 0%nat + 1)
  * (inExt !!! 3%nat - inExt !!! 2%nat + 1)
  * (inExt !!! 5%nat - inExt !!! 4%nat + 1).

Definition optimizeNearest : bool :=
  (GetInterpolationMode interpolator =? VTK_RESLICE_NEAREST)
  && is_border_clamp (GetBorderMode interpolator)
  && negb (perspective || rescaleScalars)
  && ScalarType_eqb inputScalarType scalarType
  && (fullSize =? GetNumberOfTuples scalars)
  && (Border self =? 1)
  && (nsamples <=? 1).

Definition xAxis : list Q := map (fun i => GetElement newmat i 0) [0; 1; 2; 3]%nat.
Definition yAxis : list Q := map (fun i => GetElement newmat i 1) [0; 1; 2; 3]%nat.
Definition zAxis : list Q := map (fun i => GetElement newmat i 2) [0; 1; 2; 3]%nat.
Definition origin : list Q := map (fun i => GetElement newmat i 3) [0; 1; 2; 3]%nat.

(** [p[i] + t * axis[i]] for the four coordinates. *)
Definition advance (p : list Q) (t : Q) (axis : list Q) : list Q :=
  map (fun i => (nth i p 0 + t * nth i axis 0)%Q) [0; 1; 2; 3]%nat.

Definition convertpixels : ConversionFunc :=
  vtkGetConversionFunc GetDataTypeMin GetDataTypeMax inputScalarType scalarType
    (ScalarShift self) (ScalarScale self)
    (forceClamping (GetInterpolationMode interpolator) nsamples (GetSlabMode self)).

Definition composite : list Q -> Z -> Z -> list Q :=
  vtkGetCompositeFunc (GetSlabMode self) (SlabTrapezoidIntegration self).

(** The point of slab sample [sample] of the voxel at [inPoint2]. *)
Definition sample_point (inPoint2 : list Q) (sample : Z) : list Q :=
  let inPoint :=
    if 1 <? nsamples then
      let s := (inject_Z sample - (1 # 2) * inject_Z (nsamples - 1))%Q in
      let s := (s * SlabSliceSpacingFraction self)%Q in
      advance inPoint2 s zAxis
    else inPoint2 in
  if perspective then
    let f := (1 / nth 3 inPoint 0)%Q in
    [(nth 0 inPoint 0 * f)%Q; (nth 1 inPoint 0 * f)%Q; (nth 2 inPoint 0 * f)%Q;
     nth 3 inPoint 0%Q]
  else inPoint.

(** The loop over the slab samples of one voxel: every sample in bounds
    is interpolated at [tmpPtr], which then moves on.  The state is the row
    buffer, [tmpPtr] and [sampleCount]. *)
Definition sample_loop (inPoint2 : list Q) (floatPtr : list Q) (tmpPtr : nat)
    : list Q * nat * Z :=
  fold_left
    (fun '(floatPtr, tmpPtr, sampleCount) sample =>
       let inPoint := sample_point inPoint2 sample in
       if CheckBoundsIJK interpolator inPoint then
         (list_inserts tmpPtr
            (take (Z.to_nat inComponents) (InterpolateIJK interpolator inPoint)) floatPtr,
          (tmpPtr + Z.to_nat inComponents)%nat, sampleCount + 1)
       else (floatPtr, tmpPtr, sampleCount))
    (zrange 0 (nsamples - 1)) (floatPtr, tmpPtr, 0).

(** The body of the loop over [idX]: sample the voxel, composite its
    samples in place, leave [tmpPtr] one pixel further.  Returns
    [isInBounds], the buffer and [tmpPtr]. *)
Definition voxel (inPoint1 : list Q) (idX : Z) (floatPtr : list Q) (tmpPtr : nat)
    : bool * list Q * nat :=
  let inPoint2 := advance inPoint1 (inject_Z idX) xAxis in
  let '(floatPtr, tmpPtr, sampleCount) := sample_loop inPoint2 floatPtr tmpPtr in
  let isInBounds := 0 <? sampleCount in
  let tmpPtr := (tmpPtr - Z.to_nat (sampleCount * inComponents))%nat in
  let floatPtr :=
    if 1 <? sampleCount
    then take tmpPtr floatPtr ++ composite (drop tmpPtr floatPtr) inComponents sampleCount
    else floatPtr in
  (isInBounds, floatPtr, (tmpPtr + Z.to_nat inComponents)%nat).

(** The state of the walk along a row. *)
Record RowState := {
  idX : Z;
  isInBounds : bool;
  wasInBounds : bool;
  floatPtr : list Q;
  tmpPtr : nat
}.

(** [for (; idX <= idXmax && isInBounds == wasInBounds; idX++)] *)
Fixpoint scan (fuel : nat) (inPoint1 : list Q) (idXmin idXmax : Z) (st : RowState)
    : RowState :=
  match fuel with
  | O => st
  | S fuel' =>
      if (idX st <=? idXmax) && Bool.eqb (isInBounds st) (wasInBounds st) then
        let '(isIn, buf, tmp) := voxel inPoint1 (idX st) (floatPtr st) (tmpPtr st) in
        let wasIn := if idXmin <? idX st then wasInBounds st else isIn in
        scan fuel' inPoint1 idXmin idXmax
          {| idX := idX st + 1; isInBounds := isIn; wasInBounds := wasIn;
             floatPtr := buf; tmpPtr := tmp |}
      else st
  end.

(** [while (startIdX <= idXmax)]: each turn scans up to the next change of
    the in-bounds flag and writes one segment, converted or background. *)
Fixpoint segments (fuel : nat) (inPoint1 : list Q) (idXmin idXmax : Z)
    (startIdX : Z) (st : RowState) (out : list Scalar) : list Q * list Scalar :=
  match fuel with
  | O => (floatPtr st, out)
  | S fuel' =>
      if startIdX <=? idXmax then
        let st := scan (Z.to_nat (idXmax - idXmin + 2)) inPoint1 idXmin idXmax st in
        let endIdX :=
          idX st - 1 - (if Bool.eqb (isInBounds st) (wasInBounds st) then 0 else 1) in
        let numpixels := endIdX - startIdX + 1 in
        let '(buf, written) :=
          if wasInBounds st then
            let buf :=
              if rescaleScalars then
                vtkImageResliceRescaleScalars (floatPtr st) inComponents
                  (idXmax - idXmin + 1) (ScalarShift self) (ScalarScale self)
              else floatPtr st in
            let from := (tmpPtr st - Z.to_nat (inComponents * (idX st - startIdX)))%nat in
            (buf, apply_conversion Round convertpixels (drop from buf) outComponents numpixels)
          else
            (floatPtr st,
             vtkGetSetPixelsFunc outComponents (background scalarType outComponents)
               outComponents numpixels) in
        segments fuel' inPoint1 idXmin idXmax (startIdX + numpixels)
          {| idX := idX st; isInBounds := isInBounds st; wasInBounds := isInBounds st;
             floatPtr := buf; tmpPtr := tmpPtr st |}
          (out ++ written)
      else (floatPtr st, out)
  end.

(** One row of the tile through the interpolator. *)
Definition interpolated_row (inPoint1 : list Q) (idXmin idXmax : Z) (buf : list Q)
    : list Q * list Scalar :=
  segments (Z.to_nat (idXmax - idXmin + 2)) inPoint1 idXmin idXmax idXmin
    {| idX := idXmin; isInBounds := true; wasInBounds := true;
       floatPtr := buf; tmpPtr := 0 |}
    [].

(** The row loop of the nearest-neighbour copy: the state is
    [isInBounds], [startIdX], [endIdX] and what was written. *)
Definition input_pixel (inPoint1 : list Q) (iidX : Z) : option (list Scalar) :=
  let inExt := GetExtent interpolator in
  let inPoint := advance inPoint1 (inject_Z iidX) xAxis in
  let inIdX := Round (nth 0 inPoint 0%Q) - inExt !!! 0%nat in
  let inIdY := Round (nth 1 inPoint 0%Q) - inExt !!! 2%nat in
  let inIdZ := Round (nth 2 inPoint 0%Q) - inExt !!! 4%nat in
  let inExtX := inExt !!! 1%nat - inExt !!! 0%nat + 1 in
  let inExtY := inExt !!! 3%nat - inExt !!! 2%nat + 1 in
  let inExtZ := inExt !!! 5%nat - inExt !!! 4%nat + 1 in
  if (0 <=? inIdX) && (inIdX <? inExtX) && (0 <=? inIdY) && (inIdY <? inExtY)
     && (0 <=? inIdZ) && (inIdZ <? inExtZ)
  then
    let inInc0 := GetNumberOfArrayComponents scalars in
    let inInc1 := inInc0 * inExtX in
    let inInc2 := inInc1 * inExtY in
    let componentOffset := GetComponentOffset interpolator in
    let base :=
      if (0 <? componentOffset) && (componentOffset + inComponents <? inInc0)
      then componentOffset else 0 in
    Some (take (Z.to_nat inComponents)
            (drop (Z.to_nat (base + inIdX * inInc0 + inIdY * inInc1 + inIdZ * inInc2))
               (GetVoidPointer scalars)))
  else None.

Fixpoint copy_loop (inPoint1 : list Q) (idXmin : Z) (row : list Z)
    (isIn : bool) (endIdX : Z) (out : list Scalar) : Z * list Scalar :=
  match row with
  | [] => (endIdX, out)
  | iidX :: rest =>
      match input_pixel inPoint1 iidX with
      | Some pixel =>
          let out :=
            if isIn then out
            else vtkGetSetPixelsFunc outComponents (background scalarType outComponents)
                   outComponents (iidX - idXmin) in
          copy_loop inPoint1 idXmin rest true iidX (out ++ pixel)
      | None =>
          if isIn then (endIdX, out)
          else copy_loop inPoint1 idXmin rest isIn endIdX out
      end
  end.

Definition copied_row (inPoint1 : list Q) (idXmin idXmax : Z) : list Scalar :=
  let '(endIdX, out) :=
    copy_loop inPoint1 idXmin (zrange idXmin idXmax) false (idXmin - 1) [] in
  out ++ vtkGetSetPixelsFunc outComponents (background scalarType outComponents)
           outComponents (idXmax - endIdX).

(** The walk over the spans.  The state carries [idY], [idZ], the two
    partial points, the row buffer and the output written so far. *)
Record TileState := {
  idY : Z;
  idZ : Z;
  inPoint0 : list Q;
  inPoint1 : list Q;
  rowBuffer : list Q;
  written : list Scalar
}.

Definition span_step (st : TileState) (outIndex : Z * Z) : TileState :=
  let '(y, z) := outIndex in
  let '(idZ, inPoint0, idY) :=
    if idZ st <? z
    then (z, advance origin (inject_Z z) zAxis, outExt !!! 2%nat - 1)
    else (idZ st, inPoint0 st, idY st) in
  let '(idY, inPoint1) :=
    if idY <? y
    then (y, advance inPoint0 (inject_Z y) yAxis)
    else (idY, inPoint1 st) in
  let idXmin := outExt !!! 0%nat in
  let idXmax := idXmin + (outExt !!! 1%nat - outExt !!! 0%nat + 1) - 1 in
  let '(buf, row) :=
    if negb optimizeNearest
    then interpolated_row inPoint1 idXmin idXmax (rowBuffer st)
    else (rowBuffer st, copied_row inPoint1 idXmin idXmax) in
  {| idY := idY; idZ := idZ; inPoint0 := inPoint0; inPoint1 := inPoint1;
     rowBuffer := buf; written := written st ++ row |}.

Definition vtkImageResliceExecute : list Scalar :=
  let floatPtr :=
    replicate
      (Z.to_nat (inComponents * (outExt !!! 1%nat - outExt !!! 0%nat + nsamples)))
      (fresh_float heap) in
  written
    (fold_left span_step (spans outExt)
       {| idY := outExt !!! 2%nat - 1; idZ := outExt !!! 4%nat - 1;
          inPoint0 := [0; 0; 0; 0]%Q; inPoint1 := [0; 0; 0; 0]%Q;
          rowBuffer := floatPtr; written := [] |}).

End General.

(** *** The permute path, [vtkReslicePermuteExecute] *)

(** [vtkImageResliceRowComp<F>]: the first [count * numComp] values of
    [outPtr] are combined with those of [inPtr]. *)
Definition row_combine (g : Q -> Q -> Q) (outPtr inPtr : list Q) (numComp count : Z)
    : list Q :=
  let m := Z.to_nat (count * numComp) in
  zip_with g (take m outPtr) (take m inPtr) ++ drop m outPtr.

Definition SumRow (outPtr inPtr : list Q) (numComp count i n : Z) : list Q :=
  if i =? 0 then row_combine (fun _ x => x) outPtr inPtr numComp count
  else row_combine Qplus outPtr inPtr numComp count.

Definition SumRowTrap (outPtr inPtr : list Q) (numComp count i n : Z) : list Q :=
  if i =? 0 then row_combine (fun _ x => ((1 # 2) * x)%Q) outPtr inPtr numComp count
  else if i =? n - 1
  then row_combine (fun o x => (o + (1 # 2) * x)%Q) outPtr inPtr numComp count
  else row_combine Qplus outPtr inPtr numComp count.

Definition MeanRow (outPtr inPtr : list Q) (numComp count i n : Z) : list Q :=
  if i =? 0 then row_combine (fun _ x => x) outPtr inPtr numComp count
  else if i =? n - 1
  then
    let f := (1 / inject_Z n)%Q in
    row_combine (fun o x => ((o + x) * f)%Q) outPtr inPtr numComp count
  else row_combine Qplus outPtr inPtr numComp count.

Definition MeanRowTrap (outPtr inPtr : list Q) (numComp count i n : Z) : list Q :=
  if i =? 0 then row_combine (fun _ x => ((1 # 2) * x)%Q) outPtr inPtr numComp count
  else if i =? n - 1
  then
    let f := (1 / inject_Z (n - 1))%Q in
    row_combine (fun o x => ((o + (1 # 2) * x) * f)%Q) outPtr inPtr numComp count
  else row_combine Qplus outPtr inPtr numComp count.

Definition MinRow (outPtr inPtr : list Q) (numComp count i n : Z) : list Q :=
  if i =? 0 then row_combine (fun _ x => x) outPtr inPtr numComp count
  else row_combine smaller outPtr inPtr numComp count.

Definition MaxRow (outPtr inPtr : list Q) (numComp count i n : Z) : list Q :=
  if i =? 0 then row_combine (fun _ x => x) outPtr inPtr numComp count
  else row_combine larger outPtr inPtr numComp count.

(** [vtkGetRowCompositeFunc] *)
Definition vtkGetRowCompositeFunc (slabMode : SlabMode) (trpz : bool)
    : list Q -> list Q -> Z -> Z -> Z -> Z -> list Q :=
  match slabMode with
  | VTK_IMAGE_SLAB_MIN => MinRow
  | VTK_IMAGE_SLAB_MAX => MaxRow
  | VTK_IMAGE_SLAB_MEAN => if trpz then MeanRowTrap else MeanRow
  | VTK_IMAGE_SLAB_SUM => if trpz then SumRowTrap else SumRow
  end.

Section PermutePath.

Variable matrix : vtkMatrix4x4.
Variable outExt : list Z.

Definition permute_nsamples : Z :=
  if 0 <? SlabNumberOfSlices self then SlabNumberOfSlices self else 1.

(** [smatrix]: the translation of the first three rows moves back by half
    the Z column times [nsamples]. *)
Definition smatrix : vtkMatrix4x4 :=
  imap
    (fun i row =>
       if (i <? 3)%nat
       then <[3%nat := (nth 3 row 0 - (1 # 2) * nth 2 row 0 * inject_Z permute_nsamples)%Q]> row
       else row)
    matrix.

Definition sextent : list Z :=
  <[5%nat := outExt !!! 5%nat + (permute_nsamples - 1)]> outExt.

Definition permute_newmat : vtkMatrix4x4 :=
  if 1 <? permute_nsamples then smatrix else matrix.

Definition permute_extent : list Z :=
  if 1 <? permute_nsamples then sextent else outExt.

Definition doConversion : bool :=
  negb ((GetInterpolationMode interpolator =? VTK_RESLICE_NEAREST)
        && ScalarType_eqb (GetDataType scalars) (GetScalarType outData)
        && negb rescaleScalars
        && (permute_nsamples =? 1)).

Definition precomputed : list Z * Weights interpolator :=
  PrecomputeWeightsForExtent interpolator permute_newmat permute_extent.

Definition clipExt : list Z := fst precomputed.
Definition weights : Weights interpolator := snd precomputed.

Definition conversion : ConversionFunc :=
  vtkGetConversionFunc GetDataTypeMin GetDataTypeMax (GetDataType scalars)
    (GetScalarType outData) (ScalarShift self) (ScalarScale self)
    (forceClamping (GetInterpolationMode interpolator) permute_nsamples (GetSlabMode self)).

Definition row_composite : list Q -> list Q -> Z -> Z -> Z -> Z -> list Q :=
  vtkGetRowCompositeFunc (GetSlabMode self) (SlabTrapezoidIntegration self).

(** [vtkGetSummationFunc]: the row copy for nearest-neighbour, one, [N] or
    [numscalars] components per pixel. *)
Definition summation (idX idY idZ numscalars n : Z) : list Scalar :=
  let numScalars := GetNumberOfScalarComponents outData in
  let copied :=
    if (1 <=? numScalars) && (numScalars <=? 4) then numScalars else numscalars in
  let inPtr0 := Positions interpolator weights 1 idY + Positions interpolator weights 2 idZ in
  flat_map
    (fun i =>
       take (Z.to_nat copied)
         (drop (Z.to_nat (inPtr0 + Positions interpolator weights 0 (idX + i)))
            (Pointer interpolator weights)))
    (zrange 0 (n - 1)).

Definition iterExt : list Z :=
  let empty :=
    existsb (fun jj => clipExt !!! (jj + 1)%nat <? clipExt !!! jj) [0; 2; 4]%nat in
  if empty then
    [outExt !!! 0%nat; outExt !!! 0%nat - 1; outExt !!! 2%nat; outExt !!! 2%nat - 1;
     outExt !!! 4%nat; outExt !!! 4%nat - 1]
  else if 1 <? permute_nsamples then
    let adjust := permute_nsamples - 1 in
    let maxAdjustDown := clipExt !!! 4%nat - outExt !!! 4%nat in
    let lo := clipExt !!! 4%nat - (if adjust <=? maxAdjustDown then adjust else maxAdjustDown) in
    let maxAdjustUp := outExt !!! 5%nat - clipExt !!! 5%nat in
    let hi := clipExt !!! 5%nat + (if adjust <=? maxAdjustUp then adjust else maxAdjustUp) in
    <[5%nat := hi]> (<[4%nat := lo]> (take 6 clipExt))
  else take 6 clipExt.

Definition permute_empty : bool :=
  existsb (fun jj => clipExt !!! (jj + 1)%nat <? clipExt !!! jj) [0; 2; 4]%nat.

Definition permute_background : list Scalar :=
  background (GetScalarType outData) (GetNumberOfScalarComponents outData).

Definition permute_setpixels (n : Z) : list Scalar :=
  vtkGetSetPixelsFunc (GetNumberOfScalarComponents outData) permute_background
    (GetNumberOfScalarComponents outData) n.

Definition fullspan : Z := outExt !!! 1%nat - outExt !!! 0%nat + 1.

(** Whole rows [idY = from .. to] cleared to the background. *)
Definition clear_rows (from to : Z) : list Scalar :=
  flat_map (fun _ => permute_setpixels fullspan) (zrange from to).

(** Whole slices [idZ = from .. to] cleared to the background. *)
Definition clear_slices (from to : Z) : list Scalar :=
  flat_map (fun _ => clear_rows (outExt !!! 2%nat) (outExt !!! 3%nat)) (zrange from to).

(** The loop over the slab samples of a row: every sample row is
    interpolated into [floatSumPtr] and composited into [floatPtr], or
    interpolated into [floatPtr] when there is one sample. *)
Definition slab_rows (idX idY idZ1 span nsamples1 : Z) (floatPtr floatSumPtr : list Q)
    : list Q * list Q :=
  let inComponents := GetNumberOfComponents interpolator in
  fold_left
    (fun '(floatPtr, floatSumPtr) isample =>
       let row :=
         take (Z.to_nat (span * inComponents))
           (InterpolateRow interpolator weights idX idY (idZ1 + isample) span) in
       if 1 <? nsamples1 then
         let floatSumPtr := list_inserts 0 row floatSumPtr in
         (row_composite floatPtr floatSumPtr inComponents span isample nsamples1,
          floatSumPtr)
       else (list_inserts 0 row floatPtr, floatSumPtr))
    (zrange 0 (nsamples1 - 1)) (floatPtr, floatSumPtr).

(** One span of [iterExt]: what is written, and the two buffers. *)
Definition permute_span (bufs : list Q * list Q * list Scalar) (outIndex : Z * Z)
    : list Q * list Q * list Scalar :=
  let '(floatPtr, floatSumPtr, out) := bufs in
  let '(idY, idZ) := outIndex in
  let inComponents := GetNumberOfComponents interpolator in
  let idXmin := iterExt !!! 0%nat in
  let span := iterExt !!! 1%nat - iterExt !!! 0%nat + 1 in
  let idXmax := idXmin + span - 1 in
  let leading :=
    (if idY =? iterExt !!! 2%nat
     then clear_rows (outExt !!! 2%nat) (iterExt !!! 2%nat - 1) else [])
    ++ (if outExt !!! 0%nat <? iterExt !!! 0%nat
        then permute_setpixels (iterExt !!! 0%nat - outExt !!! 0%nat) else []) in
  let '(floatPtr, floatSumPtr, row) :=
    if doConversion then
      let lowerSkip := clipExt !!! 4%nat - idZ in
      let lowerSkip := if 0 <=? lowerSkip then lowerSkip else 0 in
      let upperSkip := idZ + (permute_nsamples - 1) - clipExt !!! 5%nat in
      let upperSkip := if 0 <=? upperSkip then upperSkip else 0 in
      let idZ1 := idZ + lowerSkip in
      let nsamples1 := permute_nsamples - lowerSkip - upperSkip in
      let '(floatPtr, floatSumPtr) :=
        slab_rows idXmin idY idZ1 span nsamples1 floatPtr floatSumPtr in
      let floatPtr :=
        if rescaleScalars
        then vtkImageResliceRescaleScalars floatPtr inComponents span
               (ScalarShift self) (ScalarScale self)
        else floatPtr in
      (floatPtr, floatSumPtr, apply_conversion Round conversion floatPtr inComponents span)
    else
      (floatPtr, floatSumPtr, summation idXmin idY idZ inComponents span) in
  let trailing :=
    (if iterExt !!! 1%nat <? outExt !!! 1%nat
     then permute_setpixels (outExt !!! 1%nat - iterExt !!! 1%nat) else [])
    ++ (if idY =? iterExt !!! 3%nat
        then clear_rows (iterExt !!! 3%nat + 1) (outExt !!! 3%nat) else []) in
  (floatPtr, floatSumPtr, out ++ leading ++ row ++ trailing).

Definition vtkReslicePermuteExecute : list Scalar :=
  let inComponents := GetNumberOfComponents interpolator in
  let size := Z.to_nat (inComponents * (outExt !!! 1%nat - outExt !!! 0%nat + 1)) in
  let floatPtr := replicate size (fresh_float heap) in
  let floatSumPtr := replicate size (fresh_float heap) in
  let leading := clear_slices (outExt !!! 4%nat) (iterExt !!! 4%nat - 1) in
  let middle :=
    if negb permute_empty
    then snd (fold_left permute_span (spans iterExt) (floatPtr, floatSumPtr, []))
    else [] in
  let trailing := clear_slices (iterExt !!! 5%nat + 1) (outExt !!! 5%nat) in
  leading ++ middle ++ trailing.

End PermutePath.

(** *** The tile driver, [ThreadedRequestData] *)

Definition empty_extent (inExt : list Z) : bool :=
  (inExt !!! 1%nat <? inExt !!! 0%nat) || (inExt !!! 3%nat <? inExt !!! 2%nat)
  || (inExt !!! 5%nat <? inExt !!! 4%nat).

(** What the thread writes into its tile [outExt], given the extent of the
    input data; nothing is written for an empty input extent. *)
Definition ThreadedRequestData (inExt outExt : list Z) : list Scalar :=
  if empty_extent inExt then []
  else if negb (HitInputExtent self) then vtkImageResliceClearExecute outExt
  else if UsePermuteExecute self then vtkReslicePermuteExecute (IndexMatrix self) outExt
  else vtkImageResliceExecute (IndexMatrix self) outExt.

End Paths.

(** *** A concrete pass: a column of voxels, linear interpolation along Z *)

(** [vtkDataArray::GetDataTypeMin] and [GetDataTypeMax] for the integer
    kinds; for the two floating kinds the limits are those of [vtkType.h]
    ([VTK_FLOAT_MAX] = 1e38, [VTK_DOUBLE_MAX] = 1e299). *)
Definition DataTypeMin (T : ScalarType) : Q :=
  match T with
  | TypeInt8 => -128
  | TypeInt16 => -32768
  | TypeInt32 => -2147483648
  | TypeUInt8 | TypeUInt16 | TypeUInt32 => 0
  | TypeFloat32 => - inject_Z (10 ^ 38)
  | TypeFloat64 => - inject_Z (10 ^ 299)
  end%Q.

Definition DataTypeMax (T : ScalarType) : Q :=
  match T with
  | TypeInt8 => 127
  | TypeUInt8 => 255
  | TypeInt16 => 32767
  | TypeUInt16 => 65535
  | TypeInt32 => 2147483647
  | TypeUInt32 => 4294967295
  | TypeFloat32 => inject_Z (10 ^ 38)
  | TypeFloat64 => inject_Z (10 ^ 299)
  end%Q.

(** The input image: one voxel in X and Y, five along Z, one 16-bit
    component with the values 0, 100, 200, 300, 400. *)
Definition column_extent : list Z := [0; 0; 0; 0; 0; 4].
Definition column_values : list Q := [0; 100; 200; 300; 400]%Q.

Definition column_scalars : vtkDataArray :=
  {| GetDataType := TypeUInt16;
     GetNumberOfArrayComponents := 1;
     GetNumberOfTuples := 5;
     GetVoidPointer := [IntVal 0; IntVal 100; IntVal 200; IntVal 300; IntVal 400] |}.

(** Modelled from the spec: an instance of the interpolator interface, a
    separable linear interpolator over the column with border mode clamp and
    tolerance 1/2.  A point is in bounds when every coordinate lies within
    the extent widened by the tolerance; the value at a point is the linear
    blend of the two voxels around its (clamped) Z coordinate.  The weight
    table of an extent records the matrix and the extent: its row [idZ] at
    [idX + i] stands for the point the matrix maps the output index to, and
    the clipped extent is, for each output axis, the range of indices whose
    point is in bounds. *)
Definition within (lo hi : Z) (x : Q) : bool :=
  Qle_bool (inject_Z lo - (1 # 2)) x && Qle_bool x (inject_Z hi + (1 # 2)).

Definition column_CheckBoundsIJK (point : list Q) : bool :=
  within 0 0 (nth 0 point 0%Q) && within 0 0 (nth 1 point 0%Q)
  && within 0 4 (nth 2 point 0%Q).

Definition column_InterpolateIJK (point : list Q) : list Q :=
  let z := nth 2 point 0%Q in
  let z := if Qltb z 0 then 0%Q else if Qltb 4 z then 4%Q else z in
  let k := Qfloor z in
  let f := (z - inject_Z k)%Q in
  let a := nth (Z.to_nat k) column_values 0%Q in
  let b := nth (Z.to_nat (Z.min (k + 1) 4)) column_values 0%Q in
  [((1 - f) * a + f * b)%Q].

Definition map_index (m : vtkMatrix4x4) (i j k : Z) : list Q :=
  map (fun r =>
         (GetElement m r 0 * inject_Z i + GetElement m r 1 * inject_Z j
          + GetElement m r 2 * inject_Z k + GetElement m r 3)%Q)
    [0; 1; 2]%nat.

(** The input axis an output axis is mapped to. *)
Definition input_axis (m : vtkMatrix4x4) (a : nat) : nat :=
  if Qnonzero (GetElement m 0 a) then 0
  else if Qnonzero (GetElement m 1 a) then 1 else 2.

Definition axis_position (m : vtkMatrix4x4) (a : nat) (t : Z) : Q :=
  let r := input_axis m a in
  (GetElement m r 3 + inject_Z t * GetElement m r a)%Q.

Definition clip_axis_range (m : vtkMatrix4x4) (ext : list Z) (a : nat) : Z * Z :=
  let r := input_axis m a in
  let inside :=
    List.filter
      (fun t => within (column_extent !!! (2 * r)%nat)
                  (column_extent !!! (2 * r + 1)%nat) (axis_position m a t))
      (zrange (ext !!! (2 * a)%nat) (ext !!! (2 * a + 1)%nat)) in
  (List.hd (ext !!! (2 * a)%nat) inside, List.last inside (ext !!! (2 * a)%nat - 1)).

Definition column_Precompute (m : vtkMatrix4x4) (ext : list Z)
    : list Z * (vtkMatrix4x4 * list Z) :=
  (flat_map (fun a => let '(lo, hi) := clip_axis_range m ext a in [lo; hi]) [0; 1; 2]%nat,
   (m, ext)).

Definition column_InterpolateRow (w : vtkMatrix4x4 * list Z) (idX idY idZ n : Z) : list Q :=
  flat_map (fun i => column_InterpolateIJK (map_index (fst w) (idX + i) idY idZ))
    (zrange 0 (n - 1)).

Definition column_Positions (w : vtkMatrix4x4 * list Z) (a : nat) (t : Z) : Z :=
  let r := input_axis (fst w) a in
  let lo := column_extent !!! (2 * r)%nat in
  let hi := column_extent !!! (2 * r + 1)%nat in
  Z.max lo (Z.min hi (Round_half_up (axis_position (fst w) a t))) - lo.

Definition column_interpolator : vtkAbstractImageInterpolator :=
  {| Weights := vtkMatrix4x4 * list Z;
     GetNumberOfComponents := 1;
     GetComponentOffset := 0;
     GetBorderMode := VTK_IMAGE_BORDER_CLAMP;
     GetExtent := column_extent;
     GetInterpolationMode := VTK_RESLICE_LINEAR;
     CheckBoundsIJK := column_CheckBoundsIJK;
     InterpolateIJK := column_InterpolateIJK;
     PrecomputeWeightsForExtent := column_Precompute;
     InterpolateRow := column_InterpolateRow;
     Positions := column_Positions;
     Pointer := fun _ => GetVoidPointer column_scalars |}.

(** X13: for an affine index matrix and a slab of more than one slice at
    full slice spacing, the point the permute table stands for at sample [i]
    of an output voxel lies half a Z step below the point the general path
    samples. *)
Lemma permute_samples_half_slice_lower
    (m00 m01 m02 m03 m10 m11 m12 m13 m20 m21 m22 m23 : Q)
    (self : vtkImageReslice) (idX idY idZ i : Z) :
  1 < SlabNumberOfSlices self ->
  (SlabSliceSpacingFraction self == 1)%Q ->
  let matrix :=
    [ [m00; m01; m02; m03]; [m10; m11; m12; m13]; [m20; m21; m22; m23];
      [0; 0; 0; 1] ]%Q in
  let inPoint2 :=
    advance
      (advance (advance (origin matrix) (inject_Z idZ) (zAxis matrix))
         (inject_Z idY) (yAxis matrix))
      (inject_Z idX) (xAxis matrix) in
  Forall2 Qeq
    (map_index (smatrix self matrix) idX idY (idZ + i))
    (map (fun r =>
            (nth r (sample_point self matrix inPoint2 i) 0
             - (1 # 2) * nth r (zAxis matrix) 0)%Q)
       [0; 1; 2]%nat).
Proof.
  intros Hns Hfrac matrix inPoint2.
  assert (H1 : (1 <? SlabNumberOfSlices self) = true) by (apply Z.ltb_lt; lia).
  assert (H0 : (0 <? SlabNumberOfSlices self) = true) by (apply Z.ltb_lt; lia).
  unfold map_index, smatrix, sample_point, permute_nsamples, nsamples, perspective.
  rewrite H1, H0.
  subst inPoint2 matrix.
  change (GetElement _ 3 0) with 0%Q; change (GetElement _ 3 1) with 0%Q;
    change (GetElement _ 3 2) with 0%Q; change (GetElement _ 3 3) with 1%Q.
  change (Qnonzero 0) with false; change (Qeq_bool 1 1) with true.
  cbn [orb negb].
  cbn.
  rewrite H1. cbn [nth].
  replace (SlabNumberOfSlices self - 1) with (SlabNumberOfSlices self + -1) by lia.
  rewrite !inject_Z_plus.
  repeat constructor; rewrite Hfrac; change (inject_Z (-1)) with (-1 # 1); ring.
Qed.

(** The index matrix: the identity moved up by a quarter voxel along Z. *)
Definition quarter_shift : vtkMatrix4x4 :=
  [ [1; 0; 0; 0];
    [0; 1; 0; 0];
    [0; 0; 1; 1 # 4];
    [0; 0; 0; 1] ]%Q.

(** A mean slab of [slices] slices at full slice spacing. *)
Definition slab_filter (slices : Z) (permute : bool) : vtkImageReslice :=
  {| SlabNumberOfSlices := slices;
     SlabSliceSpacingFraction := 1;
     GetSlabMode := VTK_IMAGE_SLAB_MEAN;
     SlabTrapezoidIntegration := false;
     BackgroundColor := [0; 0; 0; 0]%Q;
     Border := 1;
     ScalarShift := 0;
     ScalarScale := 1;
     HitInputExtent := true;
     UsePermuteExecute := permute;
     IndexMatrix := quarter_shift |}.

Definition slab_settings : Permute.Settings :=
  {| Permute.Optimization := true;
     Permute.OptimizedTransform := None;
     Permute.SlabSliceSpacingFraction := 1;
     Permute.IsSeparable := true;
     Permute.IndexMatrix := quarter_shift |}.

Definition uint16_output : vtkImageData :=
  {| GetScalarType := TypeUInt16; GetNumberOfScalarComponents := 1 |}.

Definition some_heap : Heap :=
  {| fresh_float := (-1)%Q; fresh_scalar := IntVal 7 |}.

(** The tile of one output voxel at index (0, 0, 2), through either path. *)
Definition run_tile (slices : Z) (permute : bool) : list Scalar :=
  ThreadedRequestData Round_half_up DataTypeMin DataTypeMax some_heap
    (slab_filter slices permute) column_scalars column_interpolator uint16_output
    column_extent [0; 0; 0; 0; 2; 2].

(** C1 (the code at the failing input): the fast path is eligible (and the
    nearest-neighbour downgrade is not), yet for a mean slab of three slices
    the general path samples the column at z = 1.25, 2.25, 3.25 and writes
    225, while the permute path, whose table is shifted by half the slab
    count instead of half the slab count minus one, samples it at
    z = 0.75, 1.75, 2.75 and writes 175.  With one slice both write 225. *)
Lemma slab_paths_write_different_voxels :
  Permute.UsePermuteExecute slab_settings = true /\
  Permute.vtkCanUseNearestNeighbor Floor_with_fraction quarter_shift [0; 0; 0; 0; 2; 2]
    = Permute.Returned false /\
  run_tile 3 false = [IntVal 225] /\
  run_tile 3 true = [IntVal 175] /\
  run_tile 1 false = [IntVal 225] /\
  run_tile 1 true = [IntVal 225].
Proof. repeat split; vm_compute; reflexivity. Qed.


(** *** A miss of the input extent *)

(** The computed interval of axis [k] has no index in common with the
    whole extent: it ends below it or starts above it. *)
Definition misses (inExt wholeExtent : list Z) (k : nat) : Prop :=
  inExt !!! (2 * k + 1)%nat < wholeExtent !!! (2 * k)%nat \/
  wholeExtent !!! (2 * k + 1)%nat < inExt !!! (2 * k)%nat.

(** The voxels of a tile, in the order they are stored. *)
Definition tile_voxels (ext : list Z) : list (Z * Z * Z) :=
  flat_map
    (fun '(idY, idZ) =>
       map (fun idX => (idX, idY, idZ)) (zrange (ext !!! 0%nat) (ext !!! 1%nat)))
    (spans ext).

(** The clipping of one axis, on the interval itself. *)
Definition clip_interval (wrap : bool) (wlo whi : Z) (st : Z * Z * bool) : Z * Z * bool :=
  let '(lo, hi, hit) := st in
  let '(lo, hi, hit) :=
    if lo <? wlo then
      if wrap then (wlo, whi, hit)
      else if hi <? wlo then (wlo, wlo, false)
      else (wlo, hi, hit)
    else (lo, hi, hit) in
  if whi <? hi then
    if wrap then (wlo, whi, hit)
    else if whi <? lo then ((if whi <? wlo then wlo else whi), whi, false)
    else (lo, whi, hit)
  else (lo, hi, hit).

Lemma clip_axis_interval (wrap : bool) (a0 a1 a2 a3 a4 a5 w0 w1 w2 w3 w4 w5 : Z)
    (hit : bool) :
  let whole := [w0; w1; w2; w3; w4; w5] in
  let inExt := [a0; a1; a2; a3; a4; a5] in
  UpdateExtent.clip_axis wrap whole (inExt, hit) 0
  = (let '(lo, hi, h) := clip_interval wrap w0 w1 (a0, a1, hit) in
     ([lo; hi; a2; a3; a4; a5], h)) /\
  UpdateExtent.clip_axis wrap whole (inExt, hit) 1
  = (let '(lo, hi, h) := clip_interval wrap w2 w3 (a2, a3, hit) in
     ([a0; a1; lo; hi; a4; a5], h)) /\
  UpdateExtent.clip_axis wrap whole (inExt, hit) 2
  = (let '(lo, hi, h) := clip_interval wrap w4 w5 (a4, a5, hit) in
     ([a0; a1; a2; a3; lo; hi], h)).
Proof.
  cbv zeta. unfold UpdateExtent.clip_axis, clip_interval. cbn.
  repeat split; destruct wrap;
    repeat (match goal with
            | |- context [if ?a <? ?b then _ else _] => destruct (a <? b) eqn:?
            end; cbn; try reflexivity; try congruence).
Qed.

Lemma clip_interval_facts (wrap : bool) (wlo whi lo hi : Z) (hit : bool) :
  wlo <= whi ->
  let '(lo', hi', hit') := clip_interval wrap wlo whi (lo, hi, hit) in
  (hit' = false -> hit = false \/ (wrap = false /\ (hi < wlo \/ whi < lo))) /\
  (hit = false -> hit' = false) /\
  (wrap = false -> lo <= hi -> hi < wlo \/ whi < lo ->
     lo' = hi' /\ wlo <= lo' <= whi /\ hit' = false) /\
  (lo <= hi -> lo' <= hi').
Proof.
  intros Hw. unfold clip_interval.
  destruct wrap;
    repeat (match goal with
            | |- context [if ?a <? ?b then _ else _] => destruct (Z.ltb_spec a b)
            end);
    repeat split; intros; subst; try discriminate; try lia; auto.
Qed.

Lemma setpixels_copies (bg : list Scalar) (numscalars n : Z) :
  vtkGetSetPixelsFunc numscalars bg numscalars n
  = concat (replicate (Z.to_nat n) (take (Z.to_nat numscalars) bg)).
Proof.
  unfold vtkGetSetPixelsFunc.
  destruct (Z.eqb_spec numscalars 1) as [-> | _]; [reflexivity |].
  destruct (Z.eqb_spec numscalars 2) as [-> | _]; [reflexivity |].
  destruct (Z.eqb_spec numscalars 3) as [-> | _]; [reflexivity |].
  destruct (Z.eqb_spec numscalars 4) as [-> | _]; reflexivity.
Qed.

Lemma flat_map_const_map {A B C} (px : list C) (f : A -> B) (l : list A) :
  flat_map (fun _ => px) (map f l) = concat (replicate (length l) px).
Proof. induction l as [| a l IH]; cbn; [reflexivity | rewrite IH; reflexivity]. Qed.

Lemma flat_map_nested {A B C} (F : B -> list C) (G : A -> list B) (l : list A) :
  flat_map F (flat_map G l) = flat_map (fun a => flat_map F (G a)) l.
Proof.
  induction l as [| a l IH]; cbn; [reflexivity |].
  rewrite flat_map_app, IH. reflexivity.
Qed.

Lemma length_zrange (lo hi : Z) : length (zrange lo hi) = Z.to_nat (hi - lo + 1).
Proof. unfold zrange. rewrite List.length_map, length_seq. reflexivity. Qed.

Section Miss.

Variable Round : Q -> Z.
Variable GetDataTypeMin : ScalarType -> Q.
Variable GetDataTypeMax : ScalarType -> Q.
Variable heap : Heap.
Variable self : vtkImageReslice.
Variable scalars : vtkDataArray.
Variable interpolator : vtkAbstractImageInterpolator.
Variable outData : vtkImageData.

(** [vtkImageResliceClearExecute] writes the background pixel at every
    voxel of the tile. *)
Lemma clear_fills_tile (outExt : list Z) :
  vtkImageResliceClearExecute Round heap self outData outExt
  = flat_map
      (fun _ =>
         take (Z.to_nat (GetNumberOfScalarComponents outData))
           (background Round heap self (GetScalarType outData)
              (GetNumberOfScalarComponents outData)))
      (tile_voxels outExt).
Proof.
  unfold vtkImageResliceClearExecute, tile_voxels.
  rewrite flat_map_nested.
  apply flat_map_ext; intros [idY idZ].
  rewrite setpixels_copies, flat_map_const_map, length_zrange. reflexivity.
Qed.

(** C2 (as amended): clipping sets [HitInputExtent] to 0 only when, on
    some axis, the computed interval lies entirely outside the whole extent;
    when the whole extent is not empty, the extent kept on every such axis
    is degenerate (lower = upper, inside the whole extent) and no axis is
    inverted; and the thread, given input data that is not empty, then
    writes the background pixel at every voxel of its tile. *)
Theorem miss_keeps_degenerate_extent_and_clears (wrap : bool)
    (lo0 hi0 lo1 hi1 lo2 hi2 w0 w1 w2 w3 w4 w5 : Z) (inDataExt outExt : list Z) :
  let pre := [lo0; hi0; lo1; hi1; lo2; hi2] in
  let whole := [w0; w1; w2; w3; w4; w5] in
  let clipped := UpdateExtent.clip_to_whole_extent wrap whole pre true in
  w0 <= w1 -> w2 <= w3 -> w4 <= w5 ->
  lo0 <= hi0 -> lo1 <= hi1 -> lo2 <= hi2 ->
  snd clipped = false ->
  (exists k, (k < 3)%nat /\ misses pre whole k) /\
  (forall k, (k < 3)%nat -> misses pre whole k ->
     fst clipped !!! (2 * k)%nat = fst clipped !!! (2 * k + 1)%nat /\
     whole !!! (2 * k)%nat <= fst clipped !!! (2 * k)%nat <= whole !!! (2 * k + 1)%nat) /\
  (forall k, (k < 3)%nat ->
     fst clipped !!! (2 * k)%nat <= fst clipped !!! (2 * k + 1)%nat) /\
  (HitInputExtent self = snd clipped -> empty_extent inDataExt = false ->
   ThreadedRequestData Round GetDataTypeMin GetDataTypeMax heap self scalars
     interpolator outData inDataExt outExt
   = flat_map
       (fun _ =>
          take (Z.to_nat (GetNumberOfScalarComponents outData))
            (background Round heap self (GetScalarType outData)
               (GetNumberOfScalarComponents outData)))
       (tile_voxels outExt)).
Proof.
  intros pre whole clipped Hw0 Hw1 Hw2 Hp0 Hp1 Hp2 Hmiss.
  subst clipped. unfold UpdateExtent.clip_to_whole_extent in *.
  cbn [fold_left] in *.
  subst pre whole.
  destruct (clip_axis_interval wrap lo0 hi0 lo1 hi1 lo2 hi2 w0 w1 w2 w3 w4 w5 true)
    as [E0 _].
  cbv zeta in E0. rewrite E0 in *. clear E0.
  pose proof (clip_interval_facts wrap w0 w1 lo0 hi0 true Hw0) as F0.
  destruct (clip_interval wrap w0 w1 (lo0, hi0, true)) as [[a0 a1] h0].
  destruct (clip_axis_interval wrap a0 a1 lo1 hi1 lo2 hi2 w0 w1 w2 w3 w4 w5 h0)
    as [_ [E1 _]].
  cbv zeta in E1. rewrite E1 in *. clear E1.
  pose proof (clip_interval_facts wrap w2 w3 lo1 hi1 h0 Hw1) as F1.
  destruct (clip_interval wrap w2 w3 (lo1, hi1, h0)) as [[a2 a3] h1].
  destruct (clip_axis_interval wrap a0 a1 a2 a3 lo2 hi2 w0 w1 w2 w3 w4 w5 h1)
    as [_ [_ E2]].
  cbv zeta in E2. rewrite E2 in *. clear E2.
  pose proof (clip_interval_facts wrap w4 w5 lo2 hi2 h1 Hw2) as F2.
  destruct (clip_interval wrap w4 w5 (lo2, hi2, h1)) as [[a4 a5] h2].
  cbn [fst snd] in *. subst h2.
  destruct F0 as (F0a & F0b & F0c & F0d).
  destruct F1 as (F1a & F1b & F1c & F1d).
  destruct F2 as (F2a & F2b & F2c & F2d).
  assert (Hwrap : wrap = false).
  { destruct (F2a eq_refl) as [-> | [Hw _]]; [| exact Hw].
    destruct (F1a eq_refl) as [-> | [Hw _]]; [| exact Hw].
    destruct (F0a eq_refl) as [Hc | [Hw _]]; [discriminate | exact Hw]. }
  split; [| split; [| split]].
  - unfold misses.
    destruct (F2a eq_refl) as [-> | [_ Hm]]; [| exists 2%nat; cbn; split; [lia | exact Hm]].
    destruct (F1a eq_refl) as [-> | [_ Hm]]; [| exists 1%nat; cbn; split; [lia | exact Hm]].
    destruct (F0a eq_refl) as [Hc | [_ Hm]]; [discriminate |].
    exists 0%nat; cbn; split; [lia | exact Hm].
  - intros k Hk Hm. unfold misses in Hm.
    destruct k as [| [| [| k]]]; [| | | lia]; cbn in Hm |- *.
    + destruct (F0c Hwrap Hp0 Hm) as (? & ? & ?). lia.
    + destruct (F1c Hwrap Hp1 Hm) as (? & ? & ?). lia.
    + destruct (F2c Hwrap Hp2 Hm) as (? & ? & ?). lia.
  - intros k Hk.
    destruct k as [| [| [| k]]]; [| | | lia]; cbn; auto.
  - intros Hhit Hdata. unfold ThreadedRequestData.
    rewrite Hdata, Hhit. cbn [negb]. apply clear_fills_tile.
Qed.

End Miss.

(** Scenario S3: the request maps 10 voxels beyond an input of extent
    [0,3] along X; background (42, 0, 0, 0) on four 8-bit components. *)
Definition missed_filter : vtkImageReslice :=
  {| SlabNumberOfSlices := 1;
     SlabSliceSpacingFraction := 1;
     GetSlabMode := VTK_IMAGE_SLAB_MEAN;
     SlabTrapezoidIntegration := false;
     BackgroundColor := [42; 0; 0; 0]%Q;
     Border := 1;
     ScalarShift := 0;
     ScalarScale := 1;
     HitInputExtent := false;
     UsePermuteExecute := true;
     IndexMatrix := quarter_shift |}.

Definition rgba_output : vtkImageData :=
  {| GetScalarType := TypeUInt8; GetNumberOfScalarComponents := 4 |}.

(** The theorem at scenario S3. *)
Lemma miss_keeps_degenerate_extent_and_clears_witness :
  let pre := [10; 13; 0; 3; 0; 3] in
  let whole := [0; 3; 0; 3; 0; 3] in
  let clipped := UpdateExtent.clip_to_whole_extent false whole pre true in
  (0 <= 3 /\ 10 <= 13 /\ snd clipped = false) /\
  (exists k, (k < 3)%nat /\ misses pre whole k) /\
  (forall k, (k < 3)%nat -> misses pre whole k ->
     fst clipped !!! (2 * k)%nat = fst clipped !!! (2 * k + 1)%nat /\
     whole !!! (2 * k)%nat <= fst clipped !!! (2 * k)%nat <= whole !!! (2 * k + 1)%nat) /\
  (forall k, (k < 3)%nat ->
     fst clipped !!! (2 * k)%nat <= fst clipped !!! (2 * k + 1)%nat) /\
  (HitInputExtent missed_filter = snd clipped -> empty_extent [3; 3; 0; 3; 0; 3] = false ->
   ThreadedRequestData Round_half_up DataTypeMin DataTypeMax some_heap missed_filter
     column_scalars column_interpolator rgba_output [3; 3; 0; 3; 0; 3] [0; 1; 0; 0; 0; 0]
   = flat_map
       (fun _ =>
          take (Z.to_nat (GetNumberOfScalarComponents rgba_output))
            (background Round_half_up some_heap missed_filter (GetScalarType rgba_output)
               (GetNumberOfScalarComponents rgba_output)))
       (tile_voxels [0; 1; 0; 0; 0; 0])).
Proof.
  split; [repeat split; first [lia | reflexivity] |].
  apply (miss_keeps_degenerate_extent_and_clears Round_half_up DataTypeMin DataTypeMax
           some_heap missed_filter column_scalars column_interpolator rgba_output
           false 10 13 0 3 0 3 0 3 0 3 0 3 [3; 3; 0; 3; 0; 3] [0; 1; 0; 0; 0; 0]);
    first [lia | reflexivity].
Defined.

(** The pass of the witness, evaluated: the extent kept along X is [3,3],
    and both voxels of the tile hold (42, 0, 0, 0). *)
Example missed_tile_is_background :
  UpdateExtent.clip_to_whole_extent false [0; 3; 0; 3; 0; 3] [10; 13; 0; 3; 0; 3] true
    = ([3; 3; 0; 3; 0; 3], false) /\
  ThreadedRequestData Round_half_up DataTypeMin DataTypeMax some_heap missed_filter
    column_scalars column_interpolator rgba_output [3; 3; 0; 3; 0; 3] [0; 1; 0; 0; 0; 0]
  = [IntVal 42; IntVal 0; IntVal 0; IntVal 0; IntVal 42; IntVal 0; IntVal 0; IntVal 0].
Proof. split; vm_compute; reflexivity. Qed.

(** C2 (counterexample): with an empty input whole extent [0,-1] on every
    axis and the computed extent [0,3], clipping sets [HitInputExtent] to 0
    and keeps the extent [0,-1], whose lower bound exceeds the upper one;
    the thread then finds its input extent empty and writes nothing into its
    tile of eight voxels. *)
Lemma empty_whole_extent_keeps_inverted_extent :
  UpdateExtent.clip_to_whole_extent false [0; -1; 0; -1; 0; -1] [0; 3; 0; 3; 0; 3] true
    = ([0; -1; 0; -1; 0; -1], false) /\
  length (tile_voxels [0; 1; 0; 1; 0; 1]) = 8%nat /\
  ThreadedRequestData Round_half_up DataTypeMin DataTypeMax some_heap missed_filter
    column_scalars column_interpolator rgba_output [0; -1; 0; -1; 0; -1] [0; 1; 0; 1; 0; 1]
  = [].
Proof. repeat split; vm_compute; reflexivity. Qed.

End Execute.

(** ** Facts about the update-extent pre-pass *)

Module ExtentFacts.
Import Numeric UpdateExtent.

(** The widening of one axis, on the interval itself. *)
Definition widen_interval (Round : Q -> Z) (Floor : Q -> Z * Q)
    (kernelSize : Z) (pj : Q) (iv : Z * Z) : Z * Z :=
  let '(lo, hi) := iv in
  let extra := Z.quot (kernelSize + 1) 2 - 1 in
  if Z.land kernelSize 1 =? 0 then
    let '(k, f) := Floor pj in
    let lo := if k - extra <? lo then k - extra else lo in
    let k := k + (if Qnonzero f then 1 else 0) in
    (lo, if hi <? k + extra then k + extra else hi)
  else
    let k := Round pj in
    let lo := if k <? lo then k - extra else lo in
    (lo, if hi <? k then k + extra else hi).


Definition axis_fold (Round : Q -> Z) (Floor : Q -> Z * Q) (matrix : vtkMatrix4x4)
    (outExt : list Z) (kernelSize : Z) (j : nat) (corners : list nat) (iv : Z * Z)
    : Z * Z :=
  fold_left
    (fun acc jj =>
       widen_interval Round Floor kernelSize (nth j (corner_point matrix outExt jj) 0%Q) acc)
    corners iv.





Section Facts.

Variable Round : Q -> Z.
Variable Floor : Q -> Z * Q.

Lemma widen_axis_interval (kernelSize : Z) (pj : Q) (a0 a1 a2 a3 a4 a5 : Z) :
  widen_axis Round Floor kernelSize pj 0 [a0; a1; a2; a3; a4; a5]
    = (let '(lo, hi) := widen_interval Round Floor kernelSize pj (a0, a1) in
       [lo; hi; a2; a3; a4; a5]) /\
  widen_axis Round Floor kernelSize pj 1 [a0; a1; a2; a3; a4; a5]
    = (let '(lo, hi) := widen_interval Round Floor kernelSize pj (a2, a3) in
       [a0; a1; lo; hi; a4; a5]) /\
  widen_axis Round Floor kernelSize pj 2 [a0; a1; a2; a3; a4; a5]
    = (let '(lo, hi) := widen_interval Round Floor kernelSize pj (a4, a5) in
       [a0; a1; a2; a3; lo; hi]).
Proof.
  unfold widen_axis, widen_interval.
  generalize (Z.quot (kernelSize + 1) 2 - 1); intros extra.
  destruct (Z.land kernelSize 1 =? 0); [destruct (Floor pj) as [k f] |];
    cbn;
    repeat split;
    repeat (match goal with
            | |- context [if ?a <? ?b then _ else _] => destruct (a <? b) eqn:?
            end; cbn in *; try congruence);
    reflexivity.
Qed.

Lemma widen_corner_intervals (matrix : vtkMatrix4x4) (outExt : list Z)
    (K0 K1 K2 a0 a1 a2 a3 a4 a5 : Z) (jj : nat) :
  let p j := nth j (corner_point matrix outExt jj) 0%Q in
  let i0 := widen_interval Round Floor K0 (p 0%nat) (a0, a1) in
  let i1 := widen_interval Round Floor K1 (p 1%nat) (a2, a3) in
  let i2 := widen_interval Round Floor K2 (p 2%nat) (a4, a5) in
  widen_corner Round Floor matrix [K0; K1; K2] outExt [a0; a1; a2; a3; a4; a5] jj
  = [fst i0; snd i0; fst i1; snd i1; fst i2; snd i2].
Proof.
  intros p i0 i1 i2. subst p i0 i1 i2. unfold widen_corner.
  generalize (corner_point matrix outExt jj); intros point.
  cbn [fold_left].
  change ([K0; K1; K2] !!! 0%nat) with K0.
  change ([K0; K1; K2] !!! 1%nat) with K1.
  change ([K0; K1; K2] !!! 2%nat) with K2.
  destruct (widen_axis_interval K0 (nth 0 point 0%Q) a0 a1 a2 a3 a4 a5) as [E _].
  rewrite E; clear E.
  destruct (widen_interval Round Floor K0 (nth 0 point 0%Q) (a0, a1)) as [l0 h0].
  destruct (widen_axis_interval K1 (nth 1 point 0%Q) l0 h0 a2 a3 a4 a5) as [_ [E _]].
  rewrite E; clear E.
  destruct (widen_interval Round Floor K1 (nth 1 point 0%Q) (a2, a3)) as [l1 h1].
  destruct (widen_axis_interval K2 (nth 2 point 0%Q) l0 h0 l1 h1 a4 a5) as [_ [_ E]].
  rewrite E; clear E.
  destruct (widen_interval Round Floor K2 (nth 2 point 0%Q) (a4, a5)) as [l2 h2].
  reflexivity.
Qed.

Lemma corners_fold_intervals (matrix : vtkMatrix4x4) (outExt : list Z)
    (K0 K1 K2 : Z) (corners : list nat) :
  forall a0 a1 a2 a3 a4 a5 : Z,
  let u0 := axis_fold Round Floor matrix outExt K0 0 corners (a0, a1) in
  let u1 := axis_fold Round Floor matrix outExt K1 1 corners (a2, a3) in
  let u2 := axis_fold Round Floor matrix outExt K2 2 corners (a4, a5) in
  fold_left (widen_corner Round Floor matrix [K0; K1; K2] outExt) corners
    [a0; a1; a2; a3; a4; a5]
  = [fst u0; snd u0; fst u1; snd u1; fst u2; snd u2].
Proof.
  induction corners as [| jj corners IH]; intros a0 a1 a2 a3 a4 a5; cbn zeta.
  - reflexivity.
  - cbn [fold_left]. rewrite widen_corner_intervals. cbv zeta. rewrite IH.
    unfold axis_fold. cbn [fold_left].
    repeat match goal with
           | |- context [widen_interval Round Floor ?K ?p (?a, ?b)] =>
               let l := fresh "l" in let h := fresh "h" in
               destruct (widen_interval Round Floor K p (a, b)) as [l h]
           end.
    reflexivity.
Qed.




Lemma corners_extent_intervals (matrix : vtkMatrix4x4) (K0 K1 K2 ns : Z) (outExt : list Z) :
  let ext := slab_extent ns outExt in
  let u0 := axis_fold Round Floor matrix ext K0 0 (seq 0 8) (VTK_INT_MAX, VTK_INT_MIN) in
  let u1 := axis_fold Round Floor matrix ext K1 1 (seq 0 8) (VTK_INT_MAX, VTK_INT_MIN) in
  let u2 := axis_fold Round Floor matrix ext K2 2 (seq 0 8) (VTK_INT_MAX, VTK_INT_MIN) in
  corners_extent Round Floor matrix [K0; K1; K2] ns outExt
  = [fst u0; snd u0; fst u1; snd u1; fst u2; snd u2].
Proof.
  cbv zeta. unfold corners_extent. apply corners_fold_intervals.
Qed.


Lemma clip_interval_wrap (wlo whi lo hi : Z) (hit : bool) :
  let '(lo', hi', hit') := Execute.clip_interval true wlo whi (lo, hi, hit) in
  hit' = hit /\
  ((wlo <= lo /\ hi <= whi /\ lo' = lo /\ hi' = hi) \/
   ((lo < wlo \/ whi < hi) /\ lo' = wlo /\ hi' = whi)).
Proof.
  unfold Execute.clip_interval.
  repeat (match goal with
          | |- context [if ?a <? ?b then _ else _] => destruct (Z.ltb_spec a b)
          end);
    (split; [reflexivity |]); lia.
Qed.

(** The clipping of all three axes, on the intervals. *)
Lemma clip_to_whole_intervals (wrap : bool)
    (a0 a1 a2 a3 a4 a5 w0 w1 w2 w3 w4 w5 : Z) :
  clip_to_whole_extent wrap [w0; w1; w2; w3; w4; w5] [a0; a1; a2; a3; a4; a5] true
  = (let '(l0, h0, t0) := Execute.clip_interval wrap w0 w1 (a0, a1, true) in
     let '(l1, h1, t1) := Execute.clip_interval wrap w2 w3 (a2, a3, t0) in
     let '(l2, h2, t2) := Execute.clip_interval wrap w4 w5 (a4, a5, t1) in
     ([l0; h0; l1; h1; l2; h2], t2)).
Proof.
  unfold clip_to_whole_extent. cbn [fold_left].
  destruct (Execute.clip_axis_interval wrap a0 a1 a2 a3 a4 a5 w0 w1 w2 w3 w4 w5 true)
    as [E _].
  cbv zeta in E. rewrite E. clear E.
  destruct (Execute.clip_interval wrap w0 w1 (a0, a1, true)) as [[l0 h0] t0].
  destruct (Execute.clip_axis_interval wrap l0 h0 a2 a3 a4 a5 w0 w1 w2 w3 w4 w5 t0)
    as [_ [E _]].
  cbv zeta in E. rewrite E. clear E.
  destruct (Execute.clip_interval wrap w2 w3 (a2, a3, t0)) as [[l1 h1] t1].
  destruct (Execute.clip_axis_interval wrap l0 h0 l1 h1 a4 a5 w0 w1 w2 w3 w4 w5 t1)
    as [_ [_ E]].
  cbv zeta in E. rewrite E. reflexivity.
Qed.


(** X2: with wrap or mirror on and a homogeneous (or no) transform,
    [HitInputExtent] stays 1, and on every axis the input update extent is
    the computed interval when that lies inside the whole extent, and the
    complete whole extent as soon as it sticks out on either side. *)
Theorem wrap_requests_whole_axis (r : Request) (w0 w1 w2 w3 w4 w5 K0 K1 K2 : Z) :
  inWholeExtent r = [w0; w1; w2; w3; w4; w5] ->
  supportSize r = [K0; K1; K2] ->
  ResliceTransform r <> Some Nonlinear ->
  Wrap r || Mirror r = true ->
  let pre :=
    corners_extent Round Floor (IndexMatrix r) [K0; K1; K2] (SlabNumberOfSlices r)
      (outUpdateExtent r) in
  let whole := [w0; w1; w2; w3; w4; w5] in
  let inExt := fst (RequestUpdateExtent Round Floor r) in
  snd (RequestUpdateExtent Round Floor r) = true /\
  forall k, (k < 3)%nat ->
    (whole !!! (2 * k)%nat <= pre !!! (2 * k)%nat /\
     pre !!! (2 * k + 1)%nat <= whole !!! (2 * k + 1)%nat /\
     inExt !!! (2 * k)%nat = pre !!! (2 * k)%nat /\
     inExt !!! (2 * k + 1)%nat = pre !!! (2 * k + 1)%nat) \/
    ((pre !!! (2 * k)%nat < whole !!! (2 * k)%nat \/
      whole !!! (2 * k + 1)%nat < pre !!! (2 * k + 1)%nat) /\
     inExt !!! (2 * k)%nat = whole !!! (2 * k)%nat /\
     inExt !!! (2 * k + 1)%nat = whole !!! (2 * k + 1)%nat).
Proof.
  intros Hwhole Hsupp Hlin Hwrap pre whole inExt.
  subst pre whole inExt. unfold RequestUpdateExtent.
  rewrite Hwhole, Hsupp, Hwrap.
  assert (Hcase :
    match ResliceTransform r with
    | Some Nonlinear => ([w0; w1; w2; w3; w4; w5], true)
    | _ =>
        clip_to_whole_extent true [w0; w1; w2; w3; w4; w5]
          (corners_extent Round Floor (IndexMatrix r) [K0; K1; K2]
             (SlabNumberOfSlices r) (outUpdateExtent r)) true
    end
    = clip_to_whole_extent true [w0; w1; w2; w3; w4; w5]
        (corners_extent Round Floor (IndexMatrix r) [K0; K1; K2]
           (SlabNumberOfSlices r) (outUpdateExtent r)) true).
  { destruct (ResliceTransform r) as [[ | ] | ]; try reflexivity.
    exfalso; apply Hlin; reflexivity. }
  rewrite Hcase; clear Hcase.
  rewrite corners_extent_intervals; cbv zeta.
  rewrite clip_to_whole_intervals.
  repeat match goal with
         | |- context [axis_fold Round Floor ?m ?e ?K ?j ?c ?i] =>
             let l := fresh "a" in let h := fresh "b" in
             destruct (axis_fold Round Floor m e K j c i) as [l h]
         end.
  cbn [fst snd].
  pose proof (clip_interval_wrap w0 w1 a b true) as C0.
  destruct (Execute.clip_interval true w0 w1 (a, b, true)) as [[l0 h0] t0].
  pose proof (clip_interval_wrap w2 w3 a0 b0 t0) as C1.
  destruct (Execute.clip_interval true w2 w3 (a0, b0, t0)) as [[l1 h1] t1].
  pose proof (clip_interval_wrap w4 w5 a1 b1 t1) as C2.
  destruct (Execute.clip_interval true w4 w5 (a1, b1, t1)) as [[l2 h2] t2].
  cbn [fst snd].
  destruct C0 as [-> C0], C1 as [-> C1], C2 as [-> C2].
  split; [reflexivity |].
  intros k Hk. destruct k as [| [| [| k]]]; [| | | lia]; cbn; lia.
Qed.


End Facts.

Definition sample_request : Request :=
  {| ResliceTransform := None;
     Wrap := false;
     Mirror := true;
     SlabNumberOfSlices := 3;
     IndexMatrix := [ [1; 0; 0; 5 # 2]; [0; 2; 0; -7]; [0; 0; 1; 0]; [0; 0; 0; 1] ]%Q;
     supportSize := [2; 4; 1];
     outUpdateExtent := [0; 3; 0; 3; 0; 3];
     inWholeExtent := [0; 3; 0; 3; 0; 3] |}.


(** The theorem at the same request. *)
Lemma wrap_requests_whole_axis_witness :
  let r := sample_request in
  let pre :=
    corners_extent Round_half_up Floor_with_fraction (IndexMatrix r) [2; 4; 1]
      (SlabNumberOfSlices r) (outUpdateExtent r) in
  let whole := [0; 3; 0; 3; 0; 3] in
  let inExt := fst (RequestUpdateExtent Round_half_up Floor_with_fraction r) in
  snd (RequestUpdateExtent Round_half_up Floor_with_fraction r) = true /\
  forall k, (k < 3)%nat ->
    (whole !!! (2 * k)%nat <= pre !!! (2 * k)%nat /\
     pre !!! (2 * k + 1)%nat <= whole !!! (2 * k + 1)%nat /\
     inExt !!! (2 * k)%nat = pre !!! (2 * k)%nat /\
     inExt !!! (2 * k + 1)%nat = pre !!! (2 * k + 1)%nat) \/
    ((pre !!! (2 * k)%nat < whole !!! (2 * k)%nat \/
      whole !!! (2 * k + 1)%nat < pre !!! (2 * k + 1)%nat) /\
     inExt !!! (2 * k)%nat = whole !!! (2 * k)%nat /\
     inExt !!! (2 * k + 1)%nat = whole !!! (2 * k + 1)%nat).
Proof.
  apply (wrap_requests_whole_axis Round_half_up Floor_with_fraction sample_request
           0 3 0 3 0 3 2 4 1); first [reflexivity | discriminate].
Defined.


(** The request of the witnesses, evaluated: every computed interval sticks
    out of [0, 3], so under mirror every axis is requested whole. *)
Example sample_request_extent :
  corners_extent Round_half_up Floor_with_fraction (IndexMatrix sample_request)
    [2; 4; 1] 3 [0; 3; 0; 3; 0; 3] = [2; 6; -8; 0; -2; 5] /\
  RequestUpdateExtent Round_half_up Floor_with_fraction sample_request
    = ([0; 3; 0; 3; 0; 3], true).
Proof. split; vm_compute; reflexivity. Qed.

End ExtentFacts.

(** ** The output-geometry and reslice-axes setters *)

Module Setters.
Import Numeric.

(** The members the setters read and write.  [ModifiedCount] counts the
    calls of [Modified()]. *)
Record vtkImageReslice := {
  OutputSpacing : list Q;
  ComputeOutputSpacing : bool;
  OutputDirection : list Q;
  PassDirectionToOutput : bool;
  OutputOrigin : list Q;
  ComputeOutputOrigin : bool;
  OutputExtent : list Z;
  ComputeOutputExtent : bool;
  ResliceAxes : option vtkMatrix4x4;
  ModifiedCount : N
}.

Definition Modified (self : vtkImageReslice) : vtkImageReslice :=
  {| OutputSpacing := OutputSpacing self;
     ComputeOutputSpacing := ComputeOutputSpacing self;
     OutputDirection := OutputDirection self;
     PassDirectionToOutput := PassDirectionToOutput self;
     OutputOrigin := OutputOrigin self;
     ComputeOutputOrigin := ComputeOutputOrigin self;
     OutputExtent := OutputExtent self;
     ComputeOutputExtent := ComputeOutputExtent self;
     ResliceAxes := ResliceAxes self;
     ModifiedCount := (ModifiedCount self + 1)%N |}.

Definition with_spacing (s : list Q) (c : bool) (self : vtkImageReslice) : vtkImageReslice :=
  {| OutputSpacing := s;
     ComputeOutputSpacing := c;
     OutputDirection := OutputDirection self;
     PassDirectionToOutput := PassDirectionToOutput self;
     OutputOrigin := OutputOrigin self;
     ComputeOutputOrigin := ComputeOutputOrigin self;
     OutputExtent := OutputExtent self;
     ComputeOutputExtent := ComputeOutputExtent self;
     ResliceAxes := ResliceAxes self;
     ModifiedCount := ModifiedCount self |}.

Definition with_direction (d : list Q) (c : bool) (self : vtkImageReslice) : vtkImageReslice :=
  {| OutputSpacing := OutputSpacing self;
     ComputeOutputSpacing := ComputeOutputSpacing self;
     OutputDirection := d;
     PassDirectionToOutput := c;
     OutputOrigin := OutputOrigin self;
     ComputeOutputOrigin := ComputeOutputOrigin self;
     OutputExtent := OutputExtent self;
     ComputeOutputExtent := ComputeOutputExtent self;
     ResliceAxes := ResliceAxes self;
     ModifiedCount := ModifiedCount self |}.

Definition with_origin (o : list Q) (c : bool) (self : vtkImageReslice) : vtkImageReslice :=
  {| OutputSpacing := OutputSpacing self;
     ComputeOutputSpacing := ComputeOutputSpacing self;
     OutputDirection := OutputDirection self;
     PassDirectionToOutput := PassDirectionToOutput self;
     OutputOrigin := o;
     ComputeOutputOrigin := c;
     OutputExtent := OutputExtent self;
     ComputeOutputExtent := ComputeOutputExtent self;
     ResliceAxes := ResliceAxes self;
     ModifiedCount := ModifiedCount self |}.

Definition with_extent (e : list Z) (c : bool) (self : vtkImageReslice) : vtkImageReslice :=
  {| OutputSpacing := OutputSpacing self;
     ComputeOutputSpacing := ComputeOutputSpacing self;
     OutputDirection := OutputDirection self;
     PassDirectionToOutput := PassDirectionToOutput self;
     OutputOrigin := OutputOrigin self;
     ComputeOutputOrigin := ComputeOutputOrigin self;
     OutputExtent := e;
     ComputeOutputExtent := c;
     ResliceAxes := ResliceAxes self;
     ModifiedCount := ModifiedCount self |}.

Definition with_axes (m : option vtkMatrix4x4) (self : vtkImageReslice) : vtkImageReslice :=
  {| OutputSpacing := OutputSpacing self;
     ComputeOutputSpacing := ComputeOutputSpacing self;
     OutputDirection := OutputDirection self;
     PassDirectionToOutput := PassDirectionToOutput self;
     OutputOrigin := OutputOrigin self;
     ComputeOutputOrigin := ComputeOutputOrigin self;
     OutputExtent := OutputExtent self;
     ComputeOutputExtent := ComputeOutputExtent self;
     ResliceAxes := m;
     ModifiedCount := ModifiedCount self |}.

(** [a[0] != x0 || a[1] != x1 || ...] *)
Fixpoint differs (a x : list Q) (i : nat) : bool :=
  match x with
  | [] => false
  | xi :: rest => negb (Qeq_bool (nth i a 0%Q) xi) || differs a rest (S i)
  end.

Fixpoint differsZ (a x : list Z) (i : nat) : bool :=
  match x with
  | [] => false
  | xi :: rest => negb (nth i a 0 =? xi) || differsZ a rest (S i)
  end.

Definition identity9 : list Q := [1; 0; 0; 0; 1; 0; 0; 0; 1]%Q.

Definition SetOutputSpacing (x y z : Q) (self : vtkImageReslice) : vtkImageReslice :=
  let self :=
    if differs (OutputSpacing self) [x; y; z] 0
    then Modified (with_spacing [x; y; z] (ComputeOutputSpacing self) self)
    else if ComputeOutputSpacing self then Modified self else self in
  with_spacing (OutputSpacing self) false self.

Definition SetOutputSpacingToDefault (self : vtkImageReslice) : vtkImageReslice :=
  if negb (ComputeOutputSpacing self)
  then Modified (with_spacing [1; 1; 1]%Q true self)
  else self.

Definition SetOutputDirection (xx xy xz yx yy yz zx zy zz : Q)
    (self : vtkImageReslice) : vtkImageReslice :=
  let d := [xx; xy; xz; yx; yy; yz; zx; zy; zz] in
  let self :=
    if differs (OutputDirection self) d 0
    then Modified (with_direction d (PassDirectionToOutput self) self)
    else if PassDirectionToOutput self then Modified self else self in
  with_direction (OutputDirection self) false self.

Definition SetOutputDirectionToDefault (self : vtkImageReslice) : vtkImageReslice :=
  if negb (PassDirectionToOutput self)
  then Modified (with_direction identity9 true self)
  else self.

Definition SetOutputOrigin (x y z : Q) (self : vtkImageReslice) : vtkImageReslice :=
  let self :=
    if differs (OutputOrigin self) [x; y; z] 0
    then Modified (with_origin [x; y; z] (ComputeOutputOrigin self) self)
    else if ComputeOutputOrigin self then Modified self else self in
  with_origin (OutputOrigin self) false self.

Definition SetOutputOriginToDefault (self : vtkImageReslice) : vtkImageReslice :=
  if negb (ComputeOutputOrigin self)
  then Modified (with_origin [0; 0; 0]%Q true self)
  else self.

Definition SetOutputExtent (a b c d e f : Z) (self : vtkImageReslice) : vtkImageReslice :=
  let self :=
    if differsZ (OutputExtent self) [a; b; c; d; e; f] 0
    then Modified (with_extent [a; b; c; d; e; f] (ComputeOutputExtent self) self)
    else if ComputeOutputExtent self then Modified self else self in
  with_extent (OutputExtent self) false self.

Definition SetOutputExtentToDefault (self : vtkImageReslice) : vtkImageReslice :=
  if negb (ComputeOutputExtent self)
  then Modified (with_extent [0; 0; 0; 0; 0; 0] true self)
  else self.

(** The constructor, for the members above. *)
Definition constructed : vtkImageReslice :=
  {| OutputSpacing := [1; 1; 1]%Q;
     ComputeOutputSpacing := true;
     OutputDirection := identity9;
     PassDirectionToOutput := true;
     OutputOrigin := [0; 0; 0]%Q;
     ComputeOutputOrigin := true;
     OutputExtent := [0; 0; 0; 0; 0; 0];
     ComputeOutputExtent := true;
     ResliceAxes := None;
     ModifiedCount := 0%N |}.

(** Modelled from the spec: [vtkMatrix4x4::New] is the identity and
    [SetElement] replaces one element; the matrix class is outside the
    sources at hand. *)
Definition Identity4x4 : vtkMatrix4x4 :=
  [ [1; 0; 0; 0]; [0; 1; 0; 0]; [0; 0; 1; 0]; [0; 0; 0; 1] ]%Q.

Definition SetElement (m : vtkMatrix4x4) (i j : nat) (v : Q) : vtkMatrix4x4 :=
  <[i := <[j := v]> (nth i m [])]> m.

(** [vtkCxxSetObjectMacro(vtkImageReslice, ResliceAxes, vtkMatrix4x4)] on a
    matrix that is not the one held. *)
Definition SetResliceAxes (m : vtkMatrix4x4) (self : vtkImageReslice) : vtkImageReslice :=
  Modified (with_axes (Some m) self).

(** The reslice axes after the matrix was created on demand. *)
Definition ensure_axes (self : vtkImageReslice) : vtkImageReslice * vtkMatrix4x4 :=
  match ResliceAxes self with
  | Some m => (self, m)
  | None => (Modified (SetResliceAxes Identity4x4 self), Identity4x4)
  end.

Definition SetResliceAxesDirectionCosines (x0 x1 x2 y0 y1 y2 z0 z1 z2 : Q)
    (self : vtkImageReslice) : vtkImageReslice :=
  let '(self, m) := ensure_axes self in
  let m := SetElement m 0 0 x0 in
  let m := SetElement m 1 0 x1 in
  let m := SetElement m 2 0 x2 in
  let m := SetElement m 3 0 0 in
  let m := SetElement m 0 1 y0 in
  let m := SetElement m 1 1 y1 in
  let m := SetElement m 2 1 y2 in
  let m := SetElement m 3 1 0 in
  let m := SetElement m 0 2 z0 in
  let m := SetElement m 1 2 z1 in
  let m := SetElement m 2 2 z2 in
  let m := SetElement m 3 2 0 in
  with_axes (Some m) self.

(** [GetResliceAxesDirectionCosines(xdircos, ydircos, zdircos)] *)
Definition GetResliceAxesDirectionCosines (self : vtkImageReslice)
    : list Q * list Q * list Q :=
  match ResliceAxes self with
  | None => ([1; 0; 0], [0; 1; 0], [0; 0; 1])%Q
  | Some m =>
      (map (fun i => GetElement m i 0) [0; 1; 2]%nat,
       map (fun i => GetElement m i 1) [0; 1; 2]%nat,
       map (fun i => GetElement m i 2) [0; 1; 2]%nat)
  end.

Definition SetResliceAxesOrigin (x y z : Q) (self : vtkImageReslice) : vtkImageReslice :=
  let '(self, m) := ensure_axes self in
  let m := SetElement m 0 3 x in
  let m := SetElement m 1 3 y in
  let m := SetElement m 2 3 z in
  let m := SetElement m 3 3 1 in
  with_axes (Some m) self.

Definition GetResliceAxesOrigin (self : vtkImageReslice) : list Q :=
  match ResliceAxes self with
  | None => [0; 0; 0]%Q
  | Some m => map (fun i => GetElement m i 3) [0; 1; 2]%nat
  end.

(** The calls a user can make on the output geometry. *)
Inductive Call :=
| CallSetOutputSpacing (x y z : Q)
| CallSetOutputSpacingToDefault
| CallSetOutputDirection (xx xy xz yx yy yz zx zy zz : Q)
| CallSetOutputDirectionToDefault
| CallSetOutputOrigin (x y z : Q)
| CallSetOutputOriginToDefault
| CallSetOutputExtent (a b c d e f : Z)
| CallSetOutputExtentToDefault
| CallSetResliceAxesDirectionCosines (x0 x1 x2 y0 y1 y2 z0 z1 z2 : Q)
| CallSetResliceAxesOrigin (x y z : Q).

Definition call (self : vtkImageReslice) (c : Call) : vtkImageReslice :=
  match c with
  | CallSetOutputSpacing x y z => SetOutputSpacing x y z self
  | CallSetOutputSpacingToDefault => SetOutputSpacingToDefault self
  | CallSetOutputDirection xx xy xz yx yy yz zx zy zz =>
      SetOutputDirection xx xy xz yx yy yz zx zy zz self
  | CallSetOutputDirectionToDefault => SetOutputDirectionToDefault self
  | CallSetOutputOrigin x y z => SetOutputOrigin x y z self
  | CallSetOutputOriginToDefault => SetOutputOriginToDefault self
  | CallSetOutputExtent a b c d e f => SetOutputExtent a b c d e f self
  | CallSetOutputExtentToDefault => SetOutputExtentToDefault self
  | CallSetResliceAxesDirectionCosines x0 x1 x2 y0 y1 y2 z0 z1 z2 =>
      SetResliceAxesDirectionCosines x0 x1 x2 y0 y1 y2 z0 z1 z2 self
  | CallSetResliceAxesOrigin x y z => SetResliceAxesOrigin x y z self
  end.

Definition calls (l : list Call) : vtkImageReslice := fold_left call l constructed.

(** A 4x4 matrix has four rows of four elements. *)
Definition is4x4 (m : vtkMatrix4x4) : Prop :=
  length m = 4%nat /\ Forall (fun row => length row = 4%nat) m.

(** The members hold their defaults whenever they are to be computed. *)
Definition defaults_when_computed (self : vtkImageReslice) : Prop :=
  (ComputeOutputSpacing self = true -> OutputSpacing self = [1; 1; 1]%Q) /\
  (PassDirectionToOutput self = true -> OutputDirection self = identity9) /\
  (ComputeOutputOrigin self = true -> OutputOrigin self = [0; 0; 0]%Q) /\
  (ComputeOutputExtent self = true -> OutputExtent self = [0; 0; 0; 0; 0; 0]) /\
  match ResliceAxes self with Some m => is4x4 m | None => True end.

Lemma differs_same (x : list Q) : forall (pre : list Q),
  differs (pre ++ x) x (length pre) = false.
Proof.
  induction x as [| xi rest IH]; intros pre; cbn [differs]; [reflexivity |].
  rewrite app_nth2 by lia. rewrite Nat.sub_diag. cbn [nth].
  rewrite (proj2 (Qeq_bool_iff xi xi) (Qeq_refl xi)). cbn [negb orb].
  specialize (IH (pre ++ [xi])). rewrite <- app_assoc, length_app in IH.
  cbn in IH. rewrite Nat.add_1_r in IH. exact IH.
Qed.

Lemma differsZ_same (x : list Z) : forall (pre : list Z),
  differsZ (pre ++ x) x (length pre) = false.
Proof.
  induction x as [| xi rest IH]; intros pre; cbn [differsZ]; [reflexivity |].
  rewrite app_nth2 by lia. rewrite Nat.sub_diag. cbn [nth].
  rewrite Z.eqb_refl. cbn [negb orb].
  specialize (IH (pre ++ [xi])). rewrite <- app_assoc, length_app in IH.
  cbn in IH. rewrite Nat.add_1_r in IH. exact IH.
Qed.

(** X5: setting the output spacing, direction, origin or extent a second
    time to the same values changes nothing: no member is rewritten and
    [Modified()] is not called again, so the filter does not re-execute. *)
Theorem output_setters_idempotent (self : vtkImageReslice)
    (x y z xx xy xz yx yy yz zx zy zz : Q) (a b c e f g : Z) :
  SetOutputSpacing x y z (SetOutputSpacing x y z self) = SetOutputSpacing x y z self /\
  SetOutputDirection xx xy xz yx yy yz zx zy zz
      (SetOutputDirection xx xy xz yx yy yz zx zy zz self)
    = SetOutputDirection xx xy xz yx yy yz zx zy zz self /\
  SetOutputOrigin x y z (SetOutputOrigin x y z self) = SetOutputOrigin x y z self /\
  SetOutputExtent a b c e f g (SetOutputExtent a b c e f g self)
    = SetOutputExtent a b c e f g self.
Proof.
  pose proof (differs_same [x; y; z] []) as Hxyz.
  pose proof (differsZ_same [a; b; c; e; f; g] []) as Hext.
  pose proof (differs_same [xx; xy; xz; yx; yy; yz; zx; zy; zz] []) as Hd.
  cbn [app length] in Hxyz, Hext, Hd.
  repeat split.
  - unfold SetOutputSpacing at 2 3.
    destruct (differs (OutputSpacing self) [x; y; z] 0) eqn:E.
    + unfold SetOutputSpacing. cbn [OutputSpacing ComputeOutputSpacing with_spacing Modified].
      rewrite Hxyz. reflexivity.
    + destruct (ComputeOutputSpacing self) eqn:C;
        unfold SetOutputSpacing; cbn [OutputSpacing ComputeOutputSpacing with_spacing Modified];
        rewrite E; reflexivity.
  - unfold SetOutputDirection at 2 3.
    destruct (differs (OutputDirection self) [xx; xy; xz; yx; yy; yz; zx; zy; zz] 0) eqn:E.
    + unfold SetOutputDirection. cbn [OutputDirection PassDirectionToOutput
        with_direction Modified]. rewrite Hd. reflexivity.
    + destruct (PassDirectionToOutput self) eqn:C;
        unfold SetOutputDirection; cbn [OutputDirection PassDirectionToOutput
          with_direction Modified]; rewrite E; reflexivity.
  - unfold SetOutputOrigin at 2 3.
    destruct (differs (OutputOrigin self) [x; y; z] 0) eqn:E.
    + unfold SetOutputOrigin. cbn [OutputOrigin ComputeOutputOrigin with_origin Modified].
      rewrite Hxyz. reflexivity.
    + destruct (ComputeOutputOrigin self) eqn:C;
        unfold SetOutputOrigin; cbn [OutputOrigin ComputeOutputOrigin with_origin Modified];
        rewrite E; reflexivity.
  - unfold SetOutputExtent at 2 3.
    destruct (differsZ (OutputExtent self) [a; b; c; e; f; g] 0) eqn:E.
    + unfold SetOutputExtent. cbn [OutputExtent ComputeOutputExtent with_extent Modified].
      rewrite Hext. reflexivity.
    + destruct (ComputeOutputExtent self) eqn:C;
        unfold SetOutputExtent; cbn [OutputExtent ComputeOutputExtent with_extent Modified];
        rewrite E; reflexivity.
Qed.

Definition axes_ok (self : vtkImageReslice) : Prop :=
  match ResliceAxes self with Some m => is4x4 m | None => True end.

Lemma is4x4_shape (m : vtkMatrix4x4) :
  is4x4 m ->
  exists a0 a1 a2 a3 b0 b1 b2 b3 c0 c1 c2 c3 d0 d1 d2 d3 : Q,
    m = [ [a0; a1; a2; a3]; [b0; b1; b2; b3]; [c0; c1; c2; c3]; [d0; d1; d2; d3] ].
Proof.
  intros [Hlen Hrows].
  destruct m as [| r0 [| r1 [| r2 [| r3 [| ? ?]]]]]; try discriminate Hlen.
  inversion Hrows as [| ? ? H0 Hr1]; subst.
  inversion Hr1 as [| ? ? H1 Hr2]; subst.
  inversion Hr2 as [| ? ? H2 Hr3]; subst.
  inversion Hr3 as [| ? ? H3 _]; subst.
  destruct r0 as [| a0 [| a1 [| a2 [| a3 [| ? ?]]]]]; try discriminate H0.
  destruct r1 as [| b0 [| b1 [| b2 [| b3 [| ? ?]]]]]; try discriminate H1.
  destruct r2 as [| c0 [| c1 [| c2 [| c3 [| ? ?]]]]]; try discriminate H2.
  destruct r3 as [| d0 [| d1 [| d2 [| d3 [| ? ?]]]]]; try discriminate H3.
  repeat eexists.
Qed.

Lemma is4x4_literal (a0 a1 a2 a3 b0 b1 b2 b3 c0 c1 c2 c3 d0 d1 d2 d3 : Q) :
  is4x4 [ [a0; a1; a2; a3]; [b0; b1; b2; b3]; [c0; c1; c2; c3]; [d0; d1; d2; d3] ].
Proof. split; [reflexivity | repeat constructor]. Qed.

Lemma call_keeps_defaults (self : vtkImageReslice) (c : Call) :
  defaults_when_computed self -> defaults_when_computed (call self c).
Proof.
  intros (Hs & Hd & Ho & He & Ha).
  destruct c; cbn [call].
  - unfold SetOutputSpacing.
    destruct (differs _ _ _); [| destruct (ComputeOutputSpacing self)];
      repeat split; cbn; auto; discriminate.
  - unfold SetOutputSpacingToDefault.
    destruct (ComputeOutputSpacing self) eqn:C; cbn [negb];
      repeat split; cbn; auto.
  - unfold SetOutputDirection.
    destruct (differs _ _ _); [| destruct (PassDirectionToOutput self)];
      repeat split; cbn; auto; discriminate.
  - unfold SetOutputDirectionToDefault.
    destruct (PassDirectionToOutput self) eqn:C; cbn [negb];
      repeat split; cbn; auto.
  - unfold SetOutputOrigin.
    destruct (differs _ _ _); [| destruct (ComputeOutputOrigin self)];
      repeat split; cbn; auto; discriminate.
  - unfold SetOutputOriginToDefault.
    destruct (ComputeOutputOrigin self) eqn:C; cbn [negb];
      repeat split; cbn; auto.
  - unfold SetOutputExtent.
    destruct (differsZ _ _ _); [| destruct (ComputeOutputExtent self)];
      repeat split; cbn; auto; discriminate.
  - unfold SetOutputExtentToDefault.
    destruct (ComputeOutputExtent self) eqn:C; cbn [negb];
      repeat split; cbn; auto.
  - unfold SetResliceAxesDirectionCosines, ensure_axes.
    destruct (ResliceAxes self) as [m |] eqn:E.
    + destruct (is4x4_shape m Ha) as (a0 & a1 & a2 & a3 & b0 & b1 & b2 & b3 &
        c0 & c1 & c2 & c3 & d0 & d1 & d2 & d3 & ->).
      repeat split; cbn; auto; repeat constructor.
    + repeat split; cbn; auto; repeat constructor.
  - unfold SetResliceAxesOrigin, ensure_axes.
    destruct (ResliceAxes self) as [m |] eqn:E.
    + destruct (is4x4_shape m Ha) as (a0 & a1 & a2 & a3 & b0 & b1 & b2 & b3 &
        c0 & c1 & c2 & c3 & d0 & d1 & d2 & d3 & ->).
      repeat split; cbn; auto; repeat constructor.
    + repeat split; cbn; auto; repeat constructor.
Qed.

(** X6: however the output-geometry and reslice-axes setters are called
    after construction, a member whose "compute" flag is on holds its default
    value (spacing 1, identity direction, origin 0, extent 0), and the reslice
    axes, once created, are a 4x4 matrix. *)
Theorem computed_members_hold_defaults (l : list Call) :
  defaults_when_computed (calls l).
Proof.
  unfold calls.
  assert (H0 : defaults_when_computed constructed)
    by (repeat split; reflexivity).
  revert H0. generalize constructed as self.
  induction l as [| c l IH]; intros self H; cbn [fold_left]; [exact H |].
  apply IH, call_keeps_defaults, H.
Qed.

(** X7: the direction cosines and the origin of the reslice axes are read
    back as they were set, and setting the one leaves the other as it was;
    when no axes were set, the identity and the zero origin are read. *)
Theorem reslice_axes_round_trip (self : vtkImageReslice)
    (x0 x1 x2 y0 y1 y2 z0 z1 z2 x y z : Q) :
  axes_ok self ->
  let cosines := SetResliceAxesDirectionCosines x0 x1 x2 y0 y1 y2 z0 z1 z2 self in
  let moved := SetResliceAxesOrigin x y z self in
  GetResliceAxesDirectionCosines cosines = ([x0; x1; x2], [y0; y1; y2], [z0; z1; z2]) /\
  GetResliceAxesOrigin cosines = GetResliceAxesOrigin self /\
  GetResliceAxesOrigin moved = [x; y; z] /\
  GetResliceAxesDirectionCosines moved = GetResliceAxesDirectionCosines self /\
  axes_ok cosines /\ axes_ok moved.
Proof.
  unfold axes_ok, SetResliceAxesDirectionCosines, SetResliceAxesOrigin, ensure_axes,
    GetResliceAxesDirectionCosines, GetResliceAxesOrigin.
  destruct (ResliceAxes self) as [m |] eqn:E; intros Hm.
  - destruct (is4x4_shape m Hm) as (a0 & a1 & a2 & a3 & b0 & b1 & b2 & b3 &
      c0 & c1 & c2 & c3 & d0 & d1 & d2 & d3 & ->).
    cbn. repeat split; try reflexivity; repeat constructor.
  - cbn. repeat split; try reflexivity; repeat constructor.
Qed.

Definition oblique_state : vtkImageReslice :=
  calls [CallSetOutputSpacing (1 # 2) (1 # 2) 2;
         CallSetResliceAxesOrigin 10 20 30;
         CallSetOutputSpacingToDefault].

Lemma reslice_axes_round_trip_witness :
  axes_ok oblique_state /\
  GetResliceAxesDirectionCosines
    (SetResliceAxesDirectionCosines 0 1 0 (-1) 0 0 0 0 1 oblique_state)
    = ([0; 1; 0], [-1; 0; 0], [0; 0; 1])%Q /\
  GetResliceAxesOrigin
    (SetResliceAxesDirectionCosines 0 1 0 (-1) 0 0 0 0 1 oblique_state)
    = [10; 20; 30]%Q.
Proof.
  split; [apply is4x4_literal |].
  pose proof (reslice_axes_round_trip oblique_state 0 1 0 (-1) 0 0 0 0 1 1 2 3
                (is4x4_literal _ _ _ _ _ _ _ _ _ _ _ _ _ _ _ _)) as H.
  cbv zeta in H. destruct H as (H1 & H2 & _). split; [exact H1 | exact H2].
Defined.

(** The state reached above: the spacing is back at its default, the axes
    hold the origin, and [Modified()] was called four times (once for the
    spacing, twice on creating the axes, once for the default). *)
Example oblique_state_members :
  OutputSpacing oblique_state = [1; 1; 1]%Q /\
  ComputeOutputSpacing oblique_state = true /\
  GetResliceAxesOrigin oblique_state = [10; 20; 30]%Q /\
  ModifiedCount oblique_state = 4%N.
Proof. repeat split. Qed.

End Setters.

(** ** The slab compositors of the two execute paths *)

Module CompositeFacts.
Import Numeric Convert Slab.

(** Sample [k] of component [c] in a slab buffer of [numscalars]
    components. *)
Definition sample (inPtr : list Q) (numscalars c k : nat) : Q :=
  nth (c + k * numscalars) inPtr 0%Q.

(** What the loops over the samples [s 0 .. s (n-1)] of one component
    compute, as folds. *)
Definition select_of (op : Q -> Q -> Q) (s : nat -> Q) (n : nat) : Q :=
  fold_left op (map s (seq 1 (n - 1))) (s 0%nat).

Definition trap_of (s : nat -> Q) (n : nat) : Q :=
  (fold_left Qplus (map s (seq 1 (n - 2))) (s 0%nat * (1 # 2)) + s (n - 1)%nat * (1 # 2))%Q.

(** The value the slab compositor chosen by [vtkGetCompositeFunc] leaves
    for a component with samples [s]. *)
Definition composite_of (slabMode : SlabMode) (trpz : bool) (s : nat -> Q) (n : nat) : Q :=
  match slabMode with
  | VTK_IMAGE_SLAB_MIN => select_of smaller s n
  | VTK_IMAGE_SLAB_MAX => select_of larger s n
  | VTK_IMAGE_SLAB_MEAN =>
      if trpz then (trap_of s n * (1 / inject_Z (Z.of_nat n - 1)))%Q
      else (select_of Qplus s n * (1 / inject_Z (Z.of_nat n)))%Q
  | VTK_IMAGE_SLAB_SUM =>
      if trpz then (trap_of s n * 1)%Q else (select_of Qplus s n * 1)%Q
  end.

(** The shape the three outer loops share: the value of a component is
    computed from the buffer and stored over its first sample. *)
Fixpoint slab_loop (body : list Q -> nat -> Q) (inPtr : list Q) (p more : nat) : list Q :=
  let inPtr := <[p := body inPtr p]> inPtr in
  match more with
  | O => inPtr
  | S more' => slab_loop body inPtr (S p) more'
  end.

Lemma slab_loop_spec (body : list Q -> nat -> Q) (more : nat) :
  (forall a b c, (forall i, (c <= i)%nat -> nth i a 0%Q = nth i b 0%Q) ->
                 body a c = body b c) ->
  forall (inPtr : list Q) (p : nat),
  (p + more < length inPtr)%nat ->
  let out := slab_loop body inPtr p more in
  (forall c, (p <= c <= p + more)%nat -> nth c out 0%Q = body inPtr c) /\
  (forall i, (i < p \/ p + more < i)%nat -> nth i out 0%Q = nth i inPtr 0%Q) /\
  length out = length inPtr.
Proof.
  intros Hbody.
  induction more as [| more IH]; intros inPtr p Hlen; cbn zeta; cbn [slab_loop].
  - split; [| split].
    + intros c Hc. assert (c = p) by lia; subst c.
      rewrite nth_lookup, list_lookup_insert_eq by lia. reflexivity.
    + intros i Hi. rewrite !nth_lookup, list_lookup_insert_ne by lia. reflexivity.
    + apply length_insert.
  - set (buf := <[p := _]> inPtr).
    assert (Hbuf : forall i, i <> p -> nth i buf 0%Q = nth i inPtr 0%Q)
      by (intros i Hi; subst buf; rewrite !nth_lookup, list_lookup_insert_ne by lia;
          reflexivity).
    destruct (IH buf (S p)) as (IHin & IHout & IHlen);
      [subst buf; rewrite length_insert; lia |].
    split; [| split].
    + intros c Hc. destruct (Nat.eq_dec c p) as [-> | Hne].
      * rewrite IHout by lia. subst buf.
        rewrite nth_lookup, list_lookup_insert_eq by lia. reflexivity.
      * rewrite IHin by lia. apply Hbody. intros i Hi. apply Hbuf. lia.
    + intros i Hi. rewrite IHout by lia. apply Hbuf. lia.
    + rewrite IHlen. subst buf. apply length_insert.
Qed.

Lemma accumulate_fold (op : Q -> Q -> Q) (inPtr : list Q) (numscalars : nat)
    (more p : nat) (result : Q) :
  accumulate op inPtr numscalars p result more
  = ((p + S more * numscalars)%nat,
     fold_left op (map (fun k => nth (p + k * numscalars) inPtr 0%Q) (seq 1 (S more))) result).
Proof.
  revert p result; induction more as [| more IH]; intros p result.
  - cbn. f_equal; [lia | do 2 f_equal; lia].
  - cbn [accumulate]. rewrite IH. f_equal; [lia |].
    change (seq 1 (S (S more))) with (1%nat :: seq 2 (S more)).
    cbn [map fold_left].
    rewrite <- (seq_shift (S more) 1), map_map.
    f_equal.
    + apply map_ext; intros k. f_equal. lia.
    + do 2 f_equal. lia.
Qed.

Lemma trap_middle_fold (inPtr : list Q) (numscalars : nat) (k p : nat) (result : Q) :
  trap_middle inPtr numscalars p result k
  = ((p + k * numscalars)%nat,
     fold_left Qplus (map (fun k => nth (p + k * numscalars) inPtr 0%Q) (seq 1 k)) result).
Proof.
  revert p result; induction k as [| k IH]; intros p result.
  - cbn. f_equal. lia.
  - cbn [trap_middle]. rewrite IH. f_equal; [lia |].
    change (seq 1 (S k)) with (1%nat :: seq 2 k).
    cbn [map fold_left].
    rewrite <- (seq_shift k 1), map_map.
    f_equal.
    + apply map_ext; intros j. f_equal. lia.
    + do 2 f_equal. lia.
Qed.

(** The three outer loops are [slab_loop] with their bodies. *)
Lemma slab_select_loop_shape (op : Q -> Q -> Q) (numscalars n more : nat) :
  (1 <= n)%nat ->
  forall inPtr p,
  slab_select_loop op inPtr numscalars n p more
  = slab_loop (fun a c => select_of op (sample a numscalars c) (S n)) inPtr p more.
Proof.
  intros Hn.
  assert (Hbody : forall a c,
             fold_left op (map (fun k => nth (c + k * numscalars) a 0%Q) (seq 1 n))
               (nth c a 0%Q)
             = select_of op (sample a numscalars c) (S n))
    by (intros a c; unfold select_of, sample;
        replace (S n - 1)%nat with n by lia; rewrite Nat.add_0_r; reflexivity).
  induction more as [| more IH]; intros inPtr p;
    cbn [slab_select_loop slab_loop]; rewrite accumulate_fold;
    replace (S (n - 1)) with n by lia;
    replace (p + n * numscalars - n * numscalars)%nat with p by lia;
    rewrite Hbody; [reflexivity | apply IH].
Qed.

Lemma slab_sum_loop_shape (numscalars n more : nat) (f : Q) :
  (1 <= n)%nat ->
  forall inPtr p,
  slab_sum_loop inPtr numscalars n f p more
  = slab_loop (fun a c => (select_of Qplus (sample a numscalars c) (S n) * f)%Q) inPtr p more.
Proof.
  intros Hn.
  assert (Hbody : forall a c,
             fold_left Qplus (map (fun k => nth (c + k * numscalars) a 0%Q) (seq 1 n))
               (nth c a 0%Q)
             = select_of Qplus (sample a numscalars c) (S n))
    by (intros a c; unfold select_of, sample;
        replace (S n - 1)%nat with n by lia; rewrite Nat.add_0_r; reflexivity).
  induction more as [| more IH]; intros inPtr p;
    cbn [slab_sum_loop slab_loop]; rewrite accumulate_fold;
    replace (S (n - 1)) with n by lia;
    replace (p + n * numscalars - n * numscalars)%nat with p by lia;
    rewrite Hbody; [reflexivity | apply IH].
Qed.

Lemma slab_trap_loop_shape (numscalars n more : nat) (f : Q) :
  (1 <= n)%nat ->
  forall inPtr p,
  slab_trap_loop inPtr numscalars n f p more
  = slab_loop (fun a c => (trap_of (sample a numscalars c) (S n) * f)%Q) inPtr p more.
Proof.
  intros Hn.
  assert (Hbody : forall a c,
             (fold_left Qplus
                (map (fun k => nth (c + k * numscalars) a 0%Q) (seq 1 (n - 1)))
                (nth c a 0 * (1 # 2))
              + nth (c + n * numscalars) a 0 * (1 # 2))%Q
             = trap_of (sample a numscalars c) (S n))
    by (intros a c; unfold trap_of, sample;
        replace (S n - 2)%nat with (n - 1)%nat by lia;
        replace (S n - 1)%nat with n by lia; rewrite Nat.add_0_r; reflexivity).
  induction more as [| more IH]; intros inPtr p;
    cbn [slab_trap_loop slab_loop]; rewrite trap_middle_fold;
    replace (p + (n - 1) * numscalars + numscalars)%nat
      with (p + n * numscalars)%nat by nia;
    replace (p + n * numscalars - n * numscalars)%nat with p by lia;
    rewrite Hbody; [reflexivity | apply IH].
Qed.

Lemma select_of_ext (op : Q -> Q -> Q) (s t : nat -> Q) (n : nat) :
  (forall k, (k < n)%nat -> s k = t k) -> (1 <= n)%nat ->
  select_of op s n = select_of op t n.
Proof.
  intros H Hn. unfold select_of. rewrite (H 0%nat) by lia. f_equal.
  apply map_ext_in. intros k Hk. apply in_seq in Hk. apply H. lia.
Qed.

Lemma trap_of_ext (s t : nat -> Q) (n : nat) :
  (forall k, (k < n)%nat -> s k = t k) -> (2 <= n)%nat ->
  trap_of s n = trap_of t n.
Proof.
  intros H Hn. unfold trap_of. rewrite (H 0%nat), (H (n - 1)%nat) by lia. do 2 f_equal.
  apply map_ext_in. intros k Hk. apply in_seq in Hk. apply H. lia.
Qed.

Lemma sample_ext (a b : list Q) (numscalars c : nat) :
  (forall i, (c <= i)%nat -> nth i a 0%Q = nth i b 0%Q) ->
  forall k, sample a numscalars c k = sample b numscalars c k.
Proof. intros H k. unfold sample. apply H. lia. Qed.

(** The compositor chosen by [vtkGetCompositeFunc] leaves [composite_of]
    the samples in each component, touches nothing else and keeps the
    length of the buffer. *)
Lemma composite_closed_form (slabMode : SlabMode) (trpz : bool) (inPtr : list Q)
    (numscalars n : Z) :
  2 <= n -> 1 <= numscalars ->
  (Z.to_nat numscalars <= length inPtr)%nat ->
  let out := vtkGetCompositeFunc slabMode trpz inPtr numscalars n in
  (forall c, (c < Z.to_nat numscalars)%nat ->
     nth c out 0%Q
     = composite_of slabMode trpz (sample inPtr (Z.to_nat numscalars) c) (Z.to_nat n)) /\
  (forall i, (Z.to_nat numscalars <= i)%nat -> nth i out 0%Q = nth i inPtr 0%Q) /\
  length out = length inPtr.
Proof.
  intros Hn Hns Hlen.
  assert (Hn1 : (1 <= Z.to_nat (n - 1))%nat) by lia.
  assert (HSn : S (Z.to_nat (n - 1)) = Z.to_nat n) by lia.
  assert (Hnn : Z.of_nat (Z.to_nat n) = n) by lia.
  assert (Hp : (0 + (Z.to_nat numscalars - 1) < length inPtr)%nat) by lia.
  assert (Hsel : forall op a b c,
             (forall i, (c <= i)%nat -> nth i a 0%Q = nth i b 0%Q) ->
             select_of op (sample a (Z.to_nat numscalars) c) (S (Z.to_nat (n - 1)))
             = select_of op (sample b (Z.to_nat numscalars) c) (S (Z.to_nat (n - 1))))
    by (intros op a b c H; apply select_of_ext; [intros k _; apply sample_ext, H | lia]).
  assert (Htrap : forall a b c,
             (forall i, (c <= i)%nat -> nth i a 0%Q = nth i b 0%Q) ->
             trap_of (sample a (Z.to_nat numscalars) c) (S (Z.to_nat (n - 1)))
             = trap_of (sample b (Z.to_nat numscalars) c) (S (Z.to_nat (n - 1))))
    by (intros a b c H; apply trap_of_ext; [intros k _; apply sample_ext, H | lia]).
  destruct slabMode, trpz; cbn [vtkGetCompositeFunc composite_of];
    unfold MinValue, MaxValue, MeanValue, MeanTrap, SumValues, SumTrap,
      vtkImageResliceSlabSum, vtkImageResliceSlabTrap;
    rewrite ?slab_select_loop_shape, ?slab_sum_loop_shape, ?slab_trap_loop_shape by exact Hn1;
    rewrite ?Hnn;
    match goal with
    | |- context [slab_loop ?body inPtr 0 ?more] =>
        destruct (slab_loop_spec body more) with (inPtr := inPtr) (p := 0%nat)
          as (Hin & Hout & Hl);
        [ intros a b c H; cbv beta; first [ now rewrite (Hsel _ a b c H)
                                          | now rewrite (Htrap a b c H) ]
        | exact Hp | ]
    end;
    (split; [| split];
     [ intros c Hc; rewrite Hin by lia; cbv beta; rewrite HSn; reflexivity
     | intros i Hi; apply Hout; lia
     | exact Hl ]).
Qed.

Lemma fold_smaller (l : list Q) : forall a : Q,
  let r := fold_left smaller l a in
  (r <= a)%Q /\ Forall (fun x => (r <= x)%Q) l /\ In r (a :: l).
Proof.
  induction l as [| x l IH]; intros a; cbn zeta; cbn [fold_left].
  - split; [apply Qle_refl | split; [constructor | left; reflexivity]].
  - destruct (IH (smaller a x)) as (Hle & Hall & Hin).
    assert (Hs : (smaller a x <= a)%Q /\ (smaller a x <= x)%Q /\
                 (smaller a x = a \/ smaller a x = x)).
    { unfold smaller. destruct (Qltb a x) eqn:E.
      - apply Qltb_lt in E. split; [apply Qle_refl | split; [apply Qlt_le_weak, E | auto]].
      - apply Qltb_ge in E. split; [exact E | split; [apply Qle_refl | auto]]. }
    destruct Hs as (Ha & Hx & Hor).
    split; [eapply Qle_trans; eauto | split].
    + constructor; [eapply Qle_trans; eauto | exact Hall].
    + destruct Hin as [Hin | Hin].
      * destruct Hor as [Hor | Hor];
          [left | right; left]; (etransitivity; [symmetry; exact Hor | exact Hin]).
      * right; right; exact Hin.
Qed.

Lemma fold_larger (l : list Q) : forall a : Q,
  let r := fold_left larger l a in
  (a <= r)%Q /\ Forall (fun x => (x <= r)%Q) l /\ In r (a :: l).
Proof.
  induction l as [| x l IH]; intros a; cbn zeta; cbn [fold_left].
  - split; [apply Qle_refl | split; [constructor | left; reflexivity]].
  - destruct (IH (larger a x)) as (Hle & Hall & Hin).
    assert (Hs : (a <= larger a x)%Q /\ (x <= larger a x)%Q /\
                 (larger a x = a \/ larger a x = x)).
    { unfold larger, Qgtb. destruct (Qltb x a) eqn:E.
      - apply Qltb_lt in E. split; [apply Qle_refl | split; [apply Qlt_le_weak, E | auto]].
      - apply Qltb_ge in E. split; [exact E | split; [apply Qle_refl | auto]]. }
    destruct Hs as (Ha & Hx & Hor).
    split; [eapply Qle_trans; eauto | split].
    + constructor; [eapply Qle_trans; eauto | exact Hall].
    + destruct Hin as [Hin | Hin].
      * destruct Hor as [Hor | Hor];
          [left | right; left]; (etransitivity; [symmetry; exact Hor | exact Hin]).
      * right; right; exact Hin.
Qed.

(** The samples a fold over [s 0 .. s (n-1)] ranges over. *)
Lemma samples_cons (s : nat -> Q) (n : nat) :
  (1 <= n)%nat -> s 0%nat :: map s (seq 1 (n - 1)) = map s (seq 0 n).
Proof. intros Hn. destruct n; [lia |]. cbn. rewrite Nat.sub_0_r. reflexivity. Qed.

(** X8: the minimum and maximum compositors leave, in every component, a
    value that is one of the slab's samples of that component and bounds
    all of them from below (above). *)
Theorem min_max_bound_samples (inPtr : list Q) (numscalars n : Z) (c k : nat) :
  2 <= n -> 1 <= numscalars ->
  (Z.to_nat (n * numscalars) <= length inPtr)%nat ->
  (c < Z.to_nat numscalars)%nat -> (k < Z.to_nat n)%nat ->
  let s := sample inPtr (Z.to_nat numscalars) c in
  let lo := nth c (MinValue inPtr numscalars n) 0%Q in
  let hi := nth c (MaxValue inPtr numscalars n) 0%Q in
  (lo <= s k)%Q /\ (s k <= hi)%Q /\
  (exists i, (i < Z.to_nat n)%nat /\ lo = s i) /\
  (exists j, (j < Z.to_nat n)%nat /\ hi = s j).
Proof.
  intros Hn Hns Hlen Hc Hk s lo hi.
  assert (Hlen' : (Z.to_nat numscalars <= length inPtr)%nat) by nia.
  destruct (composite_closed_form VTK_IMAGE_SLAB_MIN false inPtr numscalars n
              Hn Hns Hlen') as (Hmin & _).
  destruct (composite_closed_form VTK_IMAGE_SLAB_MAX false inPtr numscalars n
              Hn Hns Hlen') as (Hmax & _).
  cbn [vtkGetCompositeFunc composite_of] in Hmin, Hmax.
  specialize (Hmin c Hc). specialize (Hmax c Hc). fold s in Hmin, Hmax.
  fold lo in Hmin. fold hi in Hmax.
  assert (Hmem : In (s k) (map s (seq 0 (Z.to_nat n))))
    by (apply in_map, in_seq; lia).
  rewrite <- samples_cons in Hmem by lia.
  destruct (fold_smaller (map s (seq 1 (Z.to_nat n - 1))) (s 0%nat)) as (Ha & Hall & Hin).
  destruct (fold_larger (map s (seq 1 (Z.to_nat n - 1))) (s 0%nat)) as (Hb & Hall' & Hin').
  cbn zeta in *. unfold select_of in Hmin, Hmax. rewrite <- Hmin in *. rewrite <- Hmax in *.
  rewrite samples_cons in Hin, Hin' by lia.
  apply in_map_iff in Hin. destruct Hin as (i & Hi & Hiin). apply in_seq in Hiin.
  apply in_map_iff in Hin'. destruct Hin' as (j & Hj & Hjin). apply in_seq in Hjin.
  rewrite List.Forall_forall in Hall, Hall'.
  repeat split.
  - destruct Hmem as [<- | Hmem]; [exact Ha | apply Hall, Hmem].
  - destruct Hmem as [<- | Hmem]; [exact Hb | apply Hall', Hmem].
  - exists i. split; [lia | symmetry; exact Hi].
  - exists j. split; [lia | symmetry; exact Hj].
Qed.

(** A slab of three samples of two components: 1, 3, 2 and 10, 30, 20. *)
Definition two_component_slab : list Q := [1; 10; 3; 30; 2; 20]%Q.

Lemma min_max_bound_samples_witness :
  2 <= 3 /\
  let s := sample two_component_slab (Z.to_nat 2) 1 in
  let lo := nth 1 (MinValue two_component_slab 2 3) 0%Q in
  let hi := nth 1 (MaxValue two_component_slab 2 3) 0%Q in
  (lo <= s 2%nat)%Q /\ (s 2%nat <= hi)%Q /\
  (exists i, (i < Z.to_nat 3)%nat /\ lo = s i) /\
  (exists j, (j < Z.to_nat 3)%nat /\ hi = s j).
Proof.
  split; [lia |].
  apply (min_max_bound_samples two_component_slab 2 3 1 2);
    first [lia | vm_compute; lia].
Defined.

(** The slab of the witness, composited: the minima are 1 and 10, the
    maxima 3 and 30. *)
Example two_component_slab_min_max :
  take 2 (MinValue two_component_slab 2 3) = [1; 10]%Q /\
  take 2 (MaxValue two_component_slab 2 3) = [3; 30]%Q.
Proof. split; reflexivity. Qed.

Lemma fold_Qplus_init (l : list Q) : forall a : Q,
  (fold_left Qplus l a == a + fold_left Qplus l 0)%Q.
Proof.
  induction l as [| x l IH]; intros a; cbn [fold_left].
  - ring.
  - rewrite (IH (a + x)%Q), (IH (0 + x)%Q). ring.
Qed.

Lemma seq_last (a m : nat) : seq a (S m) = seq a m ++ [(a + m)%nat].
Proof. rewrite seq_S. reflexivity. Qed.

(** The trapezoid sum is the plain sum less half the two end samples. *)
Lemma trap_of_sum (s : nat -> Q) (n : nat) :
  (2 <= n)%nat ->
  (trap_of s n == select_of Qplus s n - (s 0%nat + s (n - 1)%nat) * (1 # 2))%Q.
Proof.
  intros Hn. unfold trap_of, select_of.
  replace (n - 1)%nat with (S (n - 2)) at 2 by lia.
  rewrite seq_last, map_app, fold_left_app. cbn [map fold_left].
  replace (1 + (n - 2))%nat with (n - 1)%nat by lia.
  rewrite (fold_Qplus_init _ (s 0%nat * (1 # 2))%Q), (fold_Qplus_init _ (s 0%nat)).
  ring.
Qed.

Lemma inject_Z_nonzero (z : Z) : z <> 0 -> ~ (inject_Z z == 0)%Q.
Proof.
  intros Hz H0. change 0%Q with (inject_Z 0) in H0.
  apply (proj1 (inject_Z_injective z 0)) in H0. exact (Hz H0).
Qed.

(** X9: with trapezoid integration the two end samples of the slab count
    half: the sum compositor leaves the plain sum less half the first and the
    last sample, and the mean compositor that sum divided by [n - 1]. *)
Theorem trapezoid_halves_end_samples (inPtr : list Q) (numscalars n : Z) (c : nat) :
  2 <= n -> 1 <= numscalars ->
  (Z.to_nat (n * numscalars) <= length inPtr)%nat ->
  (c < Z.to_nat numscalars)%nat ->
  let s := sample inPtr (Z.to_nat numscalars) c in
  let sum := nth c (SumValues inPtr numscalars n) 0%Q in
  let sumTrap := nth c (SumTrap inPtr numscalars n) 0%Q in
  let meanTrap := nth c (MeanTrap inPtr numscalars n) 0%Q in
  (sumTrap == sum - (s 0%nat + s (Z.to_nat n - 1)%nat) / 2)%Q /\
  (meanTrap == sumTrap / inject_Z (n - 1))%Q.
Proof.
  intros Hn Hns Hlen Hc s sum sumTrap meanTrap.
  assert (Hlen' : (Z.to_nat numscalars <= length inPtr)%nat) by nia.
  destruct (composite_closed_form VTK_IMAGE_SLAB_SUM false inPtr numscalars n
              Hn Hns Hlen') as (Hsum & _).
  destruct (composite_closed_form VTK_IMAGE_SLAB_SUM true inPtr numscalars n
              Hn Hns Hlen') as (Hst & _).
  destruct (composite_closed_form VTK_IMAGE_SLAB_MEAN true inPtr numscalars n
              Hn Hns Hlen') as (Hmt & _).
  cbn [vtkGetCompositeFunc composite_of] in Hsum, Hst, Hmt.
  specialize (Hsum c Hc). specialize (Hst c Hc). specialize (Hmt c Hc).
  fold s in Hsum, Hst, Hmt. fold sum in Hsum. fold sumTrap in Hst. fold meanTrap in Hmt.
  rewrite Hsum, Hst, Hmt.
  replace (Z.of_nat (Z.to_nat n) - 1) with (n - 1) by lia.
  pose proof (inject_Z_nonzero (n - 1) ltac:(lia)) as Hnz.
  split.
  - rewrite trap_of_sum by lia. field.
  - field. exact Hnz.
Qed.

Lemma trapezoid_halves_end_samples_witness :
  2 <= 3 /\
  let s := sample two_component_slab (Z.to_nat 2) 1 in
  let sum := nth 1 (SumValues two_component_slab 2 3) 0%Q in
  let sumTrap := nth 1 (SumTrap two_component_slab 2 3) 0%Q in
  let meanTrap := nth 1 (MeanTrap two_component_slab 2 3) 0%Q in
  (sumTrap == sum - (s 0%nat + s (Z.to_nat 3 - 1)%nat) / 2)%Q /\
  (meanTrap == sumTrap / inject_Z (3 - 1))%Q.
Proof.
  split; [lia |].
  apply (trapezoid_halves_end_samples two_component_slab 2 3 1);
    first [lia | vm_compute; lia].
Defined.

Lemma fold_Qplus_constant (s : nat -> Q) (v : Q) (a m : nat) :
  (forall k, (a <= k < a + m)%nat -> (s k == v)%Q) ->
  (fold_left Qplus (map s (seq a m)) 0 == inject_Z (Z.of_nat m) * v)%Q.
Proof.
  revert a; induction m as [| m IH]; intros a H.
  - cbn. ring.
  - rewrite seq_last, map_app, fold_left_app. cbn [map fold_left].
    rewrite IH by (intros k Hk; apply H; lia).
    rewrite (H (a + m)%nat) by lia.
    rewrite Nat2Z.inj_succ. unfold Z.succ. rewrite inject_Z_plus. ring.
Qed.

Lemma fold_select_constant (op : Q -> Q -> Q) (l : list Q) (v : Q) :
  (forall a x, (a == v)%Q -> (x == v)%Q -> (op a x == v)%Q) ->
  Forall (fun x => (x == v)%Q) l ->
  forall a, (a == v)%Q -> (fold_left op l a == v)%Q.
Proof.
  intros Hop Hall. induction Hall as [| x l Hx Hall IH]; intros a Ha; cbn [fold_left].
  - exact Ha.
  - apply IH, Hop; assumption.
Qed.

(** X10: a slab whose samples of a component all have the value [v] is
    composited to [v] by the mean (plain and trapezoid), minimum and maximum
    compositors; the sum compositors give [n v] and [(n - 1) v]. *)
Theorem constant_slab_composites (inPtr : list Q) (numscalars n : Z) (c : nat) (v : Q) :
  2 <= n -> 1 <= numscalars ->
  (Z.to_nat (n * numscalars) <= length inPtr)%nat ->
  (c < Z.to_nat numscalars)%nat ->
  (forall k, (k < Z.to_nat n)%nat -> (sample inPtr (Z.to_nat numscalars) c k == v)%Q) ->
  (nth c (MeanValue inPtr numscalars n) 0 == v)%Q /\
  (nth c (MeanTrap inPtr numscalars n) 0 == v)%Q /\
  (nth c (MinValue inPtr numscalars n) 0 == v)%Q /\
  (nth c (MaxValue inPtr numscalars n) 0 == v)%Q /\
  (nth c (SumValues inPtr numscalars n) 0 == inject_Z n * v)%Q /\
  (nth c (SumTrap inPtr numscalars n) 0 == inject_Z (n - 1) * v)%Q.
Proof.
  intros Hn Hns Hlen Hc Hv.
  assert (Hlen' : (Z.to_nat numscalars <= length inPtr)%nat) by nia.
  set (s := sample inPtr (Z.to_nat numscalars) c) in *.
  assert (Hform : forall mode trpz,
             nth c (vtkGetCompositeFunc mode trpz inPtr numscalars n) 0%Q
             = composite_of mode trpz s (Z.to_nat n))
    by (intros mode trpz;
        destruct (composite_closed_form mode trpz inPtr numscalars n Hn Hns Hlen')
          as (H & _); apply H, Hc).
  assert (Hsum : (select_of Qplus s (Z.to_nat n) == inject_Z n * v)%Q).
  { unfold select_of. rewrite fold_Qplus_init.
    rewrite (fold_Qplus_constant s v 1 (Z.to_nat n - 1)) by (intros k Hk; apply Hv; lia).
    rewrite (Hv 0%nat) by lia.
    replace n with (1 + Z.of_nat (Z.to_nat n - 1)) at 2 by lia.
    rewrite inject_Z_plus. ring. }
  assert (Htrap : (trap_of s (Z.to_nat n) == inject_Z (n - 1) * v)%Q).
  { rewrite trap_of_sum by lia. rewrite Hsum, (Hv 0%nat), (Hv (Z.to_nat n - 1)%nat) by lia.
    replace (n - 1) with (n + -1) by lia. rewrite inject_Z_plus. ring. }
  assert (Hall : Forall (fun x => (x == v)%Q) (map s (seq 1 (Z.to_nat n - 1)))).
  { apply List.Forall_forall. intros x Hx. apply in_map_iff in Hx.
    destruct Hx as (k & <- & Hk). apply in_seq in Hk. apply Hv. lia. }
  pose proof (inject_Z_nonzero n ltac:(lia)) as Hnz.
  pose proof (inject_Z_nonzero (n - 1) ltac:(lia)) as Hnz1.
  pose proof (Hform VTK_IMAGE_SLAB_MEAN false) as Hmean.
  pose proof (Hform VTK_IMAGE_SLAB_MEAN true) as Hmeant.
  pose proof (Hform VTK_IMAGE_SLAB_MIN false) as Hmin.
  pose proof (Hform VTK_IMAGE_SLAB_MAX false) as Hmax.
  pose proof (Hform VTK_IMAGE_SLAB_SUM false) as Hs.
  pose proof (Hform VTK_IMAGE_SLAB_SUM true) as Hst.
  cbn [vtkGetCompositeFunc composite_of] in Hmean, Hmeant, Hmin, Hmax, Hs, Hst.
  rewrite Hmean, Hmeant, Hmin, Hmax, Hs, Hst.
  replace (Z.of_nat (Z.to_nat n)) with n by lia.
  repeat split.
  - rewrite Hsum. field. exact Hnz.
  - rewrite Htrap. field. exact Hnz1.
  - unfold select_of. apply fold_select_constant; [| exact Hall | apply Hv; lia].
    intros a x Ha Hx. unfold smaller. destruct (Qltb a x); assumption.
  - unfold select_of. apply fold_select_constant; [| exact Hall | apply Hv; lia].
    intros a x Ha Hx. unfold larger. destruct (Qgtb a x); assumption.
  - rewrite Hsum. ring.
  - rewrite Htrap. ring.
Qed.

(** A slab of three samples of two components, constant in the first. *)
Definition constant_slab : list Q := [5; 7; 5; 8; 5; 9]%Q.

Lemma constant_slab_composites_witness :
  (forall k, (k < Z.to_nat 3)%nat -> (sample constant_slab (Z.to_nat 2) 0 k == 5)%Q) /\
  (nth 0 (MeanValue constant_slab 2 3) 0 == 5)%Q /\
  (nth 0 (MeanTrap constant_slab 2 3) 0 == 5)%Q /\
  (nth 0 (MinValue constant_slab 2 3) 0 == 5)%Q /\
  (nth 0 (MaxValue constant_slab 2 3) 0 == 5)%Q /\
  (nth 0 (SumValues constant_slab 2 3) 0 == inject_Z 3 * 5)%Q /\
  (nth 0 (SumTrap constant_slab 2 3) 0 == inject_Z (3 - 1) * 5)%Q.
Proof.
  assert (H : forall k, (k < Z.to_nat 3)%nat ->
                (sample constant_slab (Z.to_nat 2) 0 k == 5)%Q)
    by (intros k Hk; assert (Hk' : (k < 3)%nat) by exact Hk;
        destruct k as [| [| [| k]]]; [reflexivity | reflexivity | reflexivity | lia]).
  split; [exact H |].
  apply (constant_slab_composites constant_slab 2 3 0 5);
    first [exact H | lia | vm_compute; lia].
Defined.

(** The operation a row compositor applies to an element of the output
    row and the element of sample [i] of [n]. *)
Definition row_op (slabMode : SlabMode) (trpz : bool) (i n : Z) : Q -> Q -> Q :=
  match slabMode with
  | VTK_IMAGE_SLAB_MIN => if i =? 0 then fun _ x => x else smaller
  | VTK_IMAGE_SLAB_MAX => if i =? 0 then fun _ x => x else larger
  | VTK_IMAGE_SLAB_MEAN =>
      if trpz then
        if i =? 0 then fun _ x => ((1 # 2) * x)%Q
        else if i =? n - 1
        then fun o x => ((o + (1 # 2) * x) * (1 / inject_Z (n - 1)))%Q
        else Qplus
      else
        if i =? 0 then fun _ x => x
        else if i =? n - 1 then fun o x => ((o + x) * (1 / inject_Z n))%Q
        else Qplus
  | VTK_IMAGE_SLAB_SUM =>
      if trpz then
        if i =? 0 then fun _ x => ((1 # 2) * x)%Q
        else if i =? n - 1 then fun o x => (o + (1 # 2) * x)%Q
        else Qplus
      else if i =? 0 then fun _ x => x else Qplus
  end.

Lemma row_op_spec (slabMode : SlabMode) (trpz : bool) (outPtr inPtr : list Q)
    (numComp count i n : Z) :
  Execute.vtkGetRowCompositeFunc slabMode trpz outPtr inPtr numComp count i n
  = Execute.row_combine (row_op slabMode trpz i n) outPtr inPtr numComp count.
Proof.
  destruct slabMode, trpz; cbn [Execute.vtkGetRowCompositeFunc row_op];
    unfold Execute.MinRow, Execute.MaxRow, Execute.MeanRow, Execute.MeanRowTrap,
      Execute.SumRow, Execute.SumRowTrap;
    destruct (i =? 0); try reflexivity; destruct (i =? n - 1); reflexivity.
Qed.

Lemma row_combine_nth (g : Q -> Q -> Q) (outPtr inPtr : list Q) (numComp count : Z)
    (e : nat) :
  let m := Z.to_nat (count * numComp) in
  (m <= length outPtr)%nat -> (m <= length inPtr)%nat -> (e < m)%nat ->
  nth e (Execute.row_combine g outPtr inPtr numComp count) 0%Q
  = g (nth e outPtr 0%Q) (nth e inPtr 0%Q) /\
  length (Execute.row_combine g outPtr inPtr numComp count) = length outPtr.
Proof.
  intros m Ho Hi He. unfold Execute.row_combine. fold m.
  assert (Hz : length (zip_with g (take m outPtr) (take m inPtr)) = m)
    by (rewrite length_zip_with, !length_take; lia).
  split.
  - rewrite app_nth1 by lia.
    rewrite !nth_lookup, lookup_zip_with, !lookup_take_lt by lia.
    destruct (outPtr !! e) as [o |] eqn:Eo;
      [| apply lookup_ge_None in Eo; lia].
    destruct (inPtr !! e) as [x |] eqn:Ex;
      [| apply lookup_ge_None in Ex; lia].
    reflexivity.
  - rewrite length_app, Hz, length_drop. lia.
Qed.

Lemma fold_left_ext_in {A B : Type} (f g : A -> B -> A) (l : list B) :
  (forall a x, In x l -> f a x = g a x) ->
  forall a, fold_left f l a = fold_left g l a.
Proof.
  induction l as [| x l IH]; intros H a; cbn [fold_left]; [reflexivity |].
  rewrite H by (left; reflexivity). apply IH. intros a' x' Hx. apply H. right. exact Hx.
Qed.

Lemma fold_left_map {A B C : Type} (f : A -> B -> A) (g : C -> B) (l : list C) :
  forall a, fold_left f (map g l) a = fold_left (fun a x => f a (g x)) l a.
Proof. induction l as [| x l IH]; intros a; cbn [map fold_left]; [reflexivity | apply IH]. Qed.

Section PermuteRows.

Variable self : Execute.vtkImageReslice.
Variable interpolator : Execute.vtkAbstractImageInterpolator.
Variable matrix : vtkMatrix4x4.
Variable outExt : list Z.
Variables idX idY idZ1 span nsamples1 : Z.

(** The interpolated row of sample [z]. *)
Definition sample_row (z : Z) : list Q :=
  Execute.InterpolateRow interpolator (Execute.weights self interpolator matrix outExt)
    idX idY (idZ1 + z) span.

Definition row_length : nat :=
  Z.to_nat (span * Execute.GetNumberOfComponents interpolator).

Definition slab_step (bufs : list Q * list Q) (isample : Z) : list Q * list Q :=
  let '(floatPtr, floatSumPtr) := bufs in
  let row := take row_length (sample_row isample) in
  let floatSumPtr := list_inserts 0 row floatSumPtr in
  (Execute.row_composite self floatPtr floatSumPtr
     (Execute.GetNumberOfComponents interpolator) span isample nsamples1,
   floatSumPtr).

Lemma slab_rows_steps (floatPtr floatSumPtr : list Q) :
  2 <= nsamples1 ->
  Execute.slab_rows self interpolator matrix outExt idX idY idZ1 span nsamples1
    floatPtr floatSumPtr
  = fold_left slab_step (Execute.zrange 0 (nsamples1 - 1)) (floatPtr, floatSumPtr).
Proof.
  intros Hn. unfold Execute.slab_rows.
  apply fold_left_ext_in. intros [fp fs] z _. unfold slab_step.
  replace (1 <? nsamples1) with true by (symmetry; apply Z.ltb_lt; lia).
  reflexivity.
Qed.

Lemma slab_steps_elements (e : nat) (zs : list Z) :
  (e < row_length)%nat ->
  (forall z, In z zs -> (row_length <= length (sample_row z))%nat) ->
  forall floatPtr floatSumPtr,
  (row_length <= length floatPtr)%nat -> (row_length <= length floatSumPtr)%nat ->
  nth e (fst (fold_left slab_step zs (floatPtr, floatSumPtr))) 0%Q
  = fold_left
      (fun o z =>
         row_op (Execute.GetSlabMode self) (Execute.SlabTrapezoidIntegration self)
           z nsamples1 o (nth e (sample_row z) 0%Q))
      zs (nth e floatPtr 0%Q).
Proof.
  intros He. induction zs as [| z zs IH]; intros Hrows floatPtr floatSumPtr Hp Hs;
    cbn [fold_left]; [reflexivity |].
  assert (Hrow : length (take row_length (sample_row z)) = row_length)
    by (rewrite length_take; specialize (Hrows z (or_introl eq_refl)); lia).
  set (sumPtr := list_inserts 0 (take row_length (sample_row z)) floatSumPtr).
  assert (Hsum : (row_length <= length sumPtr)%nat)
    by (subst sumPtr; rewrite length_inserts; exact Hs).
  assert (Hnth : nth e sumPtr 0%Q = nth e (sample_row z) 0%Q).
  { subst sumPtr. rewrite !nth_lookup.
    rewrite list_lookup_inserts by (rewrite ?Hrow; lia).
    rewrite Nat.sub_0_r, lookup_take_lt by lia. reflexivity. }
  unfold slab_step at 2. fold sumPtr. unfold Execute.row_composite.
  rewrite row_op_spec.
  destruct (row_combine_nth
              (row_op (Execute.GetSlabMode self) (Execute.SlabTrapezoidIntegration self)
                 z nsamples1)
              floatPtr sumPtr (Execute.GetNumberOfComponents interpolator) span e)
    as (Hel & Hlen); try assumption.
  rewrite IH; [| intros z' Hz'; apply Hrows; right; exact Hz' | | exact Hsum].
  - rewrite Hel, Hnth. reflexivity.
  - rewrite Hlen. exact Hp.
Qed.

End PermuteRows.

Lemma zrange_split (n : nat) :
  (2 <= n)%nat ->
  Execute.zrange 0 (Z.of_nat n - 1)
  = 0 :: map Z.of_nat (seq 1 (n - 2)) ++ [Z.of_nat n - 1].
Proof.
  intros Hn. unfold Execute.zrange.
  replace (Z.to_nat (Z.of_nat n - 1 - 0 + 1)) with (S (S (n - 2))) by lia.
  change (seq 0 (S (S (n - 2)))) with (0%nat :: seq 1 (S (n - 2))).
  rewrite seq_last, map_cons, map_app. cbn [map].
  rewrite (map_ext (fun i => 0 + Z.of_nat i) Z.of_nat) by (intros; lia).
  replace (0 + Z.of_nat (1 + (n - 2))) with (Z.of_nat n - 1) by lia.
  reflexivity.
Qed.

(** The fold of the row operations over the samples of one element. *)
Lemma row_ops_composite (slabMode : SlabMode) (trpz : bool) (t : Z -> Q) (n : nat) (o : Q) :
  (2 <= n)%nat ->
  (fold_left (fun o z => row_op slabMode trpz z (Z.of_nat n) o (t z))
     (Execute.zrange 0 (Z.of_nat n - 1)) o
   == composite_of slabMode trpz (fun k => t (Z.of_nat k)) n)%Q.
Proof.
  intros Hn. rewrite zrange_split by exact Hn.
  cbn [fold_left]. rewrite fold_left_app. cbn [fold_left].
  rewrite fold_left_map.
  set (mid := match slabMode with
              | VTK_IMAGE_SLAB_MIN => smaller
              | VTK_IMAGE_SLAB_MAX => larger
              | _ => Qplus
              end).
  assert (Hop : forall z, 0 < z < Z.of_nat n - 1 ->
             row_op slabMode trpz z (Z.of_nat n) = mid).
  { intros z Hz.
    assert (H0 : (z =? 0) = false) by (apply Z.eqb_neq; lia).
    assert (H1 : (z =? Z.of_nat n - 1) = false) by (apply Z.eqb_neq; lia).
    subst mid. destruct slabMode, trpz; cbn [row_op]; rewrite H0, ?H1; reflexivity. }
  rewrite (fold_left_ext_in _ (fun a k => mid a (t (Z.of_nat k))))
    by (intros a k Hk; apply in_seq in Hk; rewrite Hop by lia; reflexivity).
  rewrite <- (fold_left_map mid (fun k => t (Z.of_nat k))).
  assert (Hlast : (Z.of_nat n - 1 =? 0) = false) by (apply Z.eqb_neq; lia).
  assert (Hseq : seq 1 (n - 1) = seq 1 (n - 2) ++ [(n - 1)%nat])
    by (replace (n - 1)%nat with (S (n - 2)) at 1 by lia; rewrite seq_last;
        do 2 f_equal; lia).
  assert (Hn1 : Z.of_nat (n - 1) = Z.of_nat n - 1) by lia.
  clear Hop. subst mid.
  destruct slabMode, trpz; cbn [row_op composite_of];
    unfold select_of, trap_of; rewrite ?Hseq, ?map_app, ?fold_left_app; cbn [map fold_left];
    rewrite ?Hlast, ?Z.eqb_refl, ?Hn1; change (Z.of_nat 0) with 0; cbn [Z.eqb].
  all: try reflexivity.
  all: rewrite ?(fold_Qplus_init _ ((1 # 2) * t 0%Z)%Q),
         ?(fold_Qplus_init _ (t 0%Z * (1 # 2))%Q); ring.
Qed.

Lemma composite_of_ext (slabMode : SlabMode) (trpz : bool) (s t : nat -> Q) (n : nat) :
  (2 <= n)%nat -> (forall k, (k < n)%nat -> s k = t k) ->
  composite_of slabMode trpz s n = composite_of slabMode trpz t n.
Proof.
  intros Hn H. unfold composite_of.
  rewrite !(select_of_ext _ s t n H) by lia.
  rewrite (trap_of_ext s t n H) by lia. reflexivity.
Qed.

(** X11: the two execute paths composite alike.  For a slab of
    [nsamples1 >= 2] rows, element [e] of the row the permute path has
    composited equals the value the general path's slab compositor leaves in
    component [c] of a buffer that holds the same samples. *)
Theorem permute_rows_composite_like_slab
    (self : Execute.vtkImageReslice) (interpolator : Execute.vtkAbstractImageInterpolator)
    (matrix : vtkMatrix4x4) (outExt : list Z) (idX idY idZ1 span nsamples1 : Z)
    (floatPtr floatSumPtr : list Q) (e : nat)
    (inPtr : list Q) (numscalars : Z) (c : nat) :
  let m := row_length interpolator span in
  let row := sample_row self interpolator matrix outExt idX idY idZ1 span in
  2 <= nsamples1 ->
  (forall z, 0 <= z < nsamples1 -> (m <= length (row z))%nat) ->
  (m <= length floatPtr)%nat -> (m <= length floatSumPtr)%nat -> (e < m)%nat ->
  1 <= numscalars ->
  (Z.to_nat (nsamples1 * numscalars) <= length inPtr)%nat ->
  (c < Z.to_nat numscalars)%nat ->
  (forall k, (k < Z.to_nat nsamples1)%nat ->
     sample inPtr (Z.to_nat numscalars) c k = nth e (row (Z.of_nat k)) 0%Q) ->
  (nth e (fst (Execute.slab_rows self interpolator matrix outExt idX idY idZ1 span
                 nsamples1 floatPtr floatSumPtr)) 0
   == nth c (vtkGetCompositeFunc (Execute.GetSlabMode self)
               (Execute.SlabTrapezoidIntegration self) inPtr numscalars nsamples1) 0)%Q.
Proof.
  intros m row Hn Hrows Hp Hs He Hns Hlen Hc Hsame.
  assert (Hlen' : (Z.to_nat numscalars <= length inPtr)%nat) by nia.
  destruct (composite_closed_form (Execute.GetSlabMode self)
              (Execute.SlabTrapezoidIntegration self) inPtr numscalars nsamples1
              Hn Hns Hlen') as (Hform & _).
  rewrite (Hform c Hc).
  rewrite slab_rows_steps by exact Hn.
  rewrite slab_steps_elements; try assumption.
  - set (n := Z.to_nat nsamples1) in *.
    assert (Hnn : nsamples1 = Z.of_nat n) by lia.
    rewrite Hnn.
    etransitivity;
      [apply (row_ops_composite _ _ (fun z => nth e (row z) 0%Q)); lia |].
    rewrite (composite_of_ext _ _ _ (sample inPtr (Z.to_nat numscalars) c));
      [reflexivity | lia |].
    intros k Hk. symmetry. apply Hsame, Hk.
  - intros z Hz. apply Hrows. unfold Execute.zrange in Hz.
    apply in_map_iff in Hz. destruct Hz as (i & <- & Hi). apply in_seq in Hi. lia.
Qed.

(** The samples of the output voxel (0, 0, 2) of the column for a slab of
    three slices, as the permute path interpolates them. *)
Definition column_tile : list Z := [0; 0; 0; 0; 2; 2].

Definition column_slab_samples : list Q :=
  map (fun z => nth 0 (sample_row (Execute.slab_filter 3 true) Execute.column_interpolator
                         Execute.quarter_shift column_tile 0 0 2 1 z) 0%Q)
    [0; 1; 2].

Lemma permute_rows_composite_like_slab_witness :
  2 <= 3 /\
  (nth 0 (fst (Execute.slab_rows (Execute.slab_filter 3 true) Execute.column_interpolator
                 Execute.quarter_shift column_tile 0 0 2 1 3 [0%Q] [0%Q])) 0
   == nth 0 (vtkGetCompositeFunc VTK_IMAGE_SLAB_MEAN false column_slab_samples 1 3) 0)%Q.
Proof.
  split; [lia |].
  apply (permute_rows_composite_like_slab (Execute.slab_filter 3 true)
           Execute.column_interpolator Execute.quarter_shift column_tile
           0 0 2 1 3 [0%Q] [0%Q] 0 column_slab_samples 1 0).
  - lia.
  - intros z Hz. assert (Hz' : z = 0 \/ z = 1 \/ z = 2) by lia.
    destruct Hz' as [-> | [-> | ->]]; vm_compute; lia.
  - vm_compute; lia.
  - vm_compute; lia.
  - vm_compute; lia.
  - lia.
  - vm_compute; lia.
  - vm_compute; lia.
  - intros k Hk. assert (Hk' : (k < 3)%nat) by exact Hk.
    destruct k as [| [| [| k]]]; [reflexivity | reflexivity | reflexivity | lia].
Defined.

End CompositeFacts.

(** ** Rescaling and conversion to the output type *)

Module ConvertFacts.
Import Numeric Convert.

(** A stored scalar is an integer within the limits of its type. *)
Definition in_limits (T : ScalarType) (s : Scalar) : Prop :=
  match s, clamp_limits T with
  | IntVal z, Some (lo, hi) => (lo <= inject_Z z <= hi)%Q
  | _, _ => False
  end.

(** [vtkDataArray::GetDataTypeMin] and [GetDataTypeMax] are the static
    limits of the clamp for the integer kinds. *)
Lemma DataType_limits (T : ScalarType) :
  is_floating T = false ->
  clamp_limits T = Some (Execute.DataTypeMin T, Execute.DataTypeMax T) /\
  Execute.DataTypeMin T = inject_Z (Qnum (Execute.DataTypeMin T)) /\
  Execute.DataTypeMax T = inject_Z (Qnum (Execute.DataTypeMax T)) /\
  store_int T (Qnum (Execute.DataTypeMin T)) = Qnum (Execute.DataTypeMin T) /\
  store_int T (Qnum (Execute.DataTypeMax T)) = Qnum (Execute.DataTypeMax T).
Proof. destruct T; intros H; try discriminate H; repeat split. Qed.

Lemma take_rescaled (floatData : list Q) (components n : Z) (shift scale : Q) :
  take (Z.to_nat (n * components))
    (Execute.vtkImageResliceRescaleScalars floatData components n shift scale)
  = map (fun x => ((x + shift) * scale)%Q) (take (Z.to_nat (n * components)) floatData).
Proof.
  unfold Execute.vtkImageResliceRescaleScalars.
  set (m := Z.to_nat (n * components)).
  destruct (Nat.le_gt_cases m (length floatData)) as [Hle | Hgt].
  - rewrite take_app_length'; [reflexivity |].
    rewrite List.length_map, length_take. lia.
  - rewrite drop_ge by lia. rewrite app_nil_r.
    apply take_ge. rewrite List.length_map, length_take. lia.
Qed.

Lemma store_int_within (T : ScalarType) (z : Z) :
  is_floating T = false ->
  Qnum (Execute.DataTypeMin T) <= z <= Qnum (Execute.DataTypeMax T) ->
  store_int T z = z.
Proof.
  destruct T; intros H Hz; try discriminate H; cbn in Hz; cbn [store_int];
    unfold wrap_signed, wrap_unsigned; rewrite Z.mod_small by lia; lia.
Qed.

Lemma scaled_between (m M v s c : Q) :
  (m <= v <= M)%Q ->
  (0 <= c -> (m + s) * c <= (v + s) * c <= (M + s) * c)%Q /\
  (c <= 0 -> (M + s) * c <= (v + s) * c <= (m + s) * c)%Q.
Proof.
  intros [H1 H2]. split; intros Hc.
  - assert (A : (0 <= (v - m) * c)%Q) by (apply Qmult_le_0_compat; lra).
    assert (B : (0 <= (M - v) * c)%Q) by (apply Qmult_le_0_compat; lra).
    lra.
  - assert (A : (0 <= (v - m) * - c)%Q) by (apply Qmult_le_0_compat; lra).
    assert (B : (0 <= (M - v) * - c)%Q) by (apply Qmult_le_0_compat; lra).
    lra.
Qed.

Section Rounding.

Variable Round : Q -> Z.

Hypothesis Round_between :
  forall (lo hi : Z) (x : Q), (inject_Z lo <= x <= inject_Z hi)%Q -> lo <= Round x <= hi.
Hypothesis Round_compat : forall x y : Q, (x == y)%Q -> Round x = Round y.

Lemma clamped_and_rounded_in_limits (T : ScalarType) (x : Q) :
  is_floating T = false -> in_limits T (clamped_and_rounded Round T x).
Proof.
  intros HT. destruct (DataType_limits T HT) as (Hlim & Hlo & Hhi & _).
  unfold in_limits, clamped_and_rounded. rewrite Hlim.
  assert (Hle : (Execute.DataTypeMin T <= Execute.DataTypeMax T)%Q)
    by (destruct T; try discriminate HT; discriminate).
  pose proof (vtkResliceClamp3_between x _ _ Hle) as Hc.
  assert (Hr : Qnum (Execute.DataTypeMin T)
               <= Round (vtkResliceClamp3 x (Execute.DataTypeMin T) (Execute.DataTypeMax T))
               <= Qnum (Execute.DataTypeMax T))
    by (apply Round_between; rewrite <- Hlo, <- Hhi; exact Hc).
  destruct Hr as [Hr1 Hr2]. rewrite Zle_Qle in Hr1, Hr2.
  rewrite <- Hlo in Hr1. rewrite <- Hhi in Hr2. split; assumption.
Qed.

(** The unclamped conversion of a value within the limits is the clamped
    one. *)
Lemma vtkInterpolateRound_within (T : ScalarType) (x : Q) :
  is_floating T = false ->
  (Execute.DataTypeMin T <= x <= Execute.DataTypeMax T)%Q ->
  vtkInterpolateRound Round T x = clamped_and_rounded Round T x.
Proof.
  intros HT Hx. destruct (DataType_limits T HT) as (Hlim & Hlo & Hhi & _).
  unfold vtkInterpolateRound, clamped_and_rounded. rewrite HT, Hlim. f_equal.
  assert (Hsame : (vtkResliceClamp3 x (Execute.DataTypeMin T) (Execute.DataTypeMax T) == x)%Q).
  { unfold vtkResliceClamp3, Qgtb.
    destruct (Qltb (Execute.DataTypeMin T) x) eqn:H1;
      [apply Qltb_lt in H1 | apply Qltb_ge in H1];
      (destruct (Qltb _ (Execute.DataTypeMax T)) eqn:H2;
        [apply Qltb_lt in H2 | apply Qltb_ge in H2]); lra. }
  rewrite (Round_compat _ _ Hsame).
  apply store_int_within; [exact HT |].
  apply Round_between. rewrite <- Hlo, <- Hhi. exact Hx.
Qed.

(** X12: whichever conversion [vtkGetConversionFunc] selects for an integer
    output type, a row of values within the range of the input type that is
    rescaled and converted is stored clamped to the limits of the output type
    and rounded: no value wraps around, and every stored value lies within
    the limits. *)
Theorem rescaled_row_never_wraps (inputType dataType : ScalarType)
    (scalarShift scalarScale : Q) (force : bool)
    (floatData : list Q) (components n : Z) :
  is_floating dataType = false ->
  0 < n ->
  Forall (fun v => (Execute.DataTypeMin inputType <= v <= Execute.DataTypeMax inputType)%Q)
    (take (Z.to_nat (n * components)) floatData) ->
  let conversion :=
    vtkGetConversionFunc Execute.DataTypeMin Execute.DataTypeMax inputType dataType
      scalarShift scalarScale force in
  let stored :=
    apply_conversion Round conversion
      (Execute.vtkImageResliceRescaleScalars floatData components n scalarShift scalarScale)
      components n in
  stored
  = map (fun v => clamped_and_rounded Round dataType ((v + scalarShift) * scalarScale)%Q)
      (take (Z.to_nat (n * components)) floatData) /\
  Forall (in_limits dataType) stored.
Proof.
  intros HT Hn Hrange conversion stored.
  assert (Hstored : stored
            = map (fun v => clamped_and_rounded Round dataType
                              ((v + scalarShift) * scalarScale)%Q)
                (take (Z.to_nat (n * components)) floatData)).
  { subst stored conversion. unfold vtkGetConversionFunc. rewrite HT. cbn [negb andb].
    rewrite andb_true_r.
    set (a := ((Execute.DataTypeMin inputType + scalarShift) * scalarScale)%Q).
    set (b := ((Execute.DataTypeMax inputType + scalarShift) * scalarScale)%Q).
    match goal with
    | |- apply_conversion _ (if ?c then _ else _) _ _ _ = _ => destruct c eqn:Hsel
    end; cbn [apply_conversion]; unfold Clamp, Convert.
    - rewrite take_rescaled, map_map. apply map_ext. intros v.
      apply vtkResliceClamp_no_wrap, Round_between.
    - replace (0 <? n) with true by (symmetry; apply Z.ltb_lt; exact Hn).
      rewrite take_rescaled, map_map.
      apply map_ext_in. intros v Hv.
      rewrite List.Forall_forall in Hrange. specialize (Hrange v Hv).
      apply vtkInterpolateRound_within; [exact HT |].
      destruct force; [discriminate Hsel |]. cbn [negb] in Hsel.
      unfold Qgtb in Hsel.
      destruct (scaled_between _ _ v scalarShift scalarScale Hrange) as [Hpos Hneg].
      fold a b in Hpos, Hneg.
      set (x := ((v + scalarShift) * scalarScale)%Q) in *.
      clearbody a b x.
      destruct (Qltb b a) eqn:Hswap;
        [apply Qltb_lt in Hswap | apply Qltb_ge in Hswap];
        apply orb_false_iff in Hsel; destruct Hsel as [H1 H2];
        apply Qltb_ge in H1; apply Qltb_ge in H2;
        (destruct (Qlt_le_dec scalarScale 0) as [Hc | Hc];
         [specialize (Hneg (Qlt_le_weak _ _ Hc)) | specialize (Hpos Hc)]); lra. }
  split; [exact Hstored |].
  rewrite Hstored. apply List.Forall_forall. intros s Hs.
  apply in_map_iff in Hs. destruct Hs as (v & <- & _).
  apply clamped_and_rounded_in_limits, HT.
Qed.

End Rounding.

(** 16-bit input halved into 8 bits: the range 0..32767.5 does not fit, so
    the clamping conversion is selected. *)
Lemma rescaled_row_never_wraps_witness :
  0 < 2 /\
  apply_conversion Round_half_up
    (vtkGetConversionFunc Execute.DataTypeMin Execute.DataTypeMax TypeUInt16 TypeUInt8
       0 (1 # 2) false)
    (Execute.vtkImageResliceRescaleScalars [100; 301; 1000; 7]%Q 1 2 0 (1 # 2)) 1 2
  = map (fun v => clamped_and_rounded Round_half_up TypeUInt8 ((v + 0) * (1 # 2))%Q)
      (take (Z.to_nat (2 * 1)) [100; 301; 1000; 7]%Q).
Proof.
  split; [lia |].
  apply (rescaled_row_never_wraps Round_half_up Round_half_up_between
           Slab.Round_half_up_compat TypeUInt16 TypeUInt8 0 (1 # 2) false
           [100; 301; 1000; 7]%Q 1 2); [reflexivity | lia |].
  repeat constructor; discriminate.
Defined.

(** The row of the witness, and what the unclamped conversion does to a
    value beyond the limits: 600 wraps to 88 in 8 bits, the clamp stores
    255. *)
Example rescaled_row_uint8 :
  apply_conversion Round_half_up
    (vtkGetConversionFunc Execute.DataTypeMin Execute.DataTypeMax TypeUInt16 TypeUInt8
       0 (1 # 2) false)
    (Execute.vtkImageResliceRescaleScalars [100; 301; 1000; 7]%Q 1 2 0 (1 # 2)) 1 2
  = [IntVal 50; IntVal 151] /\
  Convert Round_half_up TypeUInt8 [600%Q] 1 1 = [IntVal 88] /\
  Clamp Round_half_up TypeUInt8 [600%Q] 1 1 = [IntVal 255].
Proof. repeat split; vm_compute; reflexivity. Qed.

End ConvertFacts.

(** ** The permute path on an empty clipped extent, and its sample points *)

Module PermuteFacts.
Import Numeric Convert.

Section EmptyClip.

Variable Round : Q -> Z.
Variable GetDataTypeMin : ScalarType -> Q.
Variable GetDataTypeMax : ScalarType -> Q.
Variable heap : Execute.Heap.
Variable self : Execute.vtkImageReslice.
Variable scalars : Execute.vtkDataArray.
Variable interpolator : Execute.vtkAbstractImageInterpolator.
Variable outData : Execute.vtkImageData.

Lemma zrange_nil (lo hi : Z) : hi < lo -> Execute.zrange lo hi = [].
Proof.
  intros H. unfold Execute.zrange.
  replace (Z.to_nat (hi - lo + 1)) with 0%nat by lia. reflexivity.
Qed.

Lemma flat_map_nil {A B} (l : list A) : flat_map (fun _ => @nil B) l = [].
Proof. induction l as [| a l IH]; [reflexivity | exact IH]. Qed.

Lemma flat_map_map {A B C} (f : B -> list C) (g : A -> B) (l : list A) :
  flat_map f (map g l) = flat_map (fun a => f (g a)) l.
Proof. induction l as [| a l IH]; cbn; [reflexivity | rewrite IH; reflexivity]. Qed.

(** X14: when the extent the interpolator clips the weight table to is
    empty on some axis, the permute path writes what
    [vtkImageResliceClearExecute] writes: the background pixel over the whole
    tile. *)
Theorem permute_empty_clip_clears (matrix : vtkMatrix4x4) (outExt : list Z) :
  Execute.permute_empty self interpolator matrix outExt = true ->
  Execute.vtkReslicePermuteExecute Round GetDataTypeMin GetDataTypeMax heap self scalars
    interpolator outData matrix outExt
  = Execute.vtkImageResliceClearExecute Round heap self outData outExt.
Proof.
  intros Hempty.
  unfold Execute.vtkReslicePermuteExecute. rewrite Hempty. cbn [negb].
  unfold Execute.iterExt. fold (Execute.permute_empty self interpolator matrix outExt).
  rewrite Hempty.
  change (([outExt !!! 0%nat; outExt !!! 0%nat - 1; outExt !!! 2%nat;
            outExt !!! 2%nat - 1; outExt !!! 4%nat; outExt !!! 4%nat - 1] : list Z)
            !!! 4%nat) with (outExt !!! 4%nat).
  change (([outExt !!! 0%nat; outExt !!! 0%nat - 1; outExt !!! 2%nat;
            outExt !!! 2%nat - 1; outExt !!! 4%nat; outExt !!! 4%nat - 1] : list Z)
            !!! 5%nat) with (outExt !!! 4%nat - 1).
  unfold Execute.clear_slices at 1. rewrite zrange_nil by lia. cbn [flat_map app].
  replace (outExt !!! 4%nat - 1 + 1) with (outExt !!! 4%nat) by lia.
  unfold Execute.clear_slices, Execute.clear_rows, Execute.permute_setpixels,
    Execute.permute_background, Execute.fullspan, Execute.vtkImageResliceClearExecute,
    Execute.spans.
  destruct (Z.ltb_spec (outExt !!! 1%nat) (outExt !!! 0%nat)) as [Hlt | Hge].
  - rewrite Execute.setpixels_copies.
    replace (Z.to_nat (outExt !!! 1%nat - outExt !!! 0%nat + 1)) with 0%nat by lia.
    cbn [replicate concat]. rewrite flat_map_nil. apply flat_map_nil.
  - rewrite Execute.flat_map_nested. apply flat_map_ext. intros idZ.
    rewrite flat_map_map. reflexivity.
Qed.

End EmptyClip.

(** The column moved a hundred voxels up: no output voxel of the tile maps
    into the input. *)
Definition far_shift : vtkMatrix4x4 :=
  [ [1; 0; 0; 0];
    [0; 1; 0; 0];
    [0; 0; 1; 100];
    [0; 0; 0; 1] ]%Q.

Definition far_tile : list Z := [0; 0; 0; 0; 0; 2].

Lemma permute_empty_clip_clears_witness :
  Execute.permute_empty (Execute.slab_filter 1 true) Execute.column_interpolator
    far_shift far_tile = true /\
  Execute.vtkReslicePermuteExecute Round_half_up Execute.DataTypeMin Execute.DataTypeMax
    Execute.some_heap (Execute.slab_filter 1 true) Execute.column_scalars
    Execute.column_interpolator Execute.uint16_output far_shift far_tile
  = Execute.vtkImageResliceClearExecute Round_half_up Execute.some_heap
      (Execute.slab_filter 1 true) Execute.uint16_output far_tile.
Proof.
  split; [reflexivity |].
  apply (permute_empty_clip_clears Round_half_up Execute.DataTypeMin Execute.DataTypeMax
           Execute.some_heap (Execute.slab_filter 1 true) Execute.column_scalars
           Execute.column_interpolator Execute.uint16_output far_shift far_tile).
  reflexivity.
Defined.

(** The tile of the witness: three voxels of background. *)
Example far_tile_is_background :
  Execute.vtkReslicePermuteExecute Round_half_up Execute.DataTypeMin Execute.DataTypeMax
    Execute.some_heap (Execute.slab_filter 1 true) Execute.column_scalars
    Execute.column_interpolator Execute.uint16_output far_shift far_tile
  = [IntVal 0; IntVal 0; IntVal 0].
Proof. vm_compute. reflexivity. Qed.

(** A slab of three slices through an oblique affine matrix. *)
Lemma permute_samples_half_slice_lower_witness :
  1 < Execute.SlabNumberOfSlices (Execute.slab_filter 3 true) /\
  Forall2 Qeq
    (Execute.map_index
       (Execute.smatrix (Execute.slab_filter 3 true)
          [ [1; 0; 0; 0]; [0; 1; 0; 0]; [0; 0; 2; 1 # 4]; [0; 0; 0; 1] ]%Q) 0 0 (2 + 1))
    (map (fun r =>
            (nth r (Execute.sample_point (Execute.slab_filter 3 true)
                      [ [1; 0; 0; 0]; [0; 1; 0; 0]; [0; 0; 2; 1 # 4]; [0; 0; 0; 1] ]%Q
                      (Execute.advance
                         (Execute.advance
                            (Execute.advance
                               (Execute.origin
                                  [ [1; 0; 0; 0]; [0; 1; 0; 0]; [0; 0; 2; 1 # 4];
                                    [0; 0; 0; 1] ]%Q)
                               (inject_Z 2)
                               (Execute.zAxis
                                  [ [1; 0; 0; 0]; [0; 1; 0; 0]; [0; 0; 2; 1 # 4];
                                    [0; 0; 0; 1] ]%Q))
                            (inject_Z 0)
                            (Execute.yAxis
                               [ [1; 0; 0; 0]; [0; 1; 0; 0]; [0; 0; 2; 1 # 4];
                                 [0; 0; 0; 1] ]%Q))
                         (inject_Z 0)
                         (Execute.xAxis
                            [ [1; 0; 0; 0]; [0; 1; 0; 0]; [0; 0; 2; 1 # 4];
                              [0; 0; 0; 1] ]%Q))
                      1) 0
             - (1 # 2)
               * nth r (Execute.zAxis
                          [ [1; 0; 0; 0]; [0; 1; 0; 0]; [0; 0; 2; 1 # 4];
                            [0; 0; 0; 1] ]%Q) 0)%Q)
       [0; 1; 2]%nat).
Proof.
  split; [cbn; lia |].
  apply (Execute.permute_samples_half_slice_lower 1 0 0 0 0 1 0 0 0 0 2 (1 # 4)
           (Execute.slab_filter 3 true) 0 0 2 1); [cbn; lia | reflexivity].
Defined.

End PermuteFacts.

(** ** The output information, [RequestInformation] *)

Module Information.
Import Numeric.

(** Modelled from the spec: [vtkMatrix3x3::MultiplyPoint],
    [vtkMatrix4x4::MultiplyPoint] and [vtkMatrix4x4::Identity] belong to the
    math primitives outside the sources at hand: the product of the matrix
    (row after row) with the column vector, and the identity. *)
Definition MultiplyPoint3x3 (m p : list Q) : list Q :=
  map (fun i =>
         (Geometry.elem3 m i 0 * nth 0 p 0 + Geometry.elem3 m i 1 * nth 1 p 0
          + Geometry.elem3 m i 2 * nth 2 p 0)%Q)
    [0; 1; 2]%nat.

Definition MultiplyPoint4x4 (m p : list Q) : list Q :=
  map (fun i =>
         (nth (4 * i) m 0 * nth 0 p 0 + nth (4 * i + 1) m 0 * nth 1 p 0
          + nth (4 * i + 2) m 0 * nth 2 p 0 + nth (4 * i + 3) m 0 * nth 3 p 0)%Q)
    [0; 1; 2; 3]%nat.

Definition Identity4x4 : list Q :=
  [1; 0; 0; 0; 0; 1; 0; 0; 0; 0; 1; 0; 0; 0; 0; 1]%Q.

(** [VTK_DOUBLE_MAX] of [vtkType.h]. *)
Definition VTK_DOUBLE_MAX : Q := inject_Z (10 ^ 299).

(** The keys of the pipeline information read and written here. *)
Record vtkInformation := {
  WHOLE_EXTENT : list Z;
  SPACING : list Q;
  DIRECTION : option (list Q);
  ORIGIN : list Q
}.

(** The information input, when one is set. *)
Record vtkImageData := {
  GetExtent : list Z;
  GetSpacing : list Q;
  GetDirectionMatrix : list Q;
  GetOrigin : list Q
}.

(** The reslice transform, through the [TransformPoint] of its inverse. *)
Record vtkAbstractTransform := {
  InverseTransformPoint : list Q -> list Q
}.

(** The members [RequestInformation] reads; [ResliceAxes] is the 16
    elements of the matrix ([GetData()]). *)
Record vtkImageReslice := {
  InformationInput : option vtkImageData;
  PassDirectionToOutput : bool;
  OutputDirection : list Q;
  TransformInputSampling : bool;
  ResliceAxes : option (list Q);
  ResliceTransform : option vtkAbstractTransform;
  AutoCropOutput : bool;
  ComputeOutputSpacing : bool;
  OutputSpacing : list Q;
  OutputDimensionality : Z;
  ComputeOutputExtent : bool;
  OutputExtent : list Z;
  ComputeOutputOrigin : bool;
  OutputOrigin : list Q
}.

(** What [RequestInformation] sets in the output information. *)
Record Output := {
  outWholeExt : list Z;
  outSpacing : list Q;
  outDirection : list Q;
  outOrigin : list Q
}.

(** One corner of the bounds loop: [if (point[j] > bounds[2j+1]) ...;
    if (point[j] < bounds[2j]) ...] for the three axes. *)
Definition grow (bounds point : list Q) : list Q :=
  fold_left
    (fun bounds j =>
       let bounds :=
         if Qgtb (nth j point 0%Q) (nth (2 * j + 1) bounds 0%Q)
         then <[(2 * j + 1)%nat := nth j point 0%Q]> bounds else bounds in
       if Qltb (nth j point 0%Q) (nth (2 * j) bounds 0%Q)
       then <[(2 * j)%nat := nth j point 0%Q]> bounds else bounds)
    [0; 1; 2]%nat bounds.

Section Helpers.

(** [vtkInterpolationMath::Round], [sqrt] and [vtkMatrix4x4::Invert] (on the
    16 elements) are outside the sources at hand. *)
Variable Round : Q -> Z.
Variable sqrt : Q -> Q.
Variable Invert4x4 : list Q -> list Q.

Section Bounds.

Variable self : vtkImageReslice.
Variable inInfo : vtkInformation.
Variable outDirection_ : list Q.

Definition crop_inDirection : list Q :=
  match DIRECTION inInfo with
  | Some d => d
  | None => Geometry.Identity3x3
  end.

Definition crop_matrix : list Q :=
  match ResliceAxes self with
  | Some axesData => Invert4x4 axesData
  | None => Identity4x4
  end.

(** The body of the loop over the eight corners, up to the update of the
    bounds: the corner [i] of the input whole extent in output
    coordinates. *)
Definition crop_corner (i : nat) : list Q :=
  let inWholeExt := WHOLE_EXTENT inInfo in
  let inSpacing := SPACING inInfo in
  let inOrigin := ORIGIN inInfo in
  let direction := Geometry.Invert3x3 outDirection_ in
  let point :=
    [ (inject_Z (nth (i mod 2) inWholeExt 0%Z) * nth 0 inSpacing 0)%Q;
      (inject_Z (nth (2 + (i / 2) mod 2) inWholeExt 0%Z) * nth 1 inSpacing 0)%Q;
      (inject_Z (nth (4 + (i / 4) mod 2) inWholeExt 0%Z) * nth 2 inSpacing 0)%Q ] in
  let point := MultiplyPoint3x3 crop_inDirection point in
  let point := map (fun k => (nth k point 0 + nth k inOrigin 0)%Q) [0; 1; 2]%nat in
  let point :=
    match ResliceTransform self with
    | Some transform => InverseTransformPoint transform point
    | None => point
    end in
  let point := MultiplyPoint4x4 crop_matrix (take 3 point ++ [1%Q]) in
  let f := (1 / nth 3 point 0)%Q in
  let point := map (fun k => (nth k point 0 * f)%Q) [0; 1; 2]%nat in
  MultiplyPoint3x3 direction point.

(** [GetAutoCroppedOutputBounds] *)
Definition GetAutoCroppedOutputBounds : list Q :=
  fold_left (fun bounds i => grow bounds (crop_corner i)) (seq 0 8)
    [VTK_DOUBLE_MAX; (- VTK_DOUBLE_MAX)%Q; VTK_DOUBLE_MAX; (- VTK_DOUBLE_MAX)%Q;
     VTK_DOUBLE_MAX; (- VTK_DOUBLE_MAX)%Q].

End Bounds.

Section Request.

Variable self : vtkImageReslice.
Variable inInfo : vtkInformation.

Definition inWholeExt : list Z :=
  match InformationInput self with
  | Some input => GetExtent input
  | None => WHOLE_EXTENT inInfo
  end.

Definition inSpacing : list Q :=
  match InformationInput self with
  | Some input => GetSpacing input
  | None => SPACING inInfo
  end.

Definition inDirection : list Q :=
  match InformationInput self with
  | Some input => GetDirectionMatrix input
  | None =>
      match DIRECTION inInfo with
      | Some d => d
      | None => Geometry.Identity3x3
      end
  end.

Definition inOrigin : list Q :=
  match InformationInput self with
  | Some input => GetOrigin input
  | None => ORIGIN inInfo
  end.

Definition direction_out : list Q :=
  if PassDirectionToOutput self then inDirection else OutputDirection self.

(** The center of the input image. *)
Definition input_center : list Q :=
  let center :=
    map (fun i =>
           ((1 # 2) * inject_Z (nth (2 * i) inWholeExt 0%Z + nth (2 * i + 1) inWholeExt 0%Z)
            * nth i inSpacing 0)%Q)
      [0; 1; 2]%nat in
  let center := MultiplyPoint3x3 inDirection center in
  map (fun i => (nth i inOrigin 0 + nth i center 0)%Q) [0; 1; 2]%nat.

Definition resliceRotation (axesData : list Q) : list Q :=
  map (fun k => nth k axesData 0%Q) [0; 1; 2; 4; 5; 6; 8; 9; 10]%nat.

(** [rotation] and [center] when the loop over the axes starts, with
    [TransformInputSampling] on. *)
Definition sampling_rotation : list Q :=
  let rotation := direction_out in
  let rotation :=
    match ResliceAxes self with
    | Some axesData => Geometry.Multiply3x3 (resliceRotation axesData) rotation
    | None => rotation
    end in
  Geometry.Multiply3x3 (Geometry.Invert3x3 inDirection) rotation.

Definition sampling_center : list Q :=
  match ResliceAxes self with
  | Some axesData =>
      let center :=
        [ (nth 0 input_center 0 - nth 3 axesData 0)%Q;
          (nth 1 input_center 0 - nth 7 axesData 0)%Q;
          (nth 2 input_center 0 - nth 11 axesData 0)%Q ] in
      MultiplyPoint3x3 (Geometry.Invert3x3 (resliceRotation axesData)) center
  | None => input_center
  end.

(** The inner loop over [j]: the sums [s], [d], [e] and [r] of axis [i]. *)
Definition rotated_sums (rotation : list Q) (i : nat) : Q * Q * Q * Q :=
  fold_left
    (fun '(s, d, e, r) j =>
       let tmp := (nth (3 * j + i) rotation 0 * nth (3 * j + i) rotation 0)%Q in
       ((s + tmp * Qabs (nth j inSpacing 0))%Q,
        (d + tmp * inject_Z (nth (2 * j + 1) inWholeExt 0%Z - nth (2 * j) inWholeExt 0%Z)
             * Qabs (nth j inSpacing 0))%Q,
        (e + tmp * inject_Z (nth (2 * j) inWholeExt 0%Z))%Q,
        (r + tmp)%Q))
    [0; 1; 2]%nat (0%Q, 0%Q, 0%Q, 0%Q).

(** Spacing and extent of axis [i] after the first part: rotated with
    [TransformInputSampling], copied without.  The quotients are those of
    the source as long as no divisor is zero, and [Round] is the source's
    conversion to [int] as long as its argument lies within the range of
    [int]; where a divisor is zero the source works on an infinity or a
    NaN, which has no counterpart here.  The statements below therefore
    carry the hypotheses that exclude these cases. *)
Definition sampled_axis (i : nat) : Q * Z * Z :=
  if TransformInputSampling self then
    let '(s, d, e, r) := rotated_sums sampling_rotation i in
    let s := (s / r)%Q in
    let d := (d / (r * sqrt r))%Q in
    let e := (e / r)%Q in
    let s := if negb (ComputeOutputSpacing self) then nth i (OutputSpacing self) 0%Q else s in
    let lo := Round e in
    (s, lo, Round (inject_Z lo + Qabs (d / s))%Q)
  else
    (nth i inSpacing 0%Q, nth (2 * i) inWholeExt 0, nth (2 * i + 1) inWholeExt 0%Z).

Definition center : list Q :=
  if TransformInputSampling self then sampling_center else input_center.

Definition maxBounds : list Q :=
  GetAutoCroppedOutputBounds self inInfo direction_out.

(** The loop taken with [AutoCropOutput]; the quotient [d / s] is the
    source's for a spacing [s] that is not zero. *)
Definition cropped_axis (i : nat) : Q * Z * Z :=
  let '(spacing, lo, hi) := sampled_axis i in
  if AutoCropOutput self then
    let d := (nth (2 * i + 1) maxBounds 0 - nth (2 * i) maxBounds 0)%Q in
    let s := if ComputeOutputSpacing self then spacing else nth i (OutputSpacing self) 0%Q in
    (spacing, lo, Round (inject_Z lo + Qabs (d / s))%Q)
  else (spacing, lo, hi).

(** The loop that fixes spacing and extent and computes [pCenter]. *)
Definition final_axis (i : nat) : Q * Z * Z :=
  let '(spacing, lo, hi) := cropped_axis i in
  let spacing :=
    if negb (ComputeOutputSpacing self) then nth i (OutputSpacing self) 0%Q else spacing in
  let '(lo, hi) :=
    if OutputDimensionality self <=? Z.of_nat i then (0, 0)
    else if negb (ComputeOutputExtent self)
    then (nth (2 * i) (OutputExtent self) 0, nth (2 * i + 1) (OutputExtent self) 0)
    else (lo, hi) in
  (spacing, lo, hi).

Definition final_spacing (i : nat) : Q := fst (fst (final_axis i)).
Definition final_lower (i : nat) : Z := snd (fst (final_axis i)).
Definition final_upper (i : nat) : Z := snd (final_axis i).

Definition pCenter : list Q :=
  MultiplyPoint3x3 direction_out
    (map (fun i =>
            ((1 # 2) * inject_Z (final_lower i + final_upper i) * final_spacing i)%Q)
       [0; 1; 2]%nat).

Definition origin_axis (i : nat) : Q :=
  if OutputDimensionality self <=? Z.of_nat i then 0%Q
  else if negb (ComputeOutputOrigin self) then nth i (OutputOrigin self) 0%Q
  else if AutoCropOutput self then
    let x := (nth 0 maxBounds 0 - inject_Z (final_lower 0) * final_spacing 0)%Q in
    let y := (nth 2 maxBounds 0 - inject_Z (final_lower 1) * final_spacing 1)%Q in
    let z := (nth 4 maxBounds 0 - inject_Z (final_lower 2) * final_spacing 2)%Q in
    (x * nth (3 * i) direction_out 0 + y * nth (3 * i + 1) direction_out 0
     + z * nth (3 * i + 2) direction_out 0)%Q
  else (nth i center 0 - nth i pCenter 0)%Q.

(** [RequestInformation], up to the call of [RequestInformationBase]. *)
Definition RequestInformation : Output :=
  {| outWholeExt := flat_map (fun i => [final_lower i; final_upper i]) [0; 1; 2]%nat;
     outSpacing := map final_spacing [0; 1; 2]%nat;
     outDirection := direction_out;
     outOrigin := map origin_axis [0; 1; 2]%nat |}.

End Request.

End Helpers.

(** *** The bounds contain the corners *)







Section BoundsFacts.

Variable Invert4x4 : list Q -> list Q.
Variable self : vtkImageReslice.
Variable inInfo : vtkInformation.
Variable direction : list Q.


End BoundsFacts.

(** *** A newly constructed filter *)

(** The members as the constructor sets them. *)
Definition constructed : vtkImageReslice :=
  {| InformationInput := None;
     PassDirectionToOutput := true;
     OutputDirection := Geometry.Identity3x3;
     TransformInputSampling := true;
     ResliceAxes := None;
     ResliceTransform := None;
     AutoCropOutput := false;
     ComputeOutputSpacing := true;
     OutputSpacing := [1; 1; 1]%Q;
     OutputDimensionality := 3;
     ComputeOutputExtent := true;
     OutputExtent := [0; 0; 0; 0; 0; 0];
     ComputeOutputOrigin := true;
     OutputOrigin := [0; 0; 0]%Q |}.

(** The inverse of a direction matrix times the matrix. *)
Lemma inverse_times_direction (d0 d1 d2 d3 d4 d5 d6 d7 d8 : Q) :
  let D := [d0; d1; d2; d3; d4; d5; d6; d7; d8] in
  ~ (Geometry.Determinant3x3 D == 0)%Q ->
  Geometry.Qeqs (Geometry.Multiply3x3 (Geometry.Invert3x3 D) D) Geometry.Identity3x3.
Proof.
  intros D Hdet. subst D.
  unfold Geometry.Determinant3x3, Geometry.elem3 in Hdet. cbn [Nat.mul Nat.add nth] in Hdet.
  unfold Geometry.Qeqs, Geometry.Multiply3x3, Geometry.Invert3x3, Geometry.Determinant3x3,
    Geometry.Identity3x3, Geometry.elem3.
  cbn [flat_map map app Nat.mul Nat.add nth].
  repeat constructor; field; exact Hdet.
Qed.

Section Passing.

Variable Round : Q -> Z.
Variable sqrt : Q -> Q.
Variable Invert4x4 : list Q -> list Q.

(** [Round] gives back an integer, and the square root of one is one. *)
Hypothesis Round_integer : forall (x : Q) (z : Z), (x == inject_Z z)%Q -> Round x = z.
Hypothesis sqrt_one : forall x : Q, (x == 1)%Q -> (sqrt x == 1)%Q.

Lemma rotated_sums_identity (self : vtkImageReslice) (inInfo : vtkInformation)
    (R : list Q) (i : nat) :
  Geometry.Qeqs R Geometry.Identity3x3 -> (i < 3)%nat ->
  let '(s, d, e, r) := rotated_sums self inInfo R i in
  (r == 1)%Q /\
  (s == Qabs (nth i (inSpacing self inInfo) 0))%Q /\
  (d == inject_Z (nth (2 * i + 1) (inWholeExt self inInfo) 0%Z
                  - nth (2 * i) (inWholeExt self inInfo) 0%Z)
        * Qabs (nth i (inSpacing self inInfo) 0))%Q /\
  (e == inject_Z (nth (2 * i) (inWholeExt self inInfo) 0%Z))%Q.
Proof.
  intros HR Hi. unfold Geometry.Qeqs, Geometry.Identity3x3 in HR.
  repeat match goal with
         | H : Forall2 _ _ (_ :: _) |- _ =>
             let x := fresh "r" in let l := fresh "R" in
             let Hx := fresh "Hr" in let Hl := fresh "HR" in
             inversion H as [| x ? l ? Hx Hl]; subst; clear H
         | H : Forall2 _ _ [] |- _ => inversion H; subst; clear H
         end.
  unfold rotated_sums.
  generalize (inSpacing self inInfo) (inWholeExt self inInfo). intros sp ext.
  destruct i as [| [| [| i]]]; [| | | lia]; cbn [fold_left Nat.mul Nat.add nth];
    repeat match goal with
           | H : (_ == _)%Q |- _ => rewrite H; clear H
           end;
    repeat split; ring.
Qed.

(** Spacing and extent of an axis when the rotation of the sampling is the
    identity and nothing is set by the user. *)
Lemma unrotated_axis (self : vtkImageReslice) (inInfo : vtkInformation) (i : nat) :
  TransformInputSampling self = true -> AutoCropOutput self = false ->
  ComputeOutputSpacing self = true -> ComputeOutputExtent self = true ->
  OutputDimensionality self = 3 ->
  Geometry.Qeqs (sampling_rotation self inInfo) Geometry.Identity3x3 ->
  (i < 3)%nat ->
  nth (2 * i) (inWholeExt self inInfo) 0 <= nth (2 * i + 1) (inWholeExt self inInfo) 0 ->
  ~ (nth i (inSpacing self inInfo) 0 == 0)%Q ->
  final_lower Round sqrt Invert4x4 self inInfo i = nth (2 * i) (inWholeExt self inInfo) 0 /\
  final_upper Round sqrt Invert4x4 self inInfo i
    = nth (2 * i + 1) (inWholeExt self inInfo) 0 /\
  (final_spacing Round sqrt Invert4x4 self inInfo i
   == Qabs (nth i (inSpacing self inInfo) 0))%Q.
Proof.
  intros Htis Hcrop Hcs Hce Hdim HR Hi Hext Hsp.
  pose proof (rotated_sums_identity self inInfo (sampling_rotation self inInfo) i HR Hi)
    as Hsums.
  unfold final_lower, final_upper, final_spacing, final_axis, cropped_axis, sampled_axis.
  rewrite Htis, Hcrop, Hcs, Hce, Hdim. cbn [negb].
  destruct (rotated_sums self inInfo (sampling_rotation self inInfo) i) as [[[s d] e] r].
  destruct Hsums as (Hr & Hs & Hd & He).
  replace (3 <=? Z.of_nat i) with false by (symmetry; apply Z.leb_gt; lia).
  cbn [fst snd].
  set (lo := nth (2 * i) (inWholeExt self inInfo) 0) in *.
  set (hi := nth (2 * i + 1) (inWholeExt self inInfo) 0) in *.
  set (sp := nth i (inSpacing self inInfo) 0%Q) in *.
  assert (Habs : ~ (Qabs sp == 0)%Q).
  { intros H0. apply Hsp. destruct (Qlt_le_dec sp 0) as [Hneg | Hpos].
    - rewrite Qabs_neg in H0 by lra. lra.
    - rewrite Qabs_pos in H0 by exact Hpos. exact H0. }
  assert (Hlo : Round (e / r) = lo)
    by (apply Round_integer; rewrite He, Hr; field).
  rewrite Hlo.
  split; [reflexivity |]. split.
  - apply Round_integer.
    assert (Hq : (d / (r * sqrt r) / (s / r) == inject_Z (hi - lo))%Q)
      by (rewrite (sqrt_one r Hr), Hd, Hs, Hr; field; exact Habs).
    rewrite Hq, Qabs_pos by (rewrite <- (Zle_Qle 0); lia).
    rewrite <- inject_Z_plus. replace (lo + (hi - lo)) with hi by lia. reflexivity.
  - rewrite Hs, Hr. field.
Qed.

(** X16: a newly constructed filter hands the geometry of its input on:
    for an input with a non-empty whole extent, positive spacing and an
    invertible direction matrix, [RequestInformation] sets the whole extent
    and the direction of the input, and a spacing and an origin equal to
    those of the input. *)
Theorem constructed_filter_passes_geometry
    (e0 e1 e2 e3 e4 e5 : Z) (s0 s1 s2 d0 d1 d2 d3 d4 d5 d6 d7 d8 o0 o1 o2 : Q) :
  let D := [d0; d1; d2; d3; d4; d5; d6; d7; d8] in
  let input :=
    {| WHOLE_EXTENT := [e0; e1; e2; e3; e4; e5]; SPACING := [s0; s1; s2];
       DIRECTION := Some D; ORIGIN := [o0; o1; o2] |} in
  e0 <= e1 -> e2 <= e3 -> e4 <= e5 ->
  (0 < s0)%Q -> (0 < s1)%Q -> (0 < s2)%Q ->
  ~ (Geometry.Determinant3x3 D == 0)%Q ->
  let out := RequestInformation Round sqrt Invert4x4 constructed input in
  outWholeExt out = [e0; e1; e2; e3; e4; e5] /\
  Geometry.Qeqs (outSpacing out) [s0; s1; s2] /\
  outDirection out = D /\
  Geometry.Qeqs (outOrigin out) [o0; o1; o2].
Proof.
  intros D input He0 He1 He2 Hs0 Hs1 Hs2 Hdet out.
  assert (HR : Geometry.Qeqs (sampling_rotation constructed input) Geometry.Identity3x3)
    by (apply inverse_times_direction; exact Hdet).
  assert (Hax : forall i, (i < 3)%nat ->
            nth (2 * i) [e0; e1; e2; e3; e4; e5] 0 <= nth (2 * i + 1) [e0; e1; e2; e3; e4; e5] 0 ->
            (0 < nth i [s0; s1; s2] 0)%Q ->
            final_lower Round sqrt Invert4x4 constructed input i
              = nth (2 * i) [e0; e1; e2; e3; e4; e5] 0 /\
            final_upper Round sqrt Invert4x4 constructed input i
              = nth (2 * i + 1) [e0; e1; e2; e3; e4; e5] 0 /\
            (final_spacing Round sqrt Invert4x4 constructed input i
             == nth i [s0; s1; s2] 0)%Q).
  { intros i Hi Hext Hsp.
    destruct (unrotated_axis constructed input i eq_refl eq_refl eq_refl eq_refl
                eq_refl HR Hi Hext) as (Hl & Hu & Hf).
    - change (inSpacing constructed input) with [s0; s1; s2]. lra.
    - split; [exact Hl |]. split; [exact Hu |].
      rewrite Hf. change (inSpacing constructed input) with [s0; s1; s2].
      apply Qabs_pos. lra. }
  destruct (Hax 0%nat ltac:(lia) He0 Hs0) as (L0 & U0 & F0).
  destruct (Hax 1%nat ltac:(lia) He1 Hs1) as (L1 & U1 & F1).
  destruct (Hax 2%nat ltac:(lia) He2 Hs2) as (L2 & U2 & F2).
  cbn [nth Nat.mul Nat.add] in L0, U0, F0, L1, U1, F1, L2, U2, F2.
  subst out. unfold RequestInformation. cbn [outWholeExt outSpacing outDirection outOrigin].
  split; [| split; [| split]].
  - cbn [flat_map app]. rewrite L0, U0, L1, U1, L2, U2. reflexivity.
  - cbn [map]. repeat constructor; assumption.
  - reflexivity.
  - unfold Geometry.Qeqs. cbn [map]. unfold origin_axis.
    cbn [OutputDimensionality ComputeOutputOrigin AutoCropOutput constructed negb].
    change (3 <=? Z.of_nat 0) with false. change (3 <=? Z.of_nat 1) with false.
    change (3 <=? Z.of_nat 2) with false. cbv iota.
    unfold center, pCenter, sampling_center, input_center, direction_out, MultiplyPoint3x3,
      Geometry.elem3.
    cbn [TransformInputSampling ResliceAxes PassDirectionToOutput constructed].
    change (inDirection constructed input) with D.
    change (inOrigin constructed input) with [o0; o1; o2].
    change (inSpacing constructed input) with [s0; s1; s2].
    change (inWholeExt constructed input) with [e0; e1; e2; e3; e4; e5].
    subst D. cbn [map nth Nat.mul Nat.add].
    rewrite L0, U0, L1, U1, L2, U2.
    repeat constructor; rewrite F0, F1, F2; ring.
Qed.

End Passing.

(** *** The output extent and origin *)

Section Extent.

Variable Round : Q -> Z.
Variable sqrt : Q -> Q.
Variable Invert4x4 : list Q -> list Q.

(** Rounding a value that lies between two integers stays between them. *)
Hypothesis Round_between :
  forall (lo hi : Z) (x : Q), (inject_Z lo <= x <= inject_Z hi)%Q -> lo <= Round x <= hi.





End Extent.

(** *** Instances of the helpers, and an input *)

Lemma Round_half_up_integer (x : Q) (z : Z) : (x == inject_Z z)%Q -> Round_half_up x = z.
Proof.
  intros H. unfold Round_half_up. rewrite H.
  assert (Hlo : z <= Qfloor (inject_Z z + (1 # 2)))
    by (rewrite <- (Qfloor_Z z) at 1; apply Qfloor_resp_le; lra).
  assert (Hhi : (inject_Z (Qfloor (inject_Z z + (1 # 2))) < inject_Z (z + 1))%Q).
  { apply Qle_lt_trans with (inject_Z z + (1 # 2))%Q; [apply Qfloor_le |].
    rewrite inject_Z_plus. change (inject_Z 1) with 1%Q. lra. }
  rewrite <- Zlt_Qlt in Hhi. lia.
Qed.

(** The square root of a rational whose reduced numerator and denominator
    are squares (the integer square roots of the two elsewhere). *)
Definition Qsqrt (x : Q) : Q :=
  let r := Qred x in Z.sqrt (Qnum r) # Pos.sqrt (Qden r).

Lemma Qsqrt_one (x : Q) : (x == 1)%Q -> (Qsqrt x == 1)%Q.
Proof.
  intros H. unfold Qsqrt. rewrite (Qred_complete x 1 H). reflexivity.
Qed.

(** Modelled from the spec: [vtkMatrix4x4::Invert] on the 16 elements of a
    matrix whose bottom row is (0, 0, 0, 1): the inverse of the 3x3 part, and
    the translation taken through it and negated. *)
Definition Invert_affine (m : list Q) : list Q :=
  let R := Geometry.Invert3x3 (resliceRotation m) in
  let t := MultiplyPoint3x3 R [nth 3 m 0%Q; nth 7 m 0%Q; nth 11 m 0%Q] in
  [ nth 0 R 0; nth 1 R 0; nth 2 R 0; (- nth 0 t 0);
    nth 3 R 0; nth 4 R 0; nth 5 R 0; (- nth 1 t 0);
    nth 6 R 0; nth 7 R 0; nth 8 R 0; (- nth 2 t 0);
    0; 0; 0; 1 ]%Q.

(** An image of 10 x 20 x 1 voxels, 1/2, 2 and 3 apart, turned a quarter
    about Z, with origin (10, 20, 30). *)
Definition turned_image : vtkInformation :=
  {| WHOLE_EXTENT := [0; 9; 0; 19; 0; 0];
     SPACING := [1 # 2; 2; 3]%Q;
     DIRECTION := Some [0; -1; 0; 1; 0; 0; 0; 0; 1]%Q;
     ORIGIN := [10; 20; 30]%Q |}.

Lemma constructed_filter_passes_geometry_witness :
  0 <= 9 /\
  let out := RequestInformation Round_half_up Qsqrt Invert_affine constructed turned_image in
  outWholeExt out = [0; 9; 0; 19; 0; 0] /\
  Geometry.Qeqs (outSpacing out) [1 # 2; 2; 3]%Q /\
  outDirection out = [0; -1; 0; 1; 0; 0; 0; 0; 1]%Q /\
  Geometry.Qeqs (outOrigin out) [10; 20; 30]%Q.
Proof.
  split; [lia |].
  apply (constructed_filter_passes_geometry Round_half_up Qsqrt Invert_affine
           Round_half_up_integer Qsqrt_one 0 9 0 19 0 0 (1 # 2) 2 3
           0 (-1) 0 1 0 0 0 0 1 10 20 30);
    first [lia | reflexivity | discriminate].
Defined.

(** The filter with reslice axes a quarter turn about Z through (1, 2, 0),
    and auto-cropping. *)
Definition cropping : vtkImageReslice :=
  {| InformationInput := None;
     PassDirectionToOutput := true;
     OutputDirection := Geometry.Identity3x3;
     TransformInputSampling := true;
     ResliceAxes := Some [0; -1; 0; 1; 1; 0; 0; 2; 0; 0; 1; 0; 0; 0; 0; 1]%Q;
     ResliceTransform := None;
     AutoCropOutput := true;
     ComputeOutputSpacing := true;
     OutputSpacing := [1; 1; 1]%Q;
     OutputDimensionality := 3;
     ComputeOutputExtent := true;
     OutputExtent := [0; 0; 0; 0; 0; 0];
     ComputeOutputOrigin := true;
     OutputOrigin := [0; 0; 0]%Q |}.

Definition plain_image : vtkInformation :=
  {| WHOLE_EXTENT := [0; 9; 0; 19; 0; 0];
     SPACING := [1; 1; 1]%Q;
     DIRECTION := None;
     ORIGIN := [0; 0; 0]%Q |}.


(** The information of the cropping filter, evaluated: the image turned
    back by the axes spans 20 x 10 voxels from (-2, -8, 0). *)
Example cropping_information :
  let out := RequestInformation Round_half_up Qsqrt Invert_affine cropping plain_image in
  map Qred (maxBounds Invert_affine cropping plain_image) = [-2; 17; -8; 1; 0; 0]%Q /\
  outWholeExt out = [0; 19; 0; 9; 0; 0] /\
  map Qred (outSpacing out) = [1; 1; 1]%Q /\
  map Qred (outOrigin out) = [-2; -8; 0]%Q.
Proof. repeat split; vm_compute; reflexivity. Qed.

End Information.

(** ** The index matrix, [GetIndexMatrix] *)

Module IndexMatrix.
Import Numeric.

(** Modelled from the spec: the product of two 4x4 matrices, which
    [vtkTransform::Concatenate] forms ([M . A] in pre-multiply mode, [A . M]
    in post-multiply mode); [vtkTransform] and [vtkMatrix4x4::Multiply4x4]
    are outside the sources at hand. *)
Definition Multiply4x4 (A B : vtkMatrix4x4) : vtkMatrix4x4 :=
  map (fun i =>
         map (fun j =>
                (GetElement A i 0 * GetElement B 0 j + GetElement A i 1 * GetElement B 1 j
                 + GetElement A i 2 * GetElement B 2 j
                 + GetElement A i 3 * GetElement B 3 j)%Q)
           [0; 1; 2; 3]%nat)
    [0; 1; 2; 3]%nat.

(** [vtkIsIdentityMatrix] *)
Definition vtkIsIdentityMatrix (matrix : vtkMatrix4x4) : bool :=
  forallb
    (fun i =>
       forallb
         (fun j => Qeq_bool (GetElement matrix i j) (GetElement Setters.Identity4x4 i j))
         [0; 1; 2; 3]%nat)
    [0; 1; 2; 3]%nat.

(** [vtkIsIdentity3x3] *)
Definition vtkIsIdentity3x3 (m : list Q) : bool :=
  Qeq_bool (nth 0 m 0%Q) 1 && Qeq_bool (nth 1 m 0%Q) 0 && Qeq_bool (nth 2 m 0%Q) 0
  && Qeq_bool (nth 3 m 0%Q) 0 && Qeq_bool (nth 4 m 0%Q) 1 && Qeq_bool (nth 5 m 0%Q) 0
  && Qeq_bool (nth 6 m 0%Q) 0 && Qeq_bool (nth 7 m 0%Q) 0 && Qeq_bool (nth 8 m 0%Q) 1.

(** The reslice transform: a homogeneous transform with its matrix, or
    another one. *)
Inductive vtkAbstractTransform :=
| vtkHomogeneousTransform (GetMatrix : vtkMatrix4x4)
| NonlinearTransform.

Record vtkImageReslice := {
  ResliceAxes : option vtkMatrix4x4;
  ResliceTransform : option vtkAbstractTransform
}.

Definition direction_of (info : Information.vtkInformation) : list Q :=
  match Information.DIRECTION info with
  | Some d => d
  | None => Geometry.Identity3x3
  end.

Definition inInvDirection (inInfo : Information.vtkInformation) : list Q :=
  match Information.DIRECTION inInfo with
  | Some d => Geometry.Invert3x3 d
  | None => Geometry.Identity3x3
  end.

(** [inMatrix] takes input coordinates to input indices. *)
Definition inMatrix (inInfo : Information.vtkInformation) : vtkMatrix4x4 :=
  let inInv := inInvDirection inInfo in
  let inSpacing := Information.SPACING inInfo in
  let inOrigin := Information.ORIGIN inInfo in
  map (fun i =>
         map (fun j => (nth (3 * i + j) inInv 0 / nth i inSpacing 0)%Q) [0; 1; 2]%nat
         ++ [fold_left
               (fun e j => (e - nth (3 * i + j) inInv 0 * nth j inOrigin 0 / nth i inSpacing 0)%Q)
               [0; 1; 2]%nat 0%Q])
    [0; 1; 2]%nat
  ++ [[0; 0; 0; 1]%Q].

(** [outMatrix] takes output indices to output coordinates; the same
    matrix for the input takes input indices to input coordinates. *)
Definition index_to_coordinates (info : Information.vtkInformation) : vtkMatrix4x4 :=
  let direction := direction_of info in
  let spacing := Information.SPACING info in
  let origin := Information.ORIGIN info in
  map (fun i =>
         map (fun j => (nth (3 * i + j) direction 0 * nth j spacing 0)%Q) [0; 1; 2]%nat
         ++ [nth i origin 0%Q])
    [0; 1; 2]%nat
  ++ [[0; 0; 0; 1]%Q].

Definition outMatrix := index_to_coordinates.

(** The matrix of [transform] when the identity is checked, and whether
    [OptimizedTransform] is set. *)
Definition reslice_matrix (self : vtkImageReslice) : vtkMatrix4x4 * bool :=
  let transform :=
    match ResliceAxes self with
    | Some axes => axes
    | None => Setters.Identity4x4
    end in
  match ResliceTransform self with
  | Some (vtkHomogeneousTransform matrix) => (Multiply4x4 matrix transform, false)
  | Some NonlinearTransform => (transform, true)
  | None => (transform, false)
  end.

Definition isIdentity (self : vtkImageReslice)
    (inInfo outInfo : Information.vtkInformation) : bool :=
  let '(transform, optimized) := reslice_matrix self in
  let inDirection := direction_of inInfo in
  let outDirection := direction_of outInfo in
  let inSpacing := Information.SPACING inInfo in
  let outSpacing := Information.SPACING outInfo in
  let inOrigin := Information.ORIGIN inInfo in
  let outOrigin := Information.ORIGIN outInfo in
  vtkIsIdentityMatrix transform
  && (if negb optimized then
        forallb (fun i => Qeq_bool (nth i inDirection 0%Q) (nth i outDirection 0%Q)) (seq 0 9)
        && forallb
             (fun i =>
                Qeq_bool (nth i inSpacing 0%Q) (nth i outSpacing 0%Q)
                && Qeq_bool (nth i inOrigin 0%Q) (nth i outOrigin 0%Q))
             [0; 1; 2]%nat
      else
        vtkIsIdentity3x3 outDirection
        && forallb
             (fun i => Qeq_bool (nth i outSpacing 0%Q) 1 && Qeq_bool (nth i outOrigin 0%Q) 0)
             [0; 1; 2]%nat).

(** [GetIndexMatrix]: the index matrix, and whether [OptimizedTransform]
    is set. *)
Definition GetIndexMatrix (self : vtkImageReslice)
    (inInfo outInfo : Information.vtkInformation) : vtkMatrix4x4 * bool :=
  let '(transform, optimized) := reslice_matrix self in
  let transform :=
    if negb (isIdentity self inInfo outInfo) then
      let transform := Multiply4x4 transform (outMatrix outInfo) in
      if negb optimized then Multiply4x4 (inMatrix inInfo) transform else transform
    else transform in
  (transform, optimized).

(** Two matrices with equal elements. *)
Definition Meqs (A B : vtkMatrix4x4) : Prop := Forall2 (Forall2 Qeq) A B.

Lemma Multiply4x4_shape (A B : vtkMatrix4x4) :
  exists y00 y01 y02 y03 y10 y11 y12 y13 y20 y21 y22 y23 y30 y31 y32 y33 : Q,
    Multiply4x4 A B
    = [ [y00; y01; y02; y03]; [y10; y11; y12; y13]; [y20; y21; y22; y23];
        [y30; y31; y32; y33] ].
Proof. unfold Multiply4x4. cbn [map]. repeat eexists. Qed.

Lemma length9_shape (l : list Q) :
  length l = 9%nat ->
  exists d0 d1 d2 d3 d4 d5 d6 d7 d8 : Q, l = [d0; d1; d2; d3; d4; d5; d6; d7; d8].
Proof.
  intros H.
  destruct l as [| d0 [| d1 [| d2 [| d3 [| d4 [| d5 [| d6 [| d7 [| d8 [| ? ?]]]]]]]]]];
    try discriminate H.
  repeat eexists.
Qed.

(** A direction key that is absent, or holds an invertible 3x3 matrix. *)
Definition invertible_direction (key : option (list Q)) : Prop :=
  match key with
  | Some d => length d = 9%nat /\ ~ (Geometry.Determinant3x3 d == 0)%Q
  | None => True
  end.

(** Taking input coordinates to indices and back cancels. *)
Lemma in_coordinates_cancel (ext : list Z) (key : option (list Q)) (s0 s1 s2 o0 o1 o2 : Q)
    (y00 y01 y02 y03 y10 y11 y12 y13 y20 y21 y22 y23 y30 y31 y32 y33 : Q) :
  invertible_direction key ->
  ~ (s0 == 0)%Q -> ~ (s1 == 0)%Q -> ~ (s2 == 0)%Q ->
  let inInfo :=
    {| Information.WHOLE_EXTENT := ext; Information.SPACING := [s0; s1; s2];
       Information.DIRECTION := key; Information.ORIGIN := [o0; o1; o2] |} in
  let Y :=
    [ [y00; y01; y02; y03]; [y10; y11; y12; y13]; [y20; y21; y22; y23];
      [y30; y31; y32; y33] ] in
  Meqs (Multiply4x4 (index_to_coordinates inInfo) (Multiply4x4 (inMatrix inInfo) Y)) Y.
Proof.
  intros Hkey Hs0 Hs1 Hs2 inInfo Y. subst inInfo Y.
  unfold Meqs, Multiply4x4, index_to_coordinates, inMatrix, direction_of, inInvDirection,
    GetElement.
  cbn [Information.DIRECTION Information.SPACING Information.ORIGIN].
  destruct key as [d |].
  - destruct Hkey as [Hlen Hdet].
    destruct (length9_shape d Hlen) as (d0 & d1 & d2 & d3 & d4 & d5 & d6 & d7 & d8 & ->).
    unfold Geometry.Determinant3x3, Geometry.elem3 in Hdet.
    cbn [Nat.mul Nat.add nth] in Hdet.
    unfold Geometry.Invert3x3, Geometry.Determinant3x3, Geometry.elem3.
    cbn [map app fold_left nth Nat.mul Nat.add].
    repeat constructor; field; repeat split; assumption.
  - unfold Geometry.Identity3x3.
    cbn [map app fold_left nth Nat.mul Nat.add].
    repeat constructor; field; repeat split; assumption.
Qed.

Definition axes_ok (self : vtkImageReslice) : Prop :=
  match ResliceAxes self with
  | Some axes => Setters.is4x4 axes
  | None => True
  end.

Lemma reslice_matrix_shape (self : vtkImageReslice) :
  axes_ok self -> Setters.is4x4 (fst (reslice_matrix self)).
Proof.
  unfold axes_ok, reslice_matrix. intros Hax.
  assert (Ht : Setters.is4x4
                 match ResliceAxes self with
                 | Some axes => axes
                 | None => Setters.Identity4x4
                 end)
    by (destruct (ResliceAxes self); [exact Hax | apply Setters.is4x4_literal]).
  destruct (ResliceTransform self) as [[matrix |] |]; cbn [fst]; try exact Ht.
  destruct (Multiply4x4_shape matrix
              match ResliceAxes self with
              | Some axes => axes
              | None => Setters.Identity4x4
              end)
    as (y00 & y01 & y02 & y03 & y10 & y11 & y12 & y13 & y20 & y21 & y22 & y23 &
        y30 & y31 & y32 & y33 & ->).
  apply Setters.is4x4_literal.
Qed.

Ltac split_Forall2 :=
  repeat match goal with
         | |- Forall2 _ (_ :: _) (_ :: _) => constructor
         | |- Forall2 _ [] [] => constructor
         end.

Ltac split_andb H :=
  repeat match type of H with
         | (_ && _ = true) =>
             let H1 := fresh "Hb" in
             apply andb_prop in H; destruct H as [H H1]; split_andb H1
         end.

Ltac booleans_to_Qeq :=
  repeat match goal with
         | H : (_ && _ = true) |- _ => split_andb H
         end;
  repeat match goal with
         | H : Qeq_bool _ _ = true |- _ => apply Qeq_bool_iff in H
         | H : true = true |- _ => clear H
         end.

Lemma Meqs_refl (A : vtkMatrix4x4) : Meqs A A.
Proof.
  induction A as [| row A IH]; constructor; [| exact IH].
  induction row as [| x row IHr]; constructor; [reflexivity | exact IHr].
Qed.

Lemma Meqs_sym (A B : vtkMatrix4x4) : Meqs A B -> Meqs B A.
Proof.
  intros H. induction H as [| a b A B Hab _ IH]; constructor; [| exact IH].
  induction Hab as [| x y a b Hxy _ IHr]; constructor; [symmetry; exact Hxy | exact IHr].
Qed.

Lemma Meqs_trans (A B C : vtkMatrix4x4) : Meqs A B -> Meqs B C -> Meqs A C.
Proof.
  intros H. revert C. induction H as [| a b A B Hab _ IH]; intros C HC;
    inversion HC as [| b' c B' C' Hbc HBC]; subst; constructor; [| apply IH; exact HBC].
  clear - Hab Hbc. revert c Hbc.
  induction Hab as [| x y a b Hxy _ IHr]; intros c Hbc;
    inversion Hbc as [| y' z b' c' Hyz Hbc']; subst; constructor;
    [etransitivity; eassumption | apply IHr; exact Hbc'].
Qed.

Lemma Meqs_elements (A B : vtkMatrix4x4) (i j : nat) :
  Meqs A B -> (GetElement A i j == GetElement B i j)%Q.
Proof.
  intros H. unfold GetElement. revert i.
  induction H as [| a b A B Hab _ IH]; intros i.
  - destruct i; destruct j; reflexivity.
  - destruct i as [| i]; [| apply IH]. cbn [nth]. clear - Hab. revert j.
    induction Hab as [| x y a b Hxy _ IHr]; intros j.
    + destruct j; reflexivity.
    + destruct j as [| j]; [exact Hxy | apply IHr].
Qed.

Lemma Multiply4x4_Meqs (A A' B B' : vtkMatrix4x4) :
  Meqs A A' -> Meqs B B' -> Meqs (Multiply4x4 A B) (Multiply4x4 A' B').
Proof.
  intros HA HB. unfold Meqs, Multiply4x4. cbn [map].
  split_Forall2;
    (apply Qplus_comp; [apply Qplus_comp; [apply Qplus_comp |] |]);
    apply Qmult_comp; apply Meqs_elements; assumption.
Qed.

Lemma Multiply4x4_identity (x00 x01 x02 x03 x10 x11 x12 x13 x20 x21 x22 x23
    x30 x31 x32 x33 : Q) :
  let X :=
    [ [x00; x01; x02; x03]; [x10; x11; x12; x13]; [x20; x21; x22; x23];
      [x30; x31; x32; x33] ] in
  Meqs (Multiply4x4 X Setters.Identity4x4) X /\
  Meqs (Multiply4x4 Setters.Identity4x4 X) X.
Proof.
  cbv zeta. unfold Meqs, Multiply4x4, Setters.Identity4x4, GetElement.
  cbn [map nth].
  split; split_Forall2; ring.
Qed.

Lemma index_to_coordinates_shape (info : Information.vtkInformation) :
  exists y00 y01 y02 y03 y10 y11 y12 y13 y20 y21 y22 y23 : Q,
    index_to_coordinates info
    = [ [y00; y01; y02; y03]; [y10; y11; y12; y13]; [y20; y21; y22; y23];
        [0; 0; 0; 1]%Q ].
Proof. unfold index_to_coordinates. cbn [map app]. repeat eexists. Qed.

Lemma vtkIsIdentityMatrix_Meqs (T : vtkMatrix4x4) :
  Setters.is4x4 T -> vtkIsIdentityMatrix T = true -> Meqs T Setters.Identity4x4.
Proof.
  intros HT Hid.
  destruct (Setters.is4x4_shape T HT)
    as (t00 & t01 & t02 & t03 & t10 & t11 & t12 & t13 & t20 & t21 & t22 & t23 &
        t30 & t31 & t32 & t33 & ->).
  unfold vtkIsIdentityMatrix, Setters.Identity4x4, GetElement in Hid.
  cbn [forallb nth] in Hid. booleans_to_Qeq.
  unfold Meqs, Setters.Identity4x4.
  split_Forall2; assumption.
Qed.

(** X19: the index matrix takes an output index to the input index of the
    same point.  With [C] the matrix from indices to coordinates of the input
    ([C'] of the output) and [T] the matrix of the reslice axes and the
    homogeneous reslice transform, [C . IndexMatrix = T . C']; when the
    reslice transform is not homogeneous, the index matrix is [T . C'] itself,
    [T] being the reslice axes.  This holds whether or not the identity
    shortcut is taken. *)
Theorem index_matrix_relates_coordinates (self : vtkImageReslice)
    (inExt outExt : list Z) (inKey outKey : option (list Q))
    (s0 s1 s2 o0 o1 o2 u0 u1 u2 p0 p1 p2 : Q) :
  axes_ok self ->
  invertible_direction inKey ->
  match outKey with Some d => length d = 9%nat | None => True end ->
  ~ (s0 == 0)%Q -> ~ (s1 == 0)%Q -> ~ (s2 == 0)%Q ->
  let inInfo :=
    {| Information.WHOLE_EXTENT := inExt; Information.SPACING := [s0; s1; s2];
       Information.DIRECTION := inKey; Information.ORIGIN := [o0; o1; o2] |} in
  let outInfo :=
    {| Information.WHOLE_EXTENT := outExt; Information.SPACING := [u0; u1; u2];
       Information.DIRECTION := outKey; Information.ORIGIN := [p0; p1; p2] |} in
  let M := fst (GetIndexMatrix self inInfo outInfo) in
  let T := fst (reslice_matrix self) in
  Meqs (if snd (GetIndexMatrix self inInfo outInfo) then M
        else Multiply4x4 (index_to_coordinates inInfo) M)
    (Multiply4x4 T (index_to_coordinates outInfo)).
Proof.
  intros Hax Hin Hout Hs0 Hs1 Hs2 inInfo outInfo M T.
  pose proof (reslice_matrix_shape self Hax) as HT.
  subst M T. unfold GetIndexMatrix.
  destruct (reslice_matrix self) as [T optimized] eqn:E. cbn [fst snd] in *.
  destruct (isIdentity self inInfo outInfo) eqn:Hid; cbn [negb].
  - (* the identity shortcut *)
    unfold isIdentity in Hid. rewrite E in Hid.
    apply andb_prop in Hid. destruct Hid as [HidT Hgeo].
    pose proof (vtkIsIdentityMatrix_Meqs T HT HidT) as HTI.
    destruct (index_to_coordinates_shape outInfo)
      as (y00 & y01 & y02 & y03 & y10 & y11 & y12 & y13 & y20 & y21 & y22 & y23 & HY).
    destruct (Multiply4x4_identity y00 y01 y02 y03 y10 y11 y12 y13 y20 y21 y22 y23 0 0 0 1)
      as [HYr HYl].
    cbv zeta in HYr, HYl. rewrite <- HY in HYr, HYl.
    destruct optimized; cbn [negb] in Hgeo.
    + assert (HO : Meqs (index_to_coordinates outInfo) Setters.Identity4x4).
      { clear HY HYr HYl. subst inInfo outInfo.
        unfold vtkIsIdentity3x3 in Hgeo.
        cbn [forallb nth Information.SPACING Information.ORIGIN] in Hgeo.
        booleans_to_Qeq.
        unfold Meqs, index_to_coordinates, Setters.Identity4x4.
        cbn [map app nth Nat.mul Nat.add Information.SPACING Information.ORIGIN].
        split_Forall2;
          first [ assumption | reflexivity
                | etransitivity; [apply Qmult_comp; eassumption | ring] ]. }
      apply Meqs_trans with Setters.Identity4x4; [exact HTI |].
      apply Meqs_sym.
      apply Meqs_trans with (Multiply4x4 Setters.Identity4x4 Setters.Identity4x4);
        [apply Multiply4x4_Meqs; assumption |].
      apply (Multiply4x4_identity 1 0 0 0 0 1 0 0 0 0 1 0 0 0 0 1).
    + assert (HC : Meqs (index_to_coordinates inInfo) (index_to_coordinates outInfo)).
      { clear HY HYr HYl. subst inInfo outInfo.
        cbn [forallb seq nth Information.SPACING Information.ORIGIN] in Hgeo.
        booleans_to_Qeq.
        unfold Meqs, index_to_coordinates.
        cbn [map app nth Nat.mul Nat.add Information.SPACING Information.ORIGIN].
        split_Forall2;
          first [assumption | reflexivity | apply Qmult_comp; assumption]. }
      apply Meqs_trans with (Multiply4x4 (index_to_coordinates outInfo) Setters.Identity4x4);
        [apply Multiply4x4_Meqs; assumption |].
      apply Meqs_trans with (index_to_coordinates outInfo); [exact HYr |].
      apply Meqs_sym.
      apply Meqs_trans with (Multiply4x4 Setters.Identity4x4 (index_to_coordinates outInfo));
        [apply Multiply4x4_Meqs; [exact HTI | apply Meqs_refl] | exact HYl].
  - destruct (Multiply4x4_shape T (outMatrix outInfo))
      as (y00 & y01 & y02 & y03 & y10 & y11 & y12 & y13 & y20 & y21 & y22 & y23 &
          y30 & y31 & y32 & y33 & HY).
    unfold outMatrix in HY. unfold outMatrix. rewrite HY.
    destruct optimized; cbn [negb].
    + apply Meqs_refl.
    + apply (in_coordinates_cancel inExt inKey s0 s1 s2 o0 o1 o2); assumption.
Qed.

(** Reslice axes a quarter turn about Z through (1, 2, 0), a homogeneous
    reslice transform that doubles X, an input turned a quarter about Z. *)
Definition turned_filter : vtkImageReslice :=
  {| ResliceAxes :=
       Some [ [0; -1; 0; 1]; [1; 0; 0; 2]; [0; 0; 1; 0]; [0; 0; 0; 1] ]%Q;
     ResliceTransform :=
       Some (vtkHomogeneousTransform
               [ [2; 0; 0; 0]; [0; 1; 0; 0]; [0; 0; 1; 0]; [0; 0; 0; 1] ]%Q) |}.

Lemma index_matrix_relates_coordinates_witness :
  axes_ok turned_filter /\
  let inInfo :=
    {| Information.WHOLE_EXTENT := [0; 9; 0; 19; 0; 0];
       Information.SPACING := [1 # 2; 2; 3]%Q;
       Information.DIRECTION := Some [0; -1; 0; 1; 0; 0; 0; 0; 1]%Q;
       Information.ORIGIN := [10; 20; 30]%Q |} in
  let outInfo :=
    {| Information.WHOLE_EXTENT := [0; 4; 0; 4; 0; 0];
       Information.SPACING := [1; 1; 4]%Q;
       Information.DIRECTION := None;
       Information.ORIGIN := [-3; 0; 7]%Q |} in
  let M := fst (GetIndexMatrix turned_filter inInfo outInfo) in
  let T := fst (reslice_matrix turned_filter) in
  Meqs (if snd (GetIndexMatrix turned_filter inInfo outInfo) then M
        else Multiply4x4 (index_to_coordinates inInfo) M)
    (Multiply4x4 T (index_to_coordinates outInfo)).
Proof.
  split; [apply Setters.is4x4_literal |].
  apply (index_matrix_relates_coordinates turned_filter [0; 9; 0; 19; 0; 0] [0; 4; 0; 4; 0; 0]
           (Some [0; -1; 0; 1; 0; 0; 0; 0; 1]%Q) None (1 # 2) 2 3 10 20 30 1 1 4 (-3) 0 7);
    first [ apply Setters.is4x4_literal | exact I | discriminate
          | split; [reflexivity | discriminate] ].
Defined.

(** The index matrix of the witness, evaluated: the output index
    (x, y, z) is the input index (2 x - 42, y + 4, (4 z - 23) / 3). *)
Example turned_index_matrix :
  map (map Qred)
    (fst (GetIndexMatrix turned_filter
            {| Information.WHOLE_EXTENT := [0; 9; 0; 19; 0; 0];
               Information.SPACING := [1 # 2; 2; 3]%Q;
               Information.DIRECTION := Some [0; -1; 0; 1; 0; 0; 0; 0; 1]%Q;
               Information.ORIGIN := [10; 20; 30]%Q |}
            {| Information.WHOLE_EXTENT := [0; 4; 0; 4; 0; 0];
               Information.SPACING := [1; 1; 4]%Q;
               Information.DIRECTION := None;
               Information.ORIGIN := [-3; 0; 7]%Q |}))
  = [ [2; 0; 0; -42]; [0; 1; 0; 4]; [0; 0; 4 # 3; -23 # 3]; [0; 0; 0; 1] ]%Q.
Proof. vm_compute. reflexivity. Qed.

Lemma Qeq_bool_refl (x : Q) : Qeq_bool x x = true.
Proof. apply Qeq_bool_iff. reflexivity. Qed.

Lemma forallb_true {A} (f : A -> bool) (l : list A) :
  (forall x, f x = true) -> forallb f l = true.
Proof. intros H. induction l as [| a l IH]; cbn; [reflexivity | rewrite H, IH; reflexivity]. Qed.

(** X20: when the output information has the direction, spacing and
    origin of the input and neither reslice axes nor a reslice transform are
    set, the index matrix is the identity, which [vtkIsPermutationMatrix]
    accepts and for which [vtkCanUseNearestNeighbor] returns true on every
    extent: the interpolation is reduced to nearest neighbour. *)
Theorem same_geometry_gives_identity (inExt outExt ext : list Z)
    (key : option (list Q)) (spacing origin : list Q) :
  let inInfo :=
    {| Information.WHOLE_EXTENT := inExt; Information.SPACING := spacing;
       Information.DIRECTION := key; Information.ORIGIN := origin |} in
  let outInfo :=
    {| Information.WHOLE_EXTENT := outExt; Information.SPACING := spacing;
       Information.DIRECTION := key; Information.ORIGIN := origin |} in
  let self := {| ResliceAxes := None; ResliceTransform := None |} in
  GetIndexMatrix self inInfo outInfo = (Setters.Identity4x4, false) /\
  Permute.vtkIsPermutationMatrix (fst (GetIndexMatrix self inInfo outInfo)) = true /\
  Permute.vtkCanUseNearestNeighbor Floor_with_fraction
    (fst (GetIndexMatrix self inInfo outInfo)) ext = Permute.Returned true.
Proof.
  intros inInfo outInfo self.
  assert (Hid : isIdentity self inInfo outInfo = true).
  { unfold isIdentity, reslice_matrix. cbn [ResliceAxes ResliceTransform self negb].
    apply andb_true_intro. split; [reflexivity |].
    apply andb_true_intro. split; apply forallb_true; intros i;
      [| apply andb_true_intro; split]; apply Qeq_bool_refl. }
  assert (HM : GetIndexMatrix self inInfo outInfo = (Setters.Identity4x4, false))
    by (unfold GetIndexMatrix; rewrite Hid; reflexivity).
  rewrite HM. cbn [fst].
  split; [reflexivity |]. split; [reflexivity |].
  assert (Hfrac : forall e : Z,
            Qnonzero (snd (Floor_with_fraction (0 + 1 * inject_Z e)%Q)) = false).
  { intros e. unfold Qnonzero, Floor_with_fraction. cbn [snd].
    apply negb_false_iff, Qeq_bool_iff.
    assert (He : Qfloor (0 + 1 * inject_Z e) = e)
      by (rewrite <- (Qfloor_Z e) at 2; apply Qfloor_comp; ring).
    rewrite He. ring. }
  unfold Permute.vtkCanUseNearestNeighbor, Permute.nearest_rows, Permute.nearest_row_ok.
  change (Permute.first_nonzero_column Setters.Identity4x4 0) with 0%nat.
  change (Permute.first_nonzero_column Setters.Identity4x4 1) with 1%nat.
  change (Permute.first_nonzero_column Setters.Identity4x4 2) with 2%nat.
  cbn [Nat.leb].
  change (GetElement Setters.Identity4x4 0 0) with 1%Q.
  change (GetElement Setters.Identity4x4 1 1) with 1%Q.
  change (GetElement Setters.Identity4x4 2 2) with 1%Q.
  change (GetElement Setters.Identity4x4 0 3) with 0%Q.
  change (GetElement Setters.Identity4x4 1 3) with 0%Q.
  change (GetElement Setters.Identity4x4 2 3) with 0%Q.
  repeat match goal with
         | |- context [if (?a =? ?b) then (0%Q, ?y) else _] =>
             destruct (a =? b); cbv beta iota; rewrite ?Hfrac
         end;
    reflexivity.
Qed.

End IndexMatrix.


(** ** The general path writes every voxel of a row *)

Module RowFacts.
Import Numeric Convert.

(** The compositors keep the length of the slab buffer. *)
Lemma slab_sum_loop_length (numscalars n : nat) (f : Q) (more : nat) :
  forall (inPtr : list Q) (p : nat),
  length (Slab.slab_sum_loop inPtr numscalars n f p more) = length inPtr.
Proof.
  induction more as [| more IH]; intros inPtr p; cbn [Slab.slab_sum_loop];
    destruct (Slab.accumulate Qplus inPtr numscalars p (nth p inPtr 0%Q) (n - 1))
      as [p1 result];
    [| rewrite IH]; apply length_insert.
Qed.

Lemma slab_trap_loop_length (numscalars n : nat) (f : Q) (more : nat) :
  forall (inPtr : list Q) (p : nat),
  length (Slab.slab_trap_loop inPtr numscalars n f p more) = length inPtr.
Proof.
  induction more as [| more IH]; intros inPtr p; cbn [Slab.slab_trap_loop];
    destruct (Slab.trap_middle inPtr numscalars p (nth p inPtr 0 * (1 # 2))%Q (n - 1))
      as [p1 result];
    [| rewrite IH]; apply length_insert.
Qed.

Lemma slab_select_loop_length (op : Q -> Q -> Q) (numscalars n : nat) (more : nat) :
  forall (inPtr : list Q) (p : nat),
  length (Slab.slab_select_loop op inPtr numscalars n p more) = length inPtr.
Proof.
  induction more as [| more IH]; intros inPtr p; cbn [Slab.slab_select_loop];
    destruct (Slab.accumulate op inPtr numscalars p (nth p inPtr 0%Q) (n - 1))
      as [p1 result];
    [| rewrite IH]; apply length_insert.
Qed.

Lemma composite_length (slabMode : SlabMode) (trpz : bool) (inPtr : list Q)
    (numscalars n : Z) :
  length (Slab.vtkGetCompositeFunc slabMode trpz inPtr numscalars n) = length inPtr.
Proof.
  destruct slabMode, trpz; cbn [Slab.vtkGetCompositeFunc];
    unfold Slab.MinValue, Slab.MaxValue, Slab.MeanValue, Slab.MeanTrap, Slab.SumValues,
      Slab.SumTrap, Slab.vtkImageResliceSlabSum, Slab.vtkImageResliceSlabTrap;
    first [ apply slab_sum_loop_length | apply slab_trap_loop_length
          | apply slab_select_loop_length ].
Qed.

(** The conversions write one scalar for each value they are given. *)
Lemma apply_conversion_length (Round : Q -> Z) (c : ConversionFunc) (inPtr : list Q)
    (numscalars n : Z) :
  0 < n -> (Z.to_nat (n * numscalars) <= length inPtr)%nat ->
  length (apply_conversion Round c inPtr numscalars n) = Z.to_nat (n * numscalars).
Proof.
  intros Hn Hlen. destruct c; cbn [apply_conversion]; unfold Convert.Convert, Convert.Clamp;
    [replace (0 <? n) with true by (symmetry; apply Z.ltb_lt; exact Hn) |];
    rewrite List.length_map, length_take; lia.
Qed.

Lemma concat_replicate_length {A} (k : nat) (px : list A) :
  length (concat (replicate k px)) = (k * length px)%nat.
Proof. induction k as [| k IH]; cbn; [reflexivity | rewrite length_app, IH; reflexivity]. Qed.

Section OneRow.

Variable Round : Q -> Z.
Variable GetDataTypeMin : ScalarType -> Q.
Variable GetDataTypeMax : ScalarType -> Q.
Variable heap : Execute.Heap.
Variable self : Execute.vtkImageReslice.
Variable scalars : Execute.vtkDataArray.
Variable interpolator : Execute.vtkAbstractImageInterpolator.
Variable outData : Execute.vtkImageData.
Variable newmat : vtkMatrix4x4.

(** The output has the components of the interpolator. *)
Hypothesis components_agree :
  Execute.inComponents interpolator = Execute.outComponents outData.
Hypothesis components_nonneg : 0 <= Execute.inComponents interpolator.

Lemma background_length :
  length (Execute.background Round heap self (Execute.scalarType outData)
            (Execute.outComponents outData))
  = Z.to_nat (Execute.outComponents outData).
Proof.
  unfold Execute.background, vtkAllocBackgroundPixel, vtkCopyBackgroundColor.
  set (bg0 := replicate (Z.to_nat (Execute.outComponents outData))
                (Execute.fresh_scalar heap)).
  assert (Hfold : forall (g : nat -> Scalar) (l : list nat) (bg : list Scalar),
            length (fold_left (fun bg i => <[i := g i]> bg) l bg) = length bg).
  { intros g l. induction l as [| i l IH]; intros bg; cbn [fold_left];
      [reflexivity | rewrite IH; apply length_insert]. }
  rewrite (Hfold (fun _ => zero (Execute.scalarType outData))).
  rewrite (Hfold (fun i => vtkResliceClamp Round (Execute.scalarType outData)
                             (nth i (Execute.BackgroundColor self) 0%Q))).
  subst bg0. apply length_replicate.
Qed.

Lemma background_segment_length (n : Z) :
  length (Execute.vtkGetSetPixelsFunc (Execute.outComponents outData)
            (Execute.background Round heap self (Execute.scalarType outData)
               (Execute.outComponents outData))
            (Execute.outComponents outData) n)
  = (Z.to_nat n * Z.to_nat (Execute.outComponents outData))%nat.
Proof.
  rewrite Execute.setpixels_copies, concat_replicate_length, length_take, background_length.
  lia.
Qed.

(** [inComponents], as a number of buffer elements. *)
Definition stride : nat := Z.to_nat (Execute.inComponents interpolator).

Lemma sample_loop_fold (inPoint2 : list Q) (samples : list Z) :
  forall (floatPtr : list Q) (tmpPtr : nat) (count : Z),
  0 <= count ->
  let '(buf, tmp, count') :=
    fold_left
      (fun '(floatPtr, tmpPtr, sampleCount) sample =>
         let inPoint := Execute.sample_point self newmat inPoint2 sample in
         if Execute.CheckBoundsIJK interpolator inPoint then
           (list_inserts tmpPtr
              (take (Z.to_nat (Execute.inComponents interpolator))
                 (Execute.InterpolateIJK interpolator inPoint)) floatPtr,
            (tmpPtr + Z.to_nat (Execute.inComponents interpolator))%nat, sampleCount + 1)
         else (floatPtr, tmpPtr, sampleCount))
      samples (floatPtr, tmpPtr, count) in
  length buf = length floatPtr /\ count <= count' /\
  tmp = (tmpPtr + Z.to_nat (count' - count) * stride)%nat.
Proof.
  induction samples as [| sample samples IH]; intros floatPtr tmpPtr count Hc.
  - cbn [fold_left]. repeat split; [lia | rewrite Z.sub_diag; lia].
  - cbn [fold_left].
    destruct (Execute.CheckBoundsIJK interpolator
                (Execute.sample_point self newmat inPoint2 sample)).
    + specialize (IH (list_inserts tmpPtr
                        (take (Z.to_nat (Execute.inComponents interpolator))
                           (Execute.InterpolateIJK interpolator
                              (Execute.sample_point self newmat inPoint2 sample)))
                        floatPtr)
                    (tmpPtr + Z.to_nat (Execute.inComponents interpolator))%nat
                    (count + 1) ltac:(lia)).
      destruct (fold_left _ samples _) as [[buf tmp] count'].
      destruct IH as (Hlen & Hcount & Htmp).
      rewrite length_inserts in Hlen.
      repeat split; [exact Hlen | lia |].
      rewrite Htmp. unfold stride.
      replace (Z.to_nat (count' - count)) with (S (Z.to_nat (count' - (count + 1)))) by lia.
      lia.
    + specialize (IH floatPtr tmpPtr count Hc).
      destruct (fold_left _ samples _) as [[buf tmp] count'].
      exact IH.
Qed.

(** One voxel keeps the length of the row buffer and moves [tmpPtr] one
    pixel on. *)
Lemma voxel_facts (inPoint1 : list Q) (idX : Z) (floatPtr : list Q) (tmpPtr : nat) :
  let '(isIn, buf, tmp) :=
    Execute.voxel self interpolator newmat inPoint1 idX floatPtr tmpPtr in
  length buf = length floatPtr /\ tmp = (tmpPtr + stride)%nat.
Proof.
  unfold Execute.voxel, Execute.sample_loop.
  pose proof (sample_loop_fold
                (Execute.advance inPoint1 (inject_Z idX) (Execute.xAxis newmat))
                (Execute.zrange 0 (Execute.nsamples self - 1)) floatPtr tmpPtr 0
                ltac:(lia)) as H.
  destruct (fold_left _ (Execute.zrange 0 (Execute.nsamples self - 1)) _)
    as [[buf tmp] count].
  destruct H as (Hlen & Hcount & Htmp).
  assert (Hback : (tmp - Z.to_nat (count * Execute.inComponents interpolator))%nat = tmpPtr).
  { rewrite Htmp, Z.sub_0_r. unfold stride.
    rewrite Z2Nat.inj_mul by lia. lia. }
  rewrite Hback. split; [| reflexivity].
  destruct (1 <? count); [| exact Hlen].
  rewrite length_app, length_take. unfold Execute.composite.
  rewrite composite_length, length_drop. lia.
Qed.

(** The walk along a row keeps the length [L] of the row buffer, and
    [tmpPtr] stands one pixel after the last voxel sampled. *)
Definition row_ok (L : nat) (idXmin : Z) (st : Execute.RowState) : Prop :=
  length (Execute.floatPtr st) = L /\
  Execute.tmpPtr st = (Z.to_nat (Execute.idX st - idXmin) * stride)%nat /\
  idXmin <= Execute.idX st.

Definition flags_agree (st : Execute.RowState) : bool :=
  Bool.eqb (Execute.isInBounds st) (Execute.wasInBounds st).

Lemma scan_stops (fuel : nat) (inPoint1 : list Q) (idXmin idXmax : Z)
    (st : Execute.RowState) :
  flags_agree st = false ->
  Execute.scan self interpolator newmat fuel inPoint1 idXmin idXmax st = st.
Proof.
  unfold flags_agree. intros H. destruct fuel; cbn [Execute.scan]; [reflexivity |].
  rewrite H, andb_false_r. reflexivity.
Qed.

(** The scan of a row stops at the end of the row or just after the first
    voxel whose in-bounds flag differs; the first voxel of a row never
    differs. *)
Lemma scan_spec (L : nat) (inPoint1 : list Q) (idXmin idXmax : Z) (fuel : nat) :
  forall st : Execute.RowState,
  row_ok L idXmin st -> flags_agree st = true ->
  Execute.idX st <= idXmax + 1 ->
  (Z.to_nat (idXmax + 1 - Execute.idX st) <= fuel)%nat ->
  let st' := Execute.scan self interpolator newmat fuel inPoint1 idXmin idXmax st in
  row_ok L idXmin st' /\
  Execute.idX st <= Execute.idX st' <= idXmax + 1 /\
  (if flags_agree st' then Execute.idX st' = idXmax + 1
   else Execute.idX st + 1 <= Execute.idX st' /\
        (Execute.idX st = idXmin -> idXmin + 2 <= Execute.idX st')).
Proof.
  induction fuel as [| fuel IH]; intros st Hok Hflags Hend Hfuel; cbn zeta.
  - cbn [Execute.scan]. rewrite Hflags. split; [exact Hok |]. split; lia.
  - cbn [Execute.scan].
    destruct (Z.leb_spec (Execute.idX st) idXmax) as [Hle | Hgt]; cbn [andb].
    + unfold flags_agree in Hflags. rewrite Hflags.
      pose proof (voxel_facts inPoint1 (Execute.idX st) (Execute.floatPtr st)
                    (Execute.tmpPtr st)) as Hv.
      destruct (Execute.voxel self interpolator newmat inPoint1 (Execute.idX st)
                  (Execute.floatPtr st) (Execute.tmpPtr st)) as [[isIn buf] tmp].
      destruct Hv as [Hlen Htmp].
      destruct Hok as (HL & Ht & Hmin).
      set (st1 := {| Execute.idX := Execute.idX st + 1;
                     Execute.isInBounds := isIn;
                     Execute.wasInBounds :=
                       if idXmin <? Execute.idX st then Execute.wasInBounds st else isIn;
                     Execute.floatPtr := buf;
                     Execute.tmpPtr := tmp |}).
      assert (Hok1 : row_ok L idXmin st1).
      { unfold row_ok. subst st1. cbn [Execute.floatPtr Execute.tmpPtr Execute.idX].
        repeat split; [congruence | | lia].
        rewrite Htmp, Ht.
        replace (Z.to_nat (Execute.idX st + 1 - idXmin))
          with (S (Z.to_nat (Execute.idX st - idXmin))) by lia.
        lia. }
      destruct (flags_agree st1) eqn:Hf1.
      * specialize (IH st1 Hok1 Hf1).
        assert (H1 : Execute.idX st1 = Execute.idX st + 1) by reflexivity.
        destruct IH as (Hok' & Hrange & Hexit); [lia | lia |].
        split; [exact Hok' |]. split; [lia |].
        destruct (flags_agree (Execute.scan self interpolator newmat fuel inPoint1
                                 idXmin idXmax st1)); [exact Hexit | lia].
      * rewrite (scan_stops fuel inPoint1 idXmin idXmax st1 Hf1).
        split; [exact Hok1 |]. rewrite Hf1.
        assert (H1 : Execute.idX st1 = Execute.idX st + 1) by reflexivity.
        split; [lia |]. split; [lia |].
        intros Hfirst. exfalso. unfold flags_agree in Hf1. subst st1.
        cbn [Execute.isInBounds Execute.wasInBounds] in Hf1.
        replace (idXmin <? Execute.idX st) with false in Hf1
          by (symmetry; apply Z.ltb_ge; lia).
        rewrite Bool.eqb_reflx in Hf1. discriminate Hf1.
    + rewrite Hflags. split; [exact Hok |]. split; lia.
Qed.

Lemma rescale_length (floatData : list Q) (components n : Z) (shift scale : Q) :
  length (Execute.vtkImageResliceRescaleScalars floatData components n shift scale)
  = length floatData.
Proof.
  unfold Execute.vtkImageResliceRescaleScalars.
  rewrite length_app, List.length_map, length_take, length_drop. lia.
Qed.

(** The segments of a row: every turn of the loop writes at least one
    pixel, and together they cover the row from [startIdX] on. *)
Lemma segments_spec (L : nat) (inPoint1 : list Q) (idXmin idXmax : Z) (fuel : nat) :
  idXmin <= idXmax ->
  (Z.to_nat (idXmax + 1 - idXmin) * stride <= L)%nat ->
  forall (startIdX : Z) (st : Execute.RowState) (out : list Scalar),
  row_ok L idXmin st -> flags_agree st = true ->
  idXmin <= startIdX <= idXmax + 1 ->
  (startIdX <= idXmax ->
   (Execute.idX st = startIdX /\ startIdX = idXmin) \/ Execute.idX st = startIdX + 1) ->
  (Z.to_nat (idXmax + 1 - startIdX) <= fuel)%nat ->
  let result :=
    Execute.segments Round GetDataTypeMin GetDataTypeMax heap self scalars interpolator
      outData newmat fuel inPoint1 idXmin idXmax startIdX st out in
  length (fst result) = L /\
  length (snd result)
  = (length out
     + Z.to_nat (idXmax + 1 - startIdX) * Z.to_nat (Execute.outComponents outData))%nat.
Proof.
  intros Hrow HL.
  induction fuel as [| fuel IH]; intros startIdX st out Hok Hflags Hstart Hhead Hfuel;
    cbn zeta.
  - cbn [Execute.segments fst snd].
    replace (Z.to_nat (idXmax + 1 - startIdX)) with 0%nat by lia.
    split; [apply Hok | lia].
  - cbn [Execute.segments].
    destruct (Z.leb_spec startIdX idXmax) as [Hle | Hgt].
    2: { cbn [fst snd]. replace (Z.to_nat (idXmax + 1 - startIdX)) with 0%nat by lia.
         split; [apply Hok | lia]. }
    specialize (Hhead Hle).
    assert (Hidx : Execute.idX st <= idXmax + 1) by lia.
    pose proof (scan_spec L inPoint1 idXmin idXmax (Z.to_nat (idXmax - idXmin + 2)) st
                  Hok Hflags Hidx) as Hscan.
    cbn zeta in Hscan.
    set (st' := Execute.scan self interpolator newmat (Z.to_nat (idXmax - idXmin + 2))
                  inPoint1 idXmin idXmax st) in *.
    destruct Hscan as (Hok' & Hrange & Hexit); [destruct Hok as (_ & _ & ?); lia |].
    fold (flags_agree st').
    set (e := if flags_agree st' then 0 else 1).
    set (numpixels := Execute.idX st' - 1 - e - startIdX + 1).
    assert (Hnum : 1 <= numpixels /\ startIdX + numpixels <= idXmax + 1 /\
                   startIdX + numpixels = Execute.idX st' - e).
    { subst numpixels e. destruct (flags_agree st'); lia. }
    destruct Hnum as (Hn1 & Hn2 & Hn3).
    destruct Hok' as (HL' & Ht' & Hmin').
    set (written_buf :=
           if Execute.wasInBounds st' then _ else _).
    assert (Hwritten : length (fst written_buf) = L /\
                       length (snd written_buf)
                       = (Z.to_nat numpixels * Z.to_nat (Execute.outComponents outData))%nat).
    { subst written_buf. destruct (Execute.wasInBounds st'); cbn [fst snd].
      - set (buf := if Execute.rescaleScalars self then _ else _).
        assert (Hbuf : length buf = L)
          by (subst buf; destruct (Execute.rescaleScalars self);
              [rewrite rescale_length |]; exact HL').
        split; [exact Hbuf |].
        rewrite apply_conversion_length.
        + rewrite Z2Nat.inj_mul by lia. reflexivity.
        + lia.
        + rewrite length_drop, Hbuf, Ht'. unfold stride in *.
          rewrite <- components_agree.
          rewrite !Z2Nat.inj_mul by lia.
          assert (Hk : (Z.to_nat (Execute.idX st' - idXmin)
                        = Z.to_nat (startIdX - idXmin) + Z.to_nat (Execute.idX st' - startIdX))%nat)
            by lia.
          assert (Hm : (Z.to_nat (startIdX - idXmin) + Z.to_nat numpixels
                        <= Z.to_nat (idXmax + 1 - idXmin))%nat) by lia.
          rewrite Hk. nia.
      - split; [exact HL' |]. apply background_segment_length. }
    destruct written_buf as [buf written]. cbn [fst snd] in Hwritten.
    destruct Hwritten as [Hbuf Hwr].
    set (st'' := {| Execute.idX := Execute.idX st';
                    Execute.isInBounds := Execute.isInBounds st';
                    Execute.wasInBounds := Execute.isInBounds st';
                    Execute.floatPtr := buf;
                    Execute.tmpPtr := Execute.tmpPtr st' |}).
    specialize (IH (startIdX + numpixels) st'' (out ++ written)).
    destruct IH as [IH1 IH2].
    + unfold row_ok. subst st''. cbn [Execute.floatPtr Execute.tmpPtr Execute.idX].
      repeat split; assumption.
    + unfold flags_agree. subst st''. cbn [Execute.isInBounds Execute.wasInBounds].
      apply Bool.eqb_reflx.
    + lia.
    + intros Hmore. right. subst st''. cbn [Execute.idX].
      subst e. destruct (flags_agree st'); lia.
    + lia.
    + split; [exact IH1 |].
      rewrite IH2, length_app, Hwr.
      replace (Z.to_nat (idXmax + 1 - startIdX))
        with (Z.to_nat numpixels + Z.to_nat (idXmax + 1 - (startIdX + numpixels)))%nat by lia.
      lia.
Qed.

Lemma interpolated_row_lengths (inPoint1 : list Q) (idXmin idXmax : Z) (buf : list Q) :
  idXmin <= idXmax ->
  (Z.to_nat (idXmax + 1 - idXmin) * stride <= length buf)%nat ->
  let result :=
    Execute.interpolated_row Round GetDataTypeMin GetDataTypeMax heap self scalars
      interpolator outData newmat inPoint1 idXmin idXmax buf in
  length (fst result) = length buf /\
  length (snd result)
  = (Z.to_nat (idXmax + 1 - idXmin) * Z.to_nat (Execute.outComponents outData))%nat.
Proof.
  intros Hrow Hbuf. unfold Execute.interpolated_row.
  apply (segments_spec (length buf) inPoint1 idXmin idXmax
           (Z.to_nat (idXmax - idXmin + 2)) Hrow Hbuf idXmin
           {| Execute.idX := idXmin; Execute.isInBounds := true;
              Execute.wasInBounds := true; Execute.floatPtr := buf;
              Execute.tmpPtr := 0 |} []).
  - unfold row_ok. cbn [Execute.floatPtr Execute.tmpPtr Execute.idX].
    rewrite Z.sub_diag. repeat split; lia.
  - reflexivity.
  - lia.
  - intros _. left. split; reflexivity.
  - lia.
Qed.

Lemma tile_voxels_length (outExt : list Z) :
  length (Execute.tile_voxels outExt)
  = (length (Execute.spans outExt)
     * Z.to_nat (outExt !!! 1%nat - outExt !!! 0%nat + 1))%nat.
Proof.
  unfold Execute.tile_voxels.
  induction (Execute.spans outExt) as [| [idY idZ] l IH]; cbn [flat_map length];
    [reflexivity |].
  rewrite length_app, List.length_map, Execute.length_zrange, IH. lia.
Qed.

(** X21: the general path writes every voxel of its tile exactly once.
    When the rows go through the interpolator (the nearest-neighbour copy is
    not taken) and the output has the components of the interpolator,
    [vtkImageResliceExecute] writes as many scalars as the tile has voxels
    times the number of components, whatever the interpolator reports in
    bounds. *)
Theorem general_path_writes_every_voxel (outExt : list Z) :
  Execute.optimizeNearest self scalars interpolator outData newmat = false ->
  outExt !!! 0%nat <= outExt !!! 1%nat ->
  length (Execute.vtkImageResliceExecute Round GetDataTypeMin GetDataTypeMax heap self
            scalars interpolator outData newmat outExt)
  = (length (Execute.tile_voxels outExt)
     * Z.to_nat (Execute.outComponents outData))%nat.
Proof.
  intros Hopt Hrow.
  unfold Execute.vtkImageResliceExecute.
  set (idXmin := outExt !!! 0%nat).
  set (idXmax := outExt !!! 1%nat).
  set (buf0 := replicate _ (Execute.fresh_float heap)).
  set (rowlen := (Z.to_nat (idXmax + 1 - idXmin)
                  * Z.to_nat (Execute.outComponents outData))%nat).
  assert (Hns : 1 <= Execute.nsamples self)
    by (unfold Execute.nsamples; destruct (Z.ltb_spec 1 (Execute.SlabNumberOfSlices self)); lia).
  assert (Hbuf0 : (Z.to_nat (idXmax + 1 - idXmin) * stride <= length buf0)%nat).
  { subst buf0. rewrite length_replicate. unfold stride.
    fold idXmin idXmax. rewrite Z2Nat.inj_mul by lia. nia. }
  assert (Hfold : forall (l : list (Z * Z)) (st : Execute.TileState),
            length (Execute.rowBuffer st) = length buf0 ->
            let st' :=
              fold_left
                (Execute.span_step Round GetDataTypeMin GetDataTypeMax heap self scalars
                   interpolator outData newmat outExt) l st in
            length (Execute.written st')
            = (length (Execute.written st) + length l * rowlen)%nat).
  { induction l as [| [y z] l IH]; intros st Hst; cbn zeta; cbn [fold_left length];
      [lia |].
    rewrite IH.
    - unfold Execute.span_step. rewrite Hopt. cbn [negb].
      destruct (Execute.idZ st <? z);
        (destruct (_ <? y);
         match goal with
         | |- context [Execute.interpolated_row ?a ?b ?c ?d ?e ?f ?g ?h ?i ?p ?lo ?hi ?bf] =>
             pose proof (interpolated_row_lengths p lo hi bf) as Hr
         end;
         fold idXmin idXmax in Hr |- *;
         replace (idXmin + (idXmax - idXmin + 1) - 1) with idXmax in Hr |- * by lia;
         specialize (Hr Hrow ltac:(rewrite Hst; exact Hbuf0)); cbn zeta in Hr;
         destruct (Execute.interpolated_row _ _ _ _ _ _ _ _ _ _ _ _ _) as [buf row];
         cbn [fst snd] in Hr; destruct Hr as [_ Hr];
         cbn [Execute.written]; rewrite length_app, Hr; subst rowlen; lia).
    - unfold Execute.span_step. rewrite Hopt. cbn [negb].
      destruct (Execute.idZ st <? z);
        (destruct (_ <? y);
         match goal with
         | |- context [Execute.interpolated_row ?a ?b ?c ?d ?e ?f ?g ?h ?i ?p ?lo ?hi ?bf] =>
             pose proof (interpolated_row_lengths p lo hi bf) as Hr
         end;
         fold idXmin idXmax in Hr |- *;
         replace (idXmin + (idXmax - idXmin + 1) - 1) with idXmax in Hr |- * by lia;
         specialize (Hr Hrow ltac:(rewrite Hst; exact Hbuf0)); cbn zeta in Hr;
         destruct (Execute.interpolated_row _ _ _ _ _ _ _ _ _ _ _ _ _) as [buf row];
         cbn [fst snd] in Hr; destruct Hr as [Hr _];
         cbn [Execute.rowBuffer]; rewrite Hr; exact Hst). }
  rewrite Hfold by reflexivity. cbn [Execute.written length].
  rewrite tile_voxels_length. fold idXmin idXmax. subst rowlen.
  replace (idXmax - idXmin + 1) with (idXmax + 1 - idXmin) by lia. lia.
Qed.

End OneRow.

(** A row of three voxels across the column and beyond it: mean slab of
    three slices, index matrix the identity moved up a quarter voxel. *)
Definition quarter_tile : list Z := [-1; 1; 0; 0; 0; 4].

Lemma general_path_writes_every_voxel_witness :
  Execute.optimizeNearest (Execute.slab_filter 3 false) Execute.column_scalars
    Execute.column_interpolator Execute.uint16_output Execute.quarter_shift = false /\
  length (Execute.vtkImageResliceExecute Round_half_up Execute.DataTypeMin
            Execute.DataTypeMax Execute.some_heap (Execute.slab_filter 3 false)
            Execute.column_scalars Execute.column_interpolator Execute.uint16_output
            Execute.quarter_shift quarter_tile)
  = (length (Execute.tile_voxels quarter_tile)
     * Z.to_nat (Execute.outComponents Execute.uint16_output))%nat.
Proof.
  split; [reflexivity |].
  apply (general_path_writes_every_voxel Round_half_up Execute.DataTypeMin
           Execute.DataTypeMax Execute.some_heap (Execute.slab_filter 3 false)
           Execute.column_scalars Execute.column_interpolator Execute.uint16_output
           Execute.quarter_shift);
    first [reflexivity | cbn; lia].
Defined.

(** The tile of the witness, evaluated: in every row the voxel on the
    column is interpolated and the two beside it are background; at the two
    ends of the column the slab loses the sample that is out of bounds. *)
Example quarter_tile_rows :
  Execute.vtkImageResliceExecute Round_half_up Execute.DataTypeMin Execute.DataTypeMax
    Execute.some_heap (Execute.slab_filter 3 false) Execute.column_scalars
    Execute.column_interpolator Execute.uint16_output Execute.quarter_shift quarter_tile
  = [IntVal 0; IntVal 75; IntVal 0; IntVal 0; IntVal 125; IntVal 0;
     IntVal 0; IntVal 225; IntVal 0; IntVal 0; IntVal 317; IntVal 0;
     IntVal 0; IntVal 363; IntVal 0].
Proof. vm_compute. reflexivity. Qed.

End RowFacts.


(** ** Bounds on the derived output spacing *)

Module SpacingFacts.
Import Numeric.

Lemma square_nonneg (x : Q) : (0 <= x * x)%Q.
Proof.
  destruct (Qlt_le_dec x 0) as [Hneg | Hpos].
  - assert (H : (0 <= (- x) * (- x))%Q) by (apply Qmult_le_0_compat; lra).
    assert (E : ((- x) * (- x) == x * x)%Q) by ring.
    rewrite <- E. exact H.
  - apply Qmult_le_0_compat; assumption.
Qed.

Lemma weighted_mean_between (t0 t1 t2 a0 a1 a2 lo hi : Q) :
  (0 <= t0)%Q -> (0 <= t1)%Q -> (0 <= t2)%Q ->
  (0 < 0 + t0 + t1 + t2)%Q ->
  (lo <= a0 <= hi)%Q -> (lo <= a1 <= hi)%Q -> (lo <= a2 <= hi)%Q ->
  (lo <= (0 + t0 * a0 + t1 * a1 + t2 * a2) / (0 + t0 + t1 + t2) <= hi)%Q.
Proof.
  intros H0 H1 H2 Hr [L0 U0] [L1 U1] [L2 U2].
  assert (A0 : (0 <= t0 * (a0 - lo))%Q) by (apply Qmult_le_0_compat; lra).
  assert (A1 : (0 <= t1 * (a1 - lo))%Q) by (apply Qmult_le_0_compat; lra).
  assert (A2 : (0 <= t2 * (a2 - lo))%Q) by (apply Qmult_le_0_compat; lra).
  assert (B0 : (0 <= t0 * (hi - a0))%Q) by (apply Qmult_le_0_compat; lra).
  assert (B1 : (0 <= t1 * (hi - a1))%Q) by (apply Qmult_le_0_compat; lra).
  assert (B2 : (0 <= t2 * (hi - a2))%Q) by (apply Qmult_le_0_compat; lra).
  split.
  - apply Qle_shift_div_l; [exact Hr | lra].
  - apply Qle_shift_div_r; [exact Hr | lra].
Qed.

(** X22: the output spacing [RequestInformation] derives for an axis is a
    weighted mean of the absolute input spacings: with
    [TransformInputSampling] on and the spacing not set by the user, it lies
    between any two bounds of the three absolute input spacings, provided the
    column of the rotation for that axis is not zero. *)
Theorem derived_spacing_between_input_spacings (self : Geometry.Inputs) (i : nat)
    (lo hi : Q) :
  Geometry.TransformInputSampling self = true ->
  Geometry.ComputeOutputSpacing self = true ->
  (i < 3)%nat ->
  (forall j, (j < 3)%nat -> (lo <= Qabs (nth j (Geometry.inSpacing self) 0) <= hi)%Q) ->
  (0 < snd (Geometry.accumulate_axis (Geometry.rotation self) (Geometry.inSpacing self) i))%Q ->
  (lo <= nth i (Geometry.outSpacing self) 0 <= hi)%Q.
Proof.
  intros Htis Hcos Hi Hsp Hr.
  unfold Geometry.outSpacing. rewrite Htis, Hcos. cbn [negb].
  revert Hr. unfold Geometry.accumulate_axis.
  generalize (Geometry.rotation self). intros R.
  pose proof (Hsp 0%nat ltac:(lia)) as S0.
  pose proof (Hsp 1%nat ltac:(lia)) as S1.
  pose proof (Hsp 2%nat ltac:(lia)) as S2.
  destruct i as [| [| [| i]]]; [| | | lia];
    cbn [fold_left map nth snd Nat.mul Nat.add]; intros Hr;
    apply weighted_mean_between; try assumption; apply square_nonneg.
Qed.

Lemma derived_spacing_between_input_spacings_witness :
  Geometry.TransformInputSampling Geometry.quarter_turns = true /\
  (1 <= nth 1 (Geometry.outSpacing Geometry.quarter_turns) 0 <= 3)%Q.
Proof.
  split; [reflexivity |].
  apply (derived_spacing_between_input_spacings Geometry.quarter_turns 1 1 3);
    first [reflexivity | lia | idtac].
  intros j Hj. destruct j as [| [| [| j]]]; [| | | lia]; split; discriminate.
Defined.

End SpacingFacts.


(** ** The nearest-neighbour copy, voxel by voxel *)

Module CopyFacts.
Import Numeric Convert.

Lemma zrange_first (lo hi : Z) :
  lo <= hi -> Execute.zrange lo hi = lo :: Execute.zrange (lo + 1) hi.
Proof.
  intros H. unfold Execute.zrange.
  replace (Z.to_nat (hi - lo + 1)) with (S (Z.to_nat (hi - (lo + 1) + 1))) by lia.
  cbn [seq map]. f_equal; [lia |].
  rewrite <- seq_shift, List.map_map. apply map_ext. intros i. lia.
Qed.

Lemma zrange_none (lo hi : Z) : hi < lo -> Execute.zrange lo hi = [].
Proof.
  intros H. unfold Execute.zrange.
  replace (Z.to_nat (hi - lo + 1)) with 0%nat by lia. reflexivity.
Qed.

Lemma replicate_last {A} (n : nat) (x : A) : replicate (S n) x = replicate n x ++ [x].
Proof. induction n as [| n IH]; [reflexivity |]. cbn [replicate app] in *. rewrite <- IH. reflexivity. Qed.

Lemma flat_map_flat_map {A B C} (f : B -> list C) (g : A -> list B) (l : list A) :
  flat_map f (flat_map g l) = flat_map (fun a => flat_map f (g a)) l.
Proof.
  induction l as [| a l IH]; cbn [flat_map]; [reflexivity |].
  rewrite flat_map_app, IH. reflexivity.
Qed.

Section Copy.

Variable Round : Q -> Z.
Variable GetDataTypeMin : ScalarType -> Q.
Variable GetDataTypeMax : ScalarType -> Q.
Variable heap : Execute.Heap.
Variable self : Execute.vtkImageReslice.
Variable scalars : Execute.vtkDataArray.
Variable interpolator : Execute.vtkAbstractImageInterpolator.
Variable outData : Execute.vtkImageData.
Variable newmat : vtkMatrix4x4.

(** Rounding to the nearest integer is monotone. *)
Hypothesis Round_monotone : forall x y : Q, (x <= y)%Q -> Round x <= Round y.

(** The pixel [setpixels] writes. *)
Definition background_pixel : list Scalar :=
  take (Z.to_nat (Execute.outComponents outData))
    (Execute.background Round heap self (Execute.scalarType outData)
       (Execute.outComponents outData)).

(** What the voxel [idX] of the row at [inPoint1] holds when every voxel
    is looked at by itself: the input pixel its point rounds to, or the
    background. *)
Definition nearest_voxel (inPoint1 : list Q) (idX : Z) : list Scalar :=
  match Execute.input_pixel Round scalars interpolator newmat inPoint1 idX with
  | Some pixel => pixel
  | None => background_pixel
  end.

(** The point of the row [(idY, idZ)] before the steps along X. *)
Definition row_point (idY idZ : Z) : list Q :=
  Execute.advance
    (Execute.advance (Execute.origin newmat) (inject_Z idZ) (Execute.zAxis newmat))
    (inject_Z idY) (Execute.yAxis newmat).

Local Abbreviation fill n :=
  (Execute.vtkGetSetPixelsFunc (Execute.outComponents outData)
     (Execute.background Round heap self (Execute.scalarType outData)
        (Execute.outComponents outData))
     (Execute.outComponents outData) n).

Local Abbreviation loop :=
  (Execute.copy_loop Round heap self scalars interpolator outData newmat).

Local Abbreviation pixel_at :=
  (Execute.input_pixel Round scalars interpolator newmat).

Lemma fill_copies (n : Z) : fill n = concat (replicate (Z.to_nat n) background_pixel).
Proof. apply Execute.setpixels_copies. Qed.

(** Along a row, the rounded coordinate of a voxel lies between those of
    any two voxels around it. *)
Lemma between_rounds (p x : Q) (i j k : Z) :
  i <= j <= k ->
  (Round (p + inject_Z i * x) <= Round (p + inject_Z j * x) <= Round (p + inject_Z k * x)) \/
  (Round (p + inject_Z k * x) <= Round (p + inject_Z j * x) <= Round (p + inject_Z i * x)).
Proof.
  intros [Hij Hjk].
  assert (Qij : (inject_Z i <= inject_Z j)%Q) by (rewrite <- Zle_Qle; exact Hij).
  assert (Qjk : (inject_Z j <= inject_Z k)%Q) by (rewrite <- Zle_Qle; exact Hjk).
  destruct (Qlt_le_dec x 0) as [Hneg | Hpos].
  - right. split; apply Round_monotone; nra.
  - left. split; apply Round_monotone; nra.
Qed.

(** The voxels of a row that map into the input extent are contiguous. *)
Lemma inside_convex (inPoint1 : list Q) (i j k : Z) :
  i <= j <= k ->
  pixel_at inPoint1 i <> None -> pixel_at inPoint1 k <> None ->
  pixel_at inPoint1 j <> None.
Proof.
  intros Hijk Hi Hk.
  pose proof (between_rounds (nth 0 inPoint1 0%Q) (nth 0 (Execute.xAxis newmat) 0%Q)
                i j k Hijk) as H0.
  pose proof (between_rounds (nth 1 inPoint1 0%Q) (nth 1 (Execute.xAxis newmat) 0%Q)
                i j k Hijk) as H1.
  pose proof (between_rounds (nth 2 inPoint1 0%Q) (nth 2 (Execute.xAxis newmat) 0%Q)
                i j k Hijk) as H2.
  unfold Execute.input_pixel, Execute.advance in Hi, Hk |- *.
  cbn [map nth] in Hi, Hk |- *. cbv zeta in Hi, Hk |- *.
  set (e0 := Execute.GetExtent interpolator !!! 0%nat) in *.
  set (e1 := Execute.GetExtent interpolator !!! 1%nat) in *.
  set (e2 := Execute.GetExtent interpolator !!! 2%nat) in *.
  set (e3 := Execute.GetExtent interpolator !!! 3%nat) in *.
  set (e4 := Execute.GetExtent interpolator !!! 4%nat) in *.
  set (e5 := Execute.GetExtent interpolator !!! 5%nat) in *.
  match type of Hi with (if ?c then _ else _) <> _ =>
    destruct c eqn:Ei; [| contradiction] end.
  match type of Hk with (if ?c then _ else _) <> _ =>
    destruct c eqn:Ek; [| contradiction] end.
  match goal with |- (if ?c then _ else _) <> _ =>
    destruct c eqn:Ej; [discriminate |] end.
  exfalso.
  rewrite !andb_true_iff, !Z.leb_le, !Z.ltb_lt in Ei, Ek.
  rewrite !andb_false_iff, !Z.leb_gt, !Z.ltb_ge in Ej.
  lia.
Qed.

Lemma all_background (inPoint1 : list Q) (hi : Z) (n : nat) :
  forall lo : Z,
  n = Z.to_nat (hi + 1 - lo) ->
  (forall t, lo <= t <= hi -> pixel_at inPoint1 t = None) ->
  flat_map (nearest_voxel inPoint1) (Execute.zrange lo hi)
  = concat (replicate n background_pixel).
Proof.
  induction n as [| n IH]; intros lo Hn Hnone.
  - rewrite zrange_none by lia. reflexivity.
  - rewrite zrange_first by lia. cbn [flat_map replicate concat].
    rewrite (IH (lo + 1)) by (intros; try apply Hnone; lia).
    unfold nearest_voxel at 1. rewrite Hnone by lia. reflexivity.
Qed.

(** The loop after the first voxel in bounds: it copies up to the first
    voxel out of bounds and leaves, and the fill that follows is what the
    voxels left over hold. *)
Lemma copy_loop_inside (inPoint1 : list Q) (idXmin idXmax : Z) (n : nat) :
  forall (cur : Z) (out : list Scalar),
  n = Z.to_nat (idXmax + 1 - cur) -> cur <= idXmax + 1 ->
  pixel_at inPoint1 (cur - 1) <> None ->
  let r := loop inPoint1 idXmin (Execute.zrange cur idXmax) true (cur - 1) out in
  snd r ++ fill (idXmax - fst r)
  = out ++ flat_map (nearest_voxel inPoint1) (Execute.zrange cur idXmax).
Proof.
  induction n as [| n IH]; intros cur out Hn Hcur Hprev; cbn zeta.
  - rewrite zrange_none by lia. cbn [Execute.copy_loop fst snd flat_map].
    rewrite fill_copies. replace (Z.to_nat (idXmax - (cur - 1))) with 0%nat by lia.
    reflexivity.
  - rewrite (zrange_first cur idXmax) by lia. cbn [Execute.copy_loop flat_map].
    unfold nearest_voxel at 1.
    destruct (pixel_at inPoint1 cur) as [pixel |] eqn:Ecur.
    + specialize (IH (cur + 1) (out ++ pixel)).
      replace (cur + 1 - 1) with cur in IH by lia.
      cbn zeta in IH. rewrite IH; [| lia | lia | congruence].
      rewrite <- app_assoc. reflexivity.
    + cbn [fst snd]. rewrite fill_copies. f_equal.
      rewrite (all_background inPoint1 idXmax n (cur + 1)); [| lia |].
      * replace (Z.to_nat (idXmax - (cur - 1))) with (S n) by lia. reflexivity.
      * intros t Ht.
        destruct (pixel_at inPoint1 t) eqn:Et; [| reflexivity].
        exfalso. apply (inside_convex inPoint1 (cur - 1) cur t); [lia | exact Hprev | | exact Ecur].
        congruence.
Qed.

(** The loop before the first voxel in bounds. *)
Lemma copy_loop_outside (inPoint1 : list Q) (idXmin idXmax : Z) (n : nat) :
  forall cur : Z,
  n = Z.to_nat (idXmax + 1 - cur) -> idXmin <= cur ->
  cur <= idXmax + 1 \/ cur = idXmin ->
  let r := loop inPoint1 idXmin (Execute.zrange cur idXmax) false (idXmin - 1) [] in
  snd r ++ fill (idXmax - fst r)
  = concat (replicate (Z.to_nat (cur - idXmin)) background_pixel)
    ++ flat_map (nearest_voxel inPoint1) (Execute.zrange cur idXmax).
Proof.
  induction n as [| n IH]; intros cur Hn Hmin Hcur; cbn zeta.
  - rewrite zrange_none by lia. cbn [Execute.copy_loop fst snd flat_map app].
    rewrite fill_copies, app_nil_r. f_equal. f_equal. lia.
  - rewrite (zrange_first cur idXmax) by lia. cbn [Execute.copy_loop flat_map].
    unfold nearest_voxel at 1.
    destruct (pixel_at inPoint1 cur) as [pixel |] eqn:Ecur.
    + pose proof (copy_loop_inside inPoint1 idXmin idXmax n (cur + 1)
                    (fill (cur - idXmin) ++ pixel)) as Hin.
      replace (cur + 1 - 1) with cur in Hin by lia.
      cbn zeta in Hin. rewrite Hin; [| lia | lia | congruence].
      rewrite fill_copies, <- app_assoc. reflexivity.
    + specialize (IH (cur + 1)). cbn zeta in IH. rewrite IH; [| lia | lia | lia].
      replace (Z.to_nat (cur + 1 - idXmin)) with (S (Z.to_nat (cur - idXmin))) by lia.
      rewrite replicate_last, concat_app. cbn [concat].
      rewrite app_nil_r, <- app_assoc. reflexivity.
Qed.

(** A copied row holds, voxel by voxel, the input pixel or the background:
    leaving the loop at the first voxel out of bounds loses nothing. *)
Lemma copied_row_voxels (inPoint1 : list Q) (idXmin idXmax : Z) :
  Execute.copied_row Round heap self scalars interpolator outData newmat
    inPoint1 idXmin idXmax
  = flat_map (nearest_voxel inPoint1) (Execute.zrange idXmin idXmax).
Proof.
  unfold Execute.copied_row.
  pose proof (copy_loop_outside inPoint1 idXmin idXmax (Z.to_nat (idXmax + 1 - idXmin))
                idXmin eq_refl ltac:(lia) ltac:(right; reflexivity)) as H.
  cbn zeta in H.
  destruct (loop inPoint1 idXmin (Execute.zrange idXmin idXmax) false (idXmin - 1) [])
    as [endIdX out].
  cbn [fst snd] in H. rewrite H, Z.sub_diag. reflexivity.
Qed.

Hypothesis copies : Execute.optimizeNearest self scalars interpolator outData newmat = true.

Local Abbreviation step outExt :=
  (Execute.span_step Round GetDataTypeMin GetDataTypeMax heap self scalars interpolator
     outData newmat outExt).

(** The row a span writes, by voxels. *)
Definition row_voxels (outExt : list Z) (idY idZ : Z) : list Scalar :=
  flat_map (nearest_voxel (row_point idY idZ))
    (Execute.zrange (outExt !!! 0%nat) (outExt !!! 1%nat)).

(** The partial points are up to date for the row [(idY, idZ)]. *)
Definition ready (st : Execute.TileState) (idY idZ : Z) : Prop :=
  Execute.idZ st < idZ \/
  (Execute.idZ st = idZ /\
   Execute.inPoint0 st
   = Execute.advance (Execute.origin newmat) (inject_Z idZ) (Execute.zAxis newmat) /\
   Execute.idY st < idY).

Lemma span_step_row (outExt : list Z) (st : Execute.TileState) (y z : Z) :
  outExt !!! 2%nat <= y -> ready st y z ->
  let st' := step outExt st (y, z) in
  Execute.written st' = Execute.written st ++ row_voxels outExt y z /\
  ready st' (y + 1) z.
Proof.
  intros Hy Hready. cbn zeta. unfold Execute.span_step. rewrite copies. cbn [negb].
  replace (outExt !!! 0%nat + (outExt !!! 1%nat - outExt !!! 0%nat + 1) - 1)
    with (outExt !!! 1%nat) by lia.
  destruct (Z.ltb_spec (Execute.idZ st) z) as [Hz | Hz].
  - replace (outExt !!! 2%nat - 1 <? y) with true by (symmetry; apply Z.ltb_lt; lia).
    cbn [Execute.written Execute.idZ Execute.inPoint0 Execute.idY].
    rewrite copied_row_voxels. split; [reflexivity |].
    right. cbn [Execute.idZ Execute.inPoint0 Execute.idY]. repeat split; lia.
  - destruct Hready as [Hlt | (Heq & Hp0 & Hlt)]; [lia |].
    replace (Execute.idY st <? y) with true by (symmetry; apply Z.ltb_lt; lia).
    cbn [Execute.written Execute.idZ Execute.inPoint0 Execute.idY].
    rewrite copied_row_voxels, Hp0. split; [reflexivity |].
    right. cbn [Execute.idZ Execute.inPoint0 Execute.idY]. split; [exact Heq | split; [reflexivity | lia]].
Qed.

(** The rows of one slice. *)
Lemma slice_rows (outExt : list Z) (z : Z) (n : nat) :
  forall (y : Z) (st : Execute.TileState),
  n = Z.to_nat (outExt !!! 3%nat + 1 - y) -> outExt !!! 2%nat <= y -> ready st y z ->
  let st' :=
    fold_left (step outExt) (map (fun idY => (idY, z)) (Execute.zrange y (outExt !!! 3%nat)))
      st in
  Execute.written st'
  = Execute.written st
    ++ flat_map (fun idY => row_voxels outExt idY z) (Execute.zrange y (outExt !!! 3%nat)) /\
  Execute.idZ st' <= z.
Proof.
  induction n as [| n IH]; intros y st Hn Hy Hready; cbn zeta.
  - rewrite zrange_none by lia. cbn [map fold_left flat_map]. rewrite app_nil_r.
    split; [reflexivity |]. destruct Hready as [? | (? & _)]; lia.
  - rewrite (zrange_first y) by lia. cbn [map fold_left flat_map].
    pose proof (span_step_row outExt st y z Hy Hready) as Hstep. cbn zeta in Hstep.
    destruct Hstep as [Hw Hr].
    specialize (IH (y + 1) (step outExt st (y, z)) ltac:(lia) ltac:(lia) Hr).
    cbn zeta in IH. destruct IH as [IHw IHz].
    split; [| exact IHz]. rewrite IHw, Hw, <- app_assoc. reflexivity.
Qed.

(** The slices of a tile. *)
Lemma tile_slices (outExt : list Z) (n : nat) :
  forall (z : Z) (st : Execute.TileState),
  n = Z.to_nat (outExt !!! 5%nat + 1 - z) -> Execute.idZ st < z ->
  Execute.written
    (fold_left (step outExt)
       (flat_map
          (fun idZ =>
             map (fun idY => (idY, idZ))
               (Execute.zrange (outExt !!! 2%nat) (outExt !!! 3%nat)))
          (Execute.zrange z (outExt !!! 5%nat)))
       st)
  = Execute.written st
    ++ flat_map
         (fun idZ =>
            flat_map (fun idY => row_voxels outExt idY idZ)
              (Execute.zrange (outExt !!! 2%nat) (outExt !!! 3%nat)))
         (Execute.zrange z (outExt !!! 5%nat)).
Proof.
  induction n as [| n IH]; intros z st Hn Hz.
  - rewrite (zrange_none z (outExt !!! 5%nat)) by lia. cbn [flat_map fold_left].
    rewrite app_nil_r. reflexivity.
  - rewrite (zrange_first z (outExt !!! 5%nat)) by lia. cbn [flat_map]. rewrite fold_left_app.
    pose proof (slice_rows outExt z
                  (Z.to_nat (outExt !!! 3%nat + 1 - outExt !!! 2%nat))
                  (outExt !!! 2%nat) st eq_refl (Z.le_refl _) (or_introl Hz)) as Hs.
    cbn zeta in Hs. destruct Hs as [Hw Hidz].
    rewrite (IH (z + 1)) by lia. rewrite Hw, <- app_assoc. reflexivity.
Qed.

(** X23: the nearest-neighbour copy is right voxel by voxel.  When
    [vtkImageResliceExecute] takes the copy shortcut and rounding is
    monotone, every voxel of the tile holds the input pixel that the point of
    its row, moved [idX] steps along the X axis of the matrix, rounds to, or
    the background pixel when that point rounds to outside the input extent:
    filling the front of a row late, leaving the loop at the first voxel out
    of bounds and filling the rest lose no voxel, and the points kept from
    row to row are those of the row. *)
Theorem nearest_copy_voxel_by_voxel (outExt : list Z) :
  Execute.vtkImageResliceExecute Round GetDataTypeMin GetDataTypeMax heap self scalars
    interpolator outData newmat outExt
  = flat_map (fun '(idX, idY, idZ) => nearest_voxel (row_point idY idZ) idX)
      (Execute.tile_voxels outExt).
Proof.
  unfold Execute.vtkImageResliceExecute, Execute.tile_voxels, Execute.spans.
  destruct (outExt !!! 1%nat <? outExt !!! 0%nat); [reflexivity |].
  rewrite (tile_slices outExt (Z.to_nat (outExt !!! 5%nat + 1 - outExt !!! 4%nat)))
    by (cbn [Execute.idZ]; lia).
  cbn [Execute.written app].
  rewrite !flat_map_flat_map. apply flat_map_ext. intros z.
  rewrite PermuteFacts.flat_map_map. apply flat_map_ext. intros y.
  unfold row_voxels. cbv beta iota. rewrite PermuteFacts.flat_map_map. reflexivity.
Qed.

End Copy.

Lemma Round_half_up_monotone (x y : Q) : (x <= y)%Q -> Round_half_up x <= Round_half_up y.
Proof. intros H. unfold Round_half_up. apply Qfloor_resp_le. lra. Qed.

(** The column read with nearest-neighbour interpolation. *)
Definition nearest_interpolator : Execute.vtkAbstractImageInterpolator :=
  {| Execute.Weights := Execute.Weights Execute.column_interpolator;
     Execute.GetNumberOfComponents := 1;
     Execute.GetComponentOffset := 0;
     Execute.GetBorderMode := Execute.VTK_IMAGE_BORDER_CLAMP;
     Execute.GetExtent := Execute.column_extent;
     Execute.GetInterpolationMode := VTK_RESLICE_NEAREST;
     Execute.CheckBoundsIJK := Execute.CheckBoundsIJK Execute.column_interpolator;
     Execute.InterpolateIJK := Execute.InterpolateIJK Execute.column_interpolator;
     Execute.PrecomputeWeightsForExtent :=
       Execute.PrecomputeWeightsForExtent Execute.column_interpolator;
     Execute.InterpolateRow := Execute.InterpolateRow Execute.column_interpolator;
     Execute.Positions := Execute.Positions Execute.column_interpolator;
     Execute.Pointer := Execute.Pointer Execute.column_interpolator |}.

(** The output X axis runs along the column, one voxel behind it. *)
Definition laid_column : vtkMatrix4x4 :=
  [ [0; 0; 1; 0];
    [0; 1; 0; 0];
    [1; 0; 0; -1];
    [0; 0; 0; 1] ]%Q.

Definition laid_tile : list Z := [-1; 6; 0; 0; 0; 0].

Lemma nearest_copy_voxel_by_voxel_witness :
  Execute.optimizeNearest (Execute.slab_filter 1 false) Execute.column_scalars
    nearest_interpolator Execute.uint16_output laid_column = true /\
  Execute.vtkImageResliceExecute Round_half_up Execute.DataTypeMin Execute.DataTypeMax
    Execute.some_heap (Execute.slab_filter 1 false) Execute.column_scalars
    nearest_interpolator Execute.uint16_output laid_column laid_tile
  = flat_map
      (fun '(idX, idY, idZ) =>
         nearest_voxel Round_half_up Execute.some_heap (Execute.slab_filter 1 false)
           Execute.column_scalars nearest_interpolator Execute.uint16_output laid_column
           (row_point laid_column idY idZ) idX)
      (Execute.tile_voxels laid_tile).
Proof.
  split; [reflexivity |].
  apply (nearest_copy_voxel_by_voxel Round_half_up Execute.DataTypeMin Execute.DataTypeMax
           Execute.some_heap (Execute.slab_filter 1 false) Execute.column_scalars
           nearest_interpolator Execute.uint16_output laid_column
           Round_half_up_monotone eq_refl laid_tile).
Defined.

(** The row of the witness, evaluated: two background voxels in front,
    the five voxels of the column, one background voxel behind. *)
Example laid_tile_row :
  Execute.vtkImageResliceExecute Round_half_up Execute.DataTypeMin Execute.DataTypeMax
    Execute.some_heap (Execute.slab_filter 1 false) Execute.column_scalars
    nearest_interpolator Execute.uint16_output laid_column laid_tile
  = [IntVal 0; IntVal 0; IntVal 0; IntVal 100; IntVal 200; IntVal 300; IntVal 400;
     IntVal 0].
Proof. vm_compute. reflexivity. Qed.

End CopyFacts.


(** ** What the nearest-neighbour check establishes *)

Module NearestFacts.
Import Numeric Permute.

(** The input coordinate [i] of the output voxel [(idX, idY, idZ)], in
    the order the execute functions step to it: along Z from the origin
    column, then along Y, then along X. *)
Definition voxel_coordinate (matrix : vtkMatrix4x4) (i : nat) (idX idY idZ : Z) : Q :=
  nth i
    (Execute.advance
       (Execute.advance
          (Execute.advance (Execute.origin matrix) (inject_Z idZ) (Execute.zAxis matrix))
          (inject_Z idY) (Execute.yAxis matrix))
       (inject_Z idX) (Execute.xAxis matrix))
    0%Q.

Definition in_extent (outExt : list Z) (idX idY idZ : Z) : Prop :=
  outExt !!! 0%nat <= idX <= outExt !!! 1%nat /\
  outExt !!! 2%nat <= idY <= outExt !!! 3%nat /\
  outExt !!! 4%nat <= idZ <= outExt !!! 5%nat.

(** Row [i] takes its coordinate from output axis [i], or from an output
    axis with more than one index. *)
Definition axis_checked (matrix : vtkMatrix4x4) (outExt : list Z) (i : nat) : bool :=
  let j := first_nonzero_column matrix i in
  (j =? i)%nat || negb (outExt !!! (2 * j)%nat =? outExt !!! (2 * j + 1)%nat).

Lemma Qnonzero_false (x : Q) : Qnonzero x = false -> (x == 0)%Q.
Proof.
  unfold Qnonzero. intros H. apply Qeq_bool_iff.
  destruct (Qeq_bool x 0); [reflexivity | discriminate H].
Qed.

Section Check.

Variable Floor : Q -> Z * Q.

(** A value whose fractional part is zero is its floor. *)
Hypothesis Floor_fraction :
  forall x : Q, (snd (Floor x) == 0)%Q -> (x == inject_Z (fst (Floor x)))%Q.

(** Row [i] has its one non-zero entry in column [j] and passed the check. *)
Definition row_shape (matrix : vtkMatrix4x4) (outExt : list Z) (i j : nat) : Prop :=
  first_nonzero_column matrix i = j /\
  (forall j', (j' < 3)%nat -> j' <> j -> Qnonzero (GetElement matrix i j') = false) /\
  nearest_row_ok Floor matrix outExt i j = true.

(** A matrix both checks accept has one non-zero entry in every row as
    well as in every column. *)
Lemma accepted_rows (matrix : vtkMatrix4x4) (outExt : list Z) (i : nat) :
  vtkIsPermutationMatrix matrix = true ->
  vtkCanUseNearestNeighbor Floor matrix outExt = Returned true ->
  (i < 3)%nat ->
  row_shape matrix outExt i 0 \/ row_shape matrix outExt i 1 \/ row_shape matrix outExt i 2.
Proof.
  intros Hperm Hnear Hi.
  unfold vtkIsPermutationMatrix, column_count, vtkCanUseNearestNeighbor in *.
  cbn [nearest_rows existsb fold_left] in Hperm, Hnear.
  do 2 match type of Hperm with
       | (if ?c then _ else _) = _ => destruct c; [discriminate Hperm |]
       end.
  unfold row_shape, first_nonzero_column in *.
  destruct i as [| [| [| i]]]; [| | | lia].
  all: set (ok := nearest_row_ok Floor matrix outExt) in *; clearbody ok.
  all: remember (Qnonzero (GetElement matrix 0 0)) as b00 eqn:E00 in *.
  all: remember (Qnonzero (GetElement matrix 0 1)) as b01 eqn:E01 in *.
  all: remember (Qnonzero (GetElement matrix 0 2)) as b02 eqn:E02 in *.
  all: remember (Qnonzero (GetElement matrix 1 0)) as b10 eqn:E10 in *.
  all: remember (Qnonzero (GetElement matrix 1 1)) as b11 eqn:E11 in *.
  all: remember (Qnonzero (GetElement matrix 1 2)) as b12 eqn:E12 in *.
  all: remember (Qnonzero (GetElement matrix 2 0)) as b20 eqn:E20 in *.
  all: remember (Qnonzero (GetElement matrix 2 1)) as b21 eqn:E21 in *.
  all: remember (Qnonzero (GetElement matrix 2 2)) as b22 eqn:E22 in *.
  all: assert (Hrows : forall j', (j' < 3)%nat -> j' = 0%nat \/ j' = 1%nat \/ j' = 2%nat)
    by lia.
  all: destruct b00, b01, b02, b10, b11, b12, b20, b21, b22;
    vm_compute in Hperm; try discriminate Hperm;
    cbn in Hnear; try discriminate Hnear;
    repeat match type of Hnear with
           | (if ?c then _ else _) = _ => destruct c eqn:?; try discriminate Hnear
           end;
    first
      [ left; split; [reflexivity |]; split; [| first [assumption | reflexivity]];
        intros j' Hj' Hne; destruct (Hrows j' Hj') as [-> | [-> | ->]]; congruence
      | right; left; split; [reflexivity |]; split; [| first [assumption | reflexivity]];
        intros j' Hj' Hne; destruct (Hrows j' Hj') as [-> | [-> | ->]]; congruence
      | right; right; split; [reflexivity |]; split; [| first [assumption | reflexivity]];
        intros j' Hj' Hne; destruct (Hrows j' Hj') as [-> | [-> | ->]]; congruence ].
Qed.

(** What the check of one row gives: on an axis of several indices the
    scale and the translation are integers, on an axis of one index the
    coordinate at the index [outExt[2 * i]] is. *)
Lemma row_check (matrix : vtkMatrix4x4) (outExt : list Z) (i j : nat) :
  nearest_row_ok Floor matrix outExt i j = true ->
  if outExt !!! (2 * j)%nat =? outExt !!! (2 * j + 1)%nat
  then exists n : Z,
         (GetElement matrix i 3
          + GetElement matrix i j * inject_Z (outExt !!! (2 * i)%nat) == inject_Z n)%Q
  else exists a b : Z,
         (GetElement matrix i j == inject_Z a)%Q /\ (GetElement matrix i 3 == inject_Z b)%Q.
Proof.
  unfold nearest_row_ok.
  destruct (outExt !!! (2 * j)%nat =? outExt !!! (2 * j + 1)%nat); cbv zeta beta iota;
    intros H; apply negb_true_iff, orb_false_iff in H; destruct H as [Hx Hy];
    apply Qnonzero_false, Floor_fraction in Hx, Hy.
  - eexists. exact Hy.
  - eexists. eexists. split; [exact Hx | exact Hy].
Qed.

(** X24: what the two checks before the nearest-neighbour downgrade
    establish.  When [vtkIsPermutationMatrix] accepts the index matrix and
    [vtkCanUseNearestNeighbor] returns 1 for an extent, every voxel of the
    extent maps to integer input coordinates, provided each row takes its
    coordinate from the output axis of its own number or from an output axis
    with more than one index: on an axis of one index the check evaluates the
    row at [outExt[2 * i]], the first index of axis [i]. *)
Theorem nearest_check_gives_integer_coordinates
    (matrix : vtkMatrix4x4) (outExt : list Z) (idX idY idZ : Z) (i : nat) :
  vtkIsPermutationMatrix matrix = true ->
  vtkCanUseNearestNeighbor Floor matrix outExt = Returned true ->
  forallb (axis_checked matrix outExt) [0; 1; 2]%nat = true ->
  in_extent outExt idX idY idZ ->
  (i < 3)%nat ->
  exists n : Z, (voxel_coordinate matrix i idX idY idZ == inject_Z n)%Q.
Proof.
  intros Hperm Hnear Haxes (HX & HY & HZ) Hi.
  assert (Haxis : axis_checked matrix outExt i = true).
  { cbn [forallb] in Haxes. rewrite !andb_true_iff in Haxes.
    destruct i as [| [| [| i]]]; [| | | lia]; apply Haxes. }
  pose proof (accepted_rows matrix outExt i Hperm Hnear Hi) as Hshape.
  assert (Hcoord :
            (voxel_coordinate matrix i idX idY idZ
             == GetElement matrix i 3 + inject_Z idZ * GetElement matrix i 2
                + inject_Z idY * GetElement matrix i 1
                + inject_Z idX * GetElement matrix i 0)%Q).
  { unfold voxel_coordinate, Execute.advance, Execute.origin, Execute.xAxis, Execute.yAxis,
      Execute.zAxis.
    destruct i as [| [| [| i]]]; [| | | lia]; cbn [map nth]; reflexivity. }
  unfold axis_checked in Haxis. cbv zeta in Haxis.
  destruct Hshape as [Hs | [Hs | Hs]]; destruct Hs as (Hj & Hzero & Hok);
    rewrite Hj in Haxis; apply row_check in Hok;
    [ pose proof (Qnonzero_false _ (Hzero 1%nat ltac:(lia) ltac:(lia))) as Za;
      pose proof (Qnonzero_false _ (Hzero 2%nat ltac:(lia) ltac:(lia))) as Zb
    | pose proof (Qnonzero_false _ (Hzero 0%nat ltac:(lia) ltac:(lia))) as Za;
      pose proof (Qnonzero_false _ (Hzero 2%nat ltac:(lia) ltac:(lia))) as Zb
    | pose proof (Qnonzero_false _ (Hzero 0%nat ltac:(lia) ltac:(lia))) as Za;
      pose proof (Qnonzero_false _ (Hzero 1%nat ltac:(lia) ltac:(lia))) as Zb ];
    clear Hzero Hj Hperm Hnear Haxes;
    match type of Hok with
    | if ?c then _ else _ =>
        destruct c eqn:Hone;
          [ cbn [negb] in Haxis; rewrite orb_false_r in Haxis;
            apply Nat.eqb_eq in Haxis; subst i; apply Z.eqb_eq in Hone;
            cbn [Nat.mul Nat.add] in Hone, Hok; destruct Hok as [n Hn]; exists n;
            rewrite Hcoord, <- Hn, Za, Zb
          | destruct Hok as (a & b & Ha & Hb) ]
    end.
  - replace idX with (outExt !!! 0%nat) by lia. ring.
  - exists (b + idX * a). rewrite Hcoord, Za, Zb, Ha, Hb, inject_Z_plus, inject_Z_mult. ring.
  - replace idY with (outExt !!! 2%nat) by lia. ring.
  - exists (b + idY * a). rewrite Hcoord, Za, Zb, Ha, Hb, inject_Z_plus, inject_Z_mult. ring.
  - replace idZ with (outExt !!! 4%nat) by lia. ring.
  - exists (b + idZ * a). rewrite Hcoord, Za, Zb, Ha, Hb, inject_Z_plus, inject_Z_mult. ring.
Qed.

End Check.

Lemma Floor_with_fraction_zero (x : Q) :
  (snd (Floor_with_fraction x) == 0)%Q -> (x == inject_Z (fst (Floor_with_fraction x)))%Q.
Proof. unfold Floor_with_fraction. cbn [fst snd]. intros H. lra. Qed.

(** The output X and Y axes exchanged, with two input voxels for each
    step along the output Y axis, over one slice. *)
Definition exchanged_axes : vtkMatrix4x4 :=
  [ [0; 2; 0; 1];
    [1; 0; 0; 0];
    [0; 0; 1; 3];
    [0; 0; 0; 1] ]%Q.

Definition one_slice : list Z := [0; 3; 0; 3; 0; 0].

Lemma nearest_check_gives_integer_coordinates_witness :
  vtkIsPermutationMatrix exchanged_axes = true /\
  vtkCanUseNearestNeighbor Floor_with_fraction exchanged_axes one_slice = Returned true /\
  forallb (axis_checked exchanged_axes one_slice) [0; 1; 2]%nat = true /\
  exists n : Z, (voxel_coordinate exchanged_axes 0 1 2 0 == inject_Z n)%Q.
Proof.
  split; [reflexivity |]. split; [reflexivity |]. split; [reflexivity |].
  apply (nearest_check_gives_integer_coordinates Floor_with_fraction
           Floor_with_fraction_zero exchanged_axes one_slice 1 2 0 0%nat);
    first [reflexivity | unfold in_extent; cbn; lia | lia].
Defined.

(** Why the rows are asked to read their own axis: here row 0 reads the
    output Y axis, which has the one index 1, with a scale of one half.  The
    check evaluates the row at [outExt[0]], which is 0, finds an integer and
    returns 1, although the voxels of the row lie at X coordinate one half. *)
Definition half_step : vtkMatrix4x4 :=
  [ [0; 1 # 2; 0; 0];
    [1; 0; 0; 0];
    [0; 0; 1; 0];
    [0; 0; 0; 1] ]%Q.

Example half_step_is_accepted :
  vtkIsPermutationMatrix half_step = true /\
  vtkCanUseNearestNeighbor Floor_with_fraction half_step [0; 5; 1; 1; 0; 0]
  = Returned true /\
  axis_checked half_step [0; 5; 1; 1; 0; 0] 0 = false /\
  Qeq_bool (voxel_coordinate half_step 0 0 1 0) (1 # 2) = true.
Proof. repeat split; reflexivity. Qed.

End NearestFacts.
